(** * modelpoison: the detection and defense engines, embedded in Rocq

    A shallow embedding of [pkg/detect/detect.go] and [pkg/defend/defend.go].
    Go's [float64] is IEEE 754 binary64 with round-to-nearest-even, which is
    exactly Rocq's primitive [float]; every arithmetic operation of the source
    is translated to the primitive operation of the same name, one rounding
    per operation (no fused multiply-add, as on amd64).  NaN, the infinities
    and the two zeros are therefore part of the model.

    A Go map is a reference.  The maps that the samples refer to live in a
    store; a sample holds the address of its map, or [nil], and the one
    function that writes to a map, [detectOutliers], takes the store and
    returns it with the writes made. *)

From Stdlib Require Import ZArith List String Bool Lia Floats Uint63 Reals Lra.
From stdpp Require Import base option list gmap strings.

Set Warnings "-inexact-float".
Local Open Scope string_scope.
Local Open Scope Z_scope.

(** ** Go's float64 and the parts of package [math] the source calls

    Package [math] belongs to Go's standard library; its functions are
    translated from their documented behaviour, special cases included. *)

Module GoFloat.

Abbreviation float64 := PrimFloat.float.

(** [x > y] and [x < y] of Go; both are false when an operand is NaN. *)
Definition gt (x y : float64) : bool := PrimFloat.ltb y x.
Definition lt (x y : float64) : bool := PrimFloat.ltb x y.
Definition feq (x y : float64) : bool := PrimFloat.eqb x y.

(** [float64(n)] for an [int] [n]: the nearest binary64 number.  Valid for
    [|n| < 2^63], the range of Go's 64-bit [int].  The counters and lengths
    the source converts are between 0 and the length of a slice, so they
    never wrap. *)
Definition float64_of_int (n : Z) : float64 :=
  if (n <? 0)%Z
  then PrimFloat.opp (PrimFloat.of_uint63 (Uint63.of_Z (- n)))
  else PrimFloat.of_uint63 (Uint63.of_Z n).

(** [math.IsNaN], [math.IsInf(f, 1)], [math.IsInf(f, -1)] and
    [math.Signbit]; the last one is only applied to zeros (by [Min] and
    [Max]), and is false here on a NaN whatever its sign bit. *)
Definition IsNaN (f : float64) : bool := negb (PrimFloat.eqb f f).
Definition IsInfPos (f : float64) : bool := feq f PrimFloat.infinity.
Definition IsInfNeg (f : float64) : bool := feq f PrimFloat.neg_infinity.
Definition Signbit (f : float64) : bool :=
  match PrimFloat.classify f with
  | NInf | NNormal | NSubn | NZero => true
  | _ => false
  end.

Definition Abs (x : float64) : float64 := PrimFloat.abs x.
Definition Sqrt (x : float64) : float64 := PrimFloat.sqrt x.

(** [math.Min]: Min(x, -Inf) = Min(-Inf, x) = -Inf; Min(x, NaN) =
    Min(NaN, x) = NaN; Min(-0, +-0) = Min(+-0, -0) = -0. *)
Definition Min (x y : float64) : float64 :=
  if IsInfNeg x || IsInfNeg y then PrimFloat.neg_infinity
  else if IsNaN x || IsNaN y then PrimFloat.nan
  else if feq x 0 && feq x y then (if Signbit x then x else y)
  else if lt x y then x else y.

(** [math.Max]: Max(x, +Inf) = Max(+Inf, x) = +Inf; Max(x, NaN) =
    Max(NaN, x) = NaN; Max(+0, +-0) = Max(+-0, +0) = +0; Max(-0, -0) = -0. *)
Definition Max (x y : float64) : float64 :=
  if IsInfPos x || IsInfPos y then PrimFloat.infinity
  else if IsNaN x || IsNaN y then PrimFloat.nan
  else if feq x 0 && feq x y then (if Signbit x then y else x)
  else if gt x y then x else y.

End GoFloat.
Import GoFloat.

(** ** Go's integers, runes and strings

    An [int] has 64 bits and a [rune] is an [int32]; a string is a sequence
    of bytes.  The conversions are those of the language specification and
    [%c] is translated from the documentation of package [fmt]. *)

Module GoString.

(** Two's complement wrap-around to [bits] bits. *)
Definition wrap (bits n : Z) : Z :=
  ((n + 2 ^ (bits - 1)) mod 2 ^ bits - 2 ^ (bits - 1))%Z.

(** [a + b] on [int], and the conversion [rune(n)] of an [int]. *)
Definition int_add (a b : Z) : Z := wrap 64 (a + b).
Definition rune (n : Z) : Z := wrap 32 n.

(** [int(f)] for a [float64]: the fraction is discarded.  When [f] is NaN,
    infinite or outside the range of [int] the language leaves the result to
    the implementation; [indefinite] stands for that choice. *)
Definition int_of_float64 (indefinite : float64 -> Z) (f : float64) : Z :=
  match Prim2SF f with
  | S754_zero _ => 0%Z
  | S754_finite s m e =>
      let magnitude :=
        if (0 <=? e)%Z then (Zpos m * 2 ^ e)%Z else (Zpos m / 2 ^ (- e))%Z in
      let v := if s then (- magnitude)%Z else magnitude in
      if ((- 2 ^ 63 <=? v) && (v <? 2 ^ 63))%Z then v else indefinite f
  | _ => indefinite f
  end.

Definition byte (n : Z) : Ascii.ascii := Ascii.ascii_of_N (Z.to_N n).

(** The UTF-8 encoding of a code point, as [utf8.EncodeRune] writes it. *)
Definition encode (r : Z) : string :=
  if (r <? 0x80)%Z then
    String (byte r) ""
  else if (r <? 0x800)%Z then
    String (byte (Z.lor 0xC0 (Z.shiftr r 6)))
   (String (byte (Z.lor 0x80 (Z.land r 0x3F))) "")
  else if (r <? 0x10000)%Z then
    String (byte (Z.lor 0xE0 (Z.shiftr r 12)))
   (String (byte (Z.lor 0x80 (Z.land (Z.shiftr r 6) 0x3F)))
   (String (byte (Z.lor 0x80 (Z.land r 0x3F))) ""))
  else
    String (byte (Z.lor 0xF0 (Z.shiftr r 18)))
   (String (byte (Z.lor 0x80 (Z.land (Z.shiftr r 12) 0x3F)))
   (String (byte (Z.lor 0x80 (Z.land (Z.shiftr r 6) 0x3F)))
   (String (byte (Z.lor 0x80 (Z.land r 0x3F))) ""))).

Definition RuneError : Z := 0xFFFD.

(** [string(r)] for a rune [r]: its UTF-8 encoding, and that of U+FFFD when
    [r] is not a valid code point (negative, a surrogate, or above
    U+10FFFF). *)
Definition string_of_rune (r : Z) : string :=
  if ((r <? 0) || (0x10FFFF <? r) || ((0xD800 <=? r) && (r <=? 0xDFFF)))%Z
  then encode RuneError else encode r.

(** The verb [%c] of [fmt.Sprintf] applied to an [int]: the character of
    that code point, U+FFFD when there is none. *)
Definition format_c (n : Z) : string := string_of_rune n.

(** The line feed that the source writes as a backslash followed by n. *)
Definition LF : string := String (byte 10) "".

End GoString.
Import GoString.

(** ** Shared data model *)

(** A value of Go's [interface{}] as stored in a sample's metadata. *)
Inductive MetaValue : Type :=
  | MBool (b : bool)
  | MInt (n : Z)
  | MFloat (f : float64)
  | MString (s : string).

(** A Go map is a reference: a field of type [map[string]interface{}] holds
    [nil] or the address of a map, and a write through one holder of the
    address is seen by every other holder.  [MapRef] is such an address; a
    [Store] gives the contents of the maps, an address that it does not list
    being that of an empty map. *)
Abbreviation MapRef := positive (only parsing).
Abbreviation MetaMap := (gmap string MetaValue) (only parsing).
Abbreviation Store := (gmap MapRef MetaMap) (only parsing).

Definition contents (store : Store) (r : MapRef) : MetaMap :=
  default ∅ (store !! r).

(** [m[key] = v] through the reference [r]. *)
Definition assign (r : MapRef) (key : string) (v : MetaValue) (store : Store)
  : Store :=
  <[r := <[key := v]> (contents store r)]> store.

(** [type Sample struct]: the field Metadata is [None] for the nil map and
    the address of its map otherwise; two samples may hold the same
    address. *)
Record Sample : Type := mkSample {
  ID : string;
  Features : list float64;
  Label : Z;
  Metadata : option MapRef
}.

(** What a Go call does: it returns, or it panics. *)
Inductive outcome (A : Type) : Type :=
  | Returned (a : A)
  | Panicked (msg : string).
Arguments Returned {A} a.
Arguments Panicked {A} msg.

(** ** Package detect *)

Module detect.

Abbreviation PoisonType := string (only parsing).

Definition TypeBackdoor : PoisonType := "backdoor".
Definition TypeLabelFlip : PoisonType := "label_flip".
Definition TypeGradientPoison : PoisonType := "gradient_poison".
Definition TypeFeaturePoison : PoisonType := "feature_poison".
Definition TypeDataPoison : PoisonType := "data_poison".

Module PoisonedSample.
Record t : Type := mk {
  ID : string;
  IsPoisoned : bool;
  Score : float64;
  Type_ : PoisonType;
  Description : string;
  Evidence : string;
  Confidence : float64
}.
End PoisonedSample.

Module DetectionResult.
Record t : Type := mk {
  IsPoisoned : bool;
  SampleCount : Z;
  PoisonedCount : Z;
  Samples : list PoisonedSample.t;
  RiskScore : float64;
  Method : string
}.
End DetectionResult.

Record Detector : Type := mkDetector {
  thresholds : gmap string float64
}.

(** Reading a Go map: the zero value when the key is absent. *)
Definition threshold (d : Detector) (k : PoisonType) : float64 :=
  default 0%float (thresholds d !! k).

Definition NewDetector : Detector :=
  mkDetector
    (<[TypeBackdoor := 0.7%float]>
     (<[TypeLabelFlip := 0.6%float]>
      (<[TypeGradientPoison := 0.65%float]>
       (<[TypeFeaturePoison := 0.7%float]>
        (<[TypeDataPoison := 0.65%float]> ∅))))).

(** [calculateAverage]: the input itself when empty, else every feature
    halved. *)
Definition calculateAverage (features : list float64) : list float64 :=
  match features with
  | [] => features
  | _ => map (fun f => (f / 2.0)%float) features
  end.

Definition calculateLabelLikelihood (sample : Sample) : float64 := 0.5%float.

Definition calculateMean (features : list float64) : float64 :=
  if (Z.of_nat (length features) =? 0)%Z then 0%float
  else
    let sum := fold_left (fun sum f => (sum + f)%float) features 0.0%float in
    (sum / float64_of_int (Z.of_nat (length features)))%float.

Definition calculateStdDev (features : list float64) (mean : float64) : float64 :=
  if (Z.of_nat (length features) =? 0)%Z then 0%float
  else
    let sum :=
      fold_left (fun sum f => (sum + (f - mean) * (f - mean))%float)
                features 0.0%float in
    Sqrt (sum / float64_of_int (Z.of_nat (length features)))%float.

(** The loop of [checkBackdoor], over the index [i] and the element [f];
    [avgFeatures] has the length of the features, so the index is in range. *)
Fixpoint checkBackdoor_loop (avgFeatures : list float64) (i : nat)
         (features : list float64) (score : float64) : float64 :=
  match features with
  | [] => score
  | f :: rest =>
      let score :=
        if gt (Abs (f - default 0%float (avgFeatures !! i))%float) 3.0%float
        then (score + 0.1)%float else score in
      checkBackdoor_loop avgFeatures (S i) rest score
  end.

Definition checkBackdoor (d : Detector) (sample : Sample) : float64 :=
  let score := 0.0%float in
  let avgFeatures := calculateAverage (Features sample) in
  let score := checkBackdoor_loop avgFeatures 0 (Features sample) score in
  Min score 1.0%float.

Definition checkLabelFlip (d : Detector) (sample : Sample) : float64 :=
  let score := 0.0%float in
  let likelihood := calculateLabelLikelihood sample in
  let score := if lt likelihood 0.3%float then (1.0 - likelihood)%float else score in
  score.

Definition checkGradientPoison (d : Detector) (sample : Sample) : float64 :=
  let mean := calculateMean (Features sample) in
  let stdDev := calculateStdDev (Features sample) mean in
  let outliers :=
    fold_left
      (fun outliers f =>
         if gt stdDev 0%float && gt (Abs (f - mean) / stdDev)%float 2.0%float
         then (outliers + 1)%Z else outliers)
      (Features sample) 0%Z in
  let outlierRatio :=
    (float64_of_int outliers
     / float64_of_int (Z.of_nat (length (Features sample))))%float in
  let score := (outlierRatio * 2.0)%float in
  Min score 1.0%float.

Definition checkFeaturePoison (d : Detector) (sample : Sample) : float64 :=
  let mean := calculateMean (Features sample) in
  let stdDev := calculateStdDev (Features sample) mean in
  let maxZScore :=
    fold_left
      (fun maxZScore f =>
         if gt stdDev 0%float then
           let zScore := (Abs (f - mean) / stdDev)%float in
           if gt zScore maxZScore then zScore else maxZScore
         else maxZScore)
      (Features sample) 0.0%float in
  Min (maxZScore / 5.0)%float 1.0%float.

(** One [if score > threshold { ... }] block of [analyzeSample]; [first]
    is the backdoor block, which stores the score without [math.Max]. *)
Definition flag (first : bool) (ty : PoisonType) (score : float64)
           (description evidence : string)
           (result : PoisonedSample.t) : PoisonedSample.t :=
  PoisonedSample.mk
    (PoisonedSample.ID result) true
    (if first then score else Max (PoisonedSample.Score result) score)
    ty description evidence score.

Definition analyzeSample (d : Detector) (sample : Sample) : PoisonedSample.t :=
  let result := PoisonedSample.mk (ID sample) false 0%float "" "" "" 0.0%float in
  let backdoorScore := checkBackdoor d sample in
  let result :=
    if gt backdoorScore (threshold d TypeBackdoor)
    then flag true TypeBackdoor backdoorScore
              "Potential backdoor trigger detected" "Unusual feature pattern" result
    else result in
  let labelScore := checkLabelFlip d sample in
  let result :=
    if gt labelScore (threshold d TypeLabelFlip)
    then flag false TypeLabelFlip labelScore
              "Suspicious label assignment detected" "Label-feature inconsistency" result
    else result in
  let gradientScore := checkGradientPoison d sample in
  let result :=
    if gt gradientScore (threshold d TypeGradientPoison)
    then flag false TypeGradientPoison gradientScore
              "Gradient manipulation detected" "Abnormal gradient pattern" result
    else result in
  let featureScore := checkFeaturePoison d sample in
  let result :=
    if gt featureScore (threshold d TypeFeaturePoison)
    then flag false TypeFeaturePoison featureScore
              "Feature manipulation detected" "Anomalous feature values" result
    else result in
  result.

Definition calculateRiskScore (d : Detector) (result : DetectionResult.t) : float64 :=
  if (DetectionResult.SampleCount result =? 0)%Z then 0.0%float
  else
    let ratio :=
      (float64_of_int (DetectionResult.PoisonedCount result)
       / float64_of_int (DetectionResult.SampleCount result))%float in
    let totalConfidence :=
      fold_left (fun total sample => (total + PoisonedSample.Confidence sample)%float)
                (DetectionResult.Samples result) 0.0%float in
    let avgConfidence :=
      (totalConfidence / float64_of_int (DetectionResult.SampleCount result))%float in
    (ratio * 0.7 + avgConfidence * 0.3)%float.

(** The loop of [Detect]: the verdicts appended so far and the counter. *)
Definition Detect_step (d : Detector) (acc : list PoisonedSample.t * Z)
           (sample : Sample) : list PoisonedSample.t * Z :=
  let poisoned := analyzeSample d sample in
  ((fst acc ++ [poisoned])%list,
   if PoisonedSample.IsPoisoned poisoned then (snd acc + 1)%Z else snd acc).

Definition Detect (d : Detector) (samples : list Sample) : DetectionResult.t :=
  let '(verdicts, poisonedCount) := fold_left (Detect_step d) samples ([], 0%Z) in
  let sampleCount := Z.of_nat (length samples) in
  let result :=
    DetectionResult.mk (0 <? poisonedCount)%Z sampleCount poisonedCount verdicts
                       0%float "ensemble_detection" in
  DetectionResult.mk
    (DetectionResult.IsPoisoned result) (DetectionResult.SampleCount result)
    (DetectionResult.PoisonedCount result) (DetectionResult.Samples result)
    (calculateRiskScore d result) (DetectionResult.Method result).

(** The loop of [GenerateReport] over the index [i] and the verdict: only
    flagged verdicts are listed. *)
Fixpoint GenerateReport_loop (indefinite : float64 -> Z) (i : Z)
         (samples : list PoisonedSample.t) (report : string) : string :=
  match samples with
  | [] => report
  | sample :: rest =>
      let report :=
        if PoisonedSample.IsPoisoned sample then
          let report :=
            report ++ "[" ++ format_c (int_add i 49) ++ "] "
                   ++ PoisonedSample.Type_ sample ++ LF in
          let report := report ++ "    ID: " ++ PoisonedSample.ID sample ++ LF in
          let report := report ++ "    Type: " ++ PoisonedSample.Type_ sample ++ LF in
          let report :=
            report ++ "    Score: "
                   ++ string_of_rune
                        (rune (int_add
                                 (int_of_float64 indefinite
                                    (PoisonedSample.Score sample * 100)%float) 48))
                   ++ "%" ++ LF in
          let report :=
            report ++ "    Description: " ++ PoisonedSample.Description sample ++ LF in
          let report :=
            report ++ "    Evidence: " ++ PoisonedSample.Evidence sample ++ LF ++ LF in
          report
        else report in
      GenerateReport_loop indefinite (int_add i 1) rest report
  end.

(** [GenerateReport] takes a pointer; [None] is the nil pointer, whose
    dereference panics. *)
Definition GenerateReport (indefinite : float64 -> Z)
           (result : option DetectionResult.t) : outcome string :=
  match result with
  | None => Panicked "nil pointer dereference"
  | Some result =>
      let report := "" in
      let report := report ++ "=== Model Poisoning Detection Report ===" ++ LF ++ LF in
      let report :=
        report ++ "Total Samples: "
               ++ string_of_rune (rune (int_add (DetectionResult.SampleCount result) 48))
               ++ LF in
      let report :=
        report ++ "Poisoned Samples: "
               ++ string_of_rune (rune (int_add (DetectionResult.PoisonedCount result) 48))
               ++ LF in
      let report :=
        report ++ "Risk Score: "
               ++ string_of_rune
                    (rune (int_add
                             (int_of_float64 indefinite
                                (DetectionResult.RiskScore result * 100)%float) 48))
               ++ "%" ++ LF in
      let report := report ++ "Method: " ++ DetectionResult.Method result ++ LF ++ LF in
      let report :=
        if (0 <? Z.of_nat (length (DetectionResult.Samples result)))%Z then
          let report := report ++ "Detected Poisoned Samples:" ++ LF in
          GenerateReport_loop indefinite 0 (DetectionResult.Samples result) report
        else report in
      Returned report
  end.

Definition GetDetectionResult (result : option DetectionResult.t)
  : option DetectionResult.t := result.

End detect.

(** ** Package defend *)

Module defend.

(** Modelled from the spec: [defend.go] uses a type [Sample] that it does
    not declare.  The spec's data model gives a sample an identifier, an
    ordered sequence of numeric features, an integer label and a metadata
    mapping from strings to arbitrary values, which the defense layer may
    annotate; that is the record [Sample] above. *)
Abbreviation Sample := Sample (only parsing).

Record DefenseStrategy : Type := mkStrategy {
  Name : string;
  Description : string;
  Effectiveness : float64;
  Overhead : float64;
  Type_ : string
}.

Record DefenseResult : Type := mkResult {
  Success : bool;
  StrategyUsed : string;
  Improvement : float64;
  RiskReduction : float64;
  Cost : float64
}.

Record Defender : Type := mkDefender {
  strategies : list DefenseStrategy
}.

Definition NewDefender : Defender :=
  mkDefender
    [ mkStrategy "Data Cleaning" "Remove suspicious samples"
                 0.75%float 0.2%float "preprocessing";
      mkStrategy "Robust Aggregation" "Use robust aggregation methods"
                 0.8%float 0.15%float "aggregation";
      mkStrategy "Input Filtering" "Filter malicious inputs"
                 0.7%float 0.1%float "filtering";
      mkStrategy "Adversarial Training" "Train on poisoned examples"
                 0.85%float 0.4%float "training";
      mkStrategy "Outlier Detection" "Detect and remove outliers"
                 0.65%float 0.12%float "detection";
      mkStrategy "Ensemble Defense" "Use multiple models"
                 0.9%float 0.5%float "ensemble" ].

(** The lookup loop of [Defend] and [ApplyDefense]: the first strategy
    whose name is the requested one. *)
Fixpoint lookup_strategy (strats : list DefenseStrategy) (strategy : string)
  : option DefenseStrategy :=
  match strats with
  | [] => None
  | strat :: rest =>
      if String.eqb (Name strat) strategy then Some strat
      else lookup_strategy rest strategy
  end.

Definition Defend (d : Defender) (poisoningRisk : float64) (strategy : string)
  : DefenseResult :=
  match lookup_strategy (strategies d) strategy with
  | Some strat =>
      let improvement := (Effectiveness strat * poisoningRisk)%float in
      let riskReduction := (poisoningRisk - improvement)%float in
      mkResult true (Name strat) improvement riskReduction (Overhead strat)
  | None => mkResult false "" 0%float 0%float 0%float
  end.

Definition calculateMean (features : list float64) : float64 :=
  if (Z.of_nat (length features) =? 0)%Z then 0%float
  else
    let sum := fold_left (fun sum f => (sum + f)%float) features 0.0%float in
    (sum / float64_of_int (Z.of_nat (length features)))%float.

Definition calculateStdDev (features : list float64) (mean : float64) : float64 :=
  if (Z.of_nat (length features) =? 0)%Z then 0%float
  else
    let sum :=
      fold_left (fun sum f => (sum + (f - mean) * (f - mean))%float)
                features 0.0%float in
    Sqrt (sum / float64_of_int (Z.of_nat (length features)))%float.

(** [isSuspicious]: the loop returns at the first feature beyond three
    standard deviations. *)
Definition isSuspicious (d : Defender) (sample : Sample) : bool :=
  let mean := calculateMean (Features sample) in
  let stdDev := calculateStdDev (Features sample) mean in
  existsb (fun f => gt stdDev 0%float && gt (Abs (f - mean) / stdDev)%float 3.0%float)
          (Features sample).

(** [isValidInput]: the loop returns false at the first feature that is
    below -100 or above 100. *)
Fixpoint features_in_range (features : list float64) : bool :=
  match features with
  | [] => true
  | f :: rest =>
      if lt f (-100)%float || gt f 100%float then false
      else features_in_range rest
  end.

Definition isValidInput (d : Defender) (sample : Sample) : bool :=
  if (Z.of_nat (length (Features sample)) =? 0)%Z then false
  else features_in_range (Features sample).

Definition isOutlier (d : Defender) (sample : Sample) : bool :=
  let mean := calculateMean (Features sample) in
  let stdDev := calculateStdDev (Features sample) mean in
  if feq stdDev 0%float then false
  else existsb (fun f => gt (Abs (f - mean) / stdDev)%float 2.5%float)
               (Features sample).

(** [cleanData] and [filterInputs] append the kept samples to a fresh
    slice, in order. *)
Definition cleanData (d : Defender) (samples : list Sample) : list Sample :=
  fold_left
    (fun cleaned sample =>
       if negb (isSuspicious d sample) then (cleaned ++ [sample])%list else cleaned)
    samples [].

Definition filterInputs (d : Defender) (samples : list Sample) : list Sample :=
  fold_left
    (fun filtered sample =>
       if isValidInput d sample then (filtered ++ [sample])%list else filtered)
    samples [].

(** [samples[i].Metadata["suspicious"] = true]: assignment to an entry of
    a nil map panics; otherwise the write goes through the reference into
    the store, where every sample that holds the same reference sees it.
    The sample itself, a struct that holds the reference, is not changed. *)
Definition mark_suspicious (sample : Sample) (store : Store) : outcome Store :=
  match Metadata sample with
  | None => Panicked "assignment to entry in nil map"
  | Some r => Returned (assign r "suspicious" (MBool true) store)
  end.

(** The loop of [detectOutliers] over the indices, from the first sample
    on; a panic ends the call.  [isOutlier] reads the features only, which
    no write changes. *)
Fixpoint detectOutliers_loop (d : Defender) (samples : list Sample) (store : Store)
  : outcome Store :=
  match samples with
  | [] => Returned store
  | sample :: rest =>
      if isOutlier d sample then
        match mark_suspicious sample store with
        | Panicked msg => Panicked msg
        | Returned store' => detectOutliers_loop d rest store'
        end
      else detectOutliers_loop d rest store
  end.

(** [detectOutliers] returns the slice that it was given; what it has
    changed is the store. *)
Definition detectOutliers (d : Defender) (samples : list Sample) (store : Store)
  : outcome (list Sample * Store) :=
  match detectOutliers_loop d samples store with
  | Panicked msg => Panicked msg
  | Returned store' => Returned (samples, store')
  end.

(** [cleanData] and [filterInputs] write to no map, and neither do the two
    functions below outside of [detectOutliers]: they hand the store back as
    they found it. *)
Definition applyStrategy (d : Defender) (samples : list Sample)
           (strategy : DefenseStrategy) (store : Store)
  : outcome (list Sample * Store) :=
  if String.eqb (Type_ strategy) "preprocessing" then
    Returned (cleanData d samples, store)
  else if String.eqb (Type_ strategy) "filtering" then
    Returned (filterInputs d samples, store)
  else if String.eqb (Type_ strategy) "detection" then
    detectOutliers d samples store
  else Returned (samples, store).

Definition ApplyDefense (d : Defender) (samples : list Sample) (strategy : string)
           (store : Store) : outcome (list Sample * Store) :=
  match lookup_strategy (strategies d) strategy with
  | Some strat => applyStrategy d samples strat store
  | None => Returned (samples, store)
  end.

Definition RecommendDefense (poisoningRisk : float64) : string :=
  if gt poisoningRisk 0.7%float then "Adversarial Training"
  else if gt poisoningRisk 0.5%float then "Ensemble Defense"
  else if gt poisoningRisk 0.3%float then "Robust Aggregation"
  else if gt poisoningRisk 0.1%float then "Data Cleaning"
  else "Outlier Detection".

(** [CalculateDefenseScore] takes a slice of pointers; [None] is a nil
    pointer, whose dereference panics. *)
Fixpoint score_loop (results : list (option DefenseResult)) (score : float64)
  : outcome float64 :=
  match results with
  | [] => Returned score
  | None :: _ => Panicked "nil pointer dereference"
  | Some result :: rest =>
      score_loop rest (if Success result then (score + Improvement result)%float
                       else score)
  end.

Definition CalculateDefenseScore (results : list (option DefenseResult))
  : outcome float64 :=
  if (Z.of_nat (length results) =? 0)%Z then Returned 0.0%float
  else
    match score_loop results 0.0%float with
    | Panicked msg => Panicked msg
    | Returned score =>
        Returned (score / float64_of_int (Z.of_nat (length results)))%float
    end.

Definition boolToString (b : bool) : string := if b then "yes" else "no".

(** [GenerateReport] takes a pointer; [None] is the nil pointer. *)
Definition GenerateReport (indefinite : float64 -> Z) (result : option DefenseResult)
  : outcome string :=
  match result with
  | None => Panicked "nil pointer dereference"
  | Some result =>
      let report := "" in
      let report := report ++ "=== Model Poisoning Defense Report ===" ++ LF ++ LF in
      let report := report ++ "Success: " ++ boolToString (Success result) ++ LF in
      let report := report ++ "Strategy Used: " ++ StrategyUsed result ++ LF in
      let report :=
        report ++ "Improvement: "
               ++ string_of_rune
                    (rune (int_add
                             (int_of_float64 indefinite (Improvement result * 100)%float)
                             48))
               ++ "%" ++ LF in
      let report :=
        report ++ "Risk Reduction: "
               ++ string_of_rune
                    (rune (int_add
                             (int_of_float64 indefinite (RiskReduction result * 100)%float)
                             48))
               ++ "%" ++ LF in
      let report :=
        report ++ "Cost: "
               ++ string_of_rune
                    (rune (int_add
                             (int_of_float64 indefinite (Cost result * 100)%float) 48))
               ++ "%" ++ LF in
      Returned report
  end.

End defend.

(** ** The specification's formulas

    Definitions that follow the words of the specification; the theorems
    below compare them with the functions translated from the source. *)

Module spec.

(** Sum of a sequence, accumulated from 0 from left to right. *)
Definition float_sum (xs : list float64) : float64 :=
  fold_left PrimFloat.add xs 0%float.

(** Arithmetic mean: the sum divided by the number of elements. *)
Definition arithmetic_mean (xs : list float64) : float64 :=
  (float_sum xs / float64_of_int (Z.of_nat (length xs)))%float.

(** Detector: mean of every verdict's Confidence field. *)
Definition meanConfidence (verdicts : list detect.PoisonedSample.t) : float64 :=
  arithmetic_mean (map detect.PoisonedSample.Confidence verdicts).

(** Detector: 0.7 * (PoisonedCount / SampleCount) + 0.3 * meanConfidence,
    and 0 when SampleCount is 0. *)
Definition riskScore (poisonedCount sampleCount : Z)
           (verdicts : list detect.PoisonedSample.t) : float64 :=
  if (sampleCount =? 0)%Z then 0%float
  else (0.7 * (float64_of_int poisonedCount / float64_of_int sampleCount)
        + 0.3 * meanConfidence verdicts)%float.

(** The four checks of a sample in the order backdoor, label_flip,
    gradient_poison, feature_poison: type, scorer output, description and
    evidence. *)
Record check : Type := mkCheck {
  check_type : string;
  check_score : float64;
  check_description : string;
  check_evidence : string
}.

Definition checks (d : detect.Detector) (sample : Sample) : list check :=
  [ mkCheck detect.TypeBackdoor (detect.checkBackdoor d sample)
            "Potential backdoor trigger detected" "Unusual feature pattern";
    mkCheck detect.TypeLabelFlip (detect.checkLabelFlip d sample)
            "Suspicious label assignment detected" "Label-feature inconsistency";
    mkCheck detect.TypeGradientPoison (detect.checkGradientPoison d sample)
            "Gradient manipulation detected" "Abnormal gradient pattern";
    mkCheck detect.TypeFeaturePoison (detect.checkFeaturePoison d sample)
            "Feature manipulation detected" "Anomalous feature values" ].

(** A check exceeds its threshold when its score is strictly above the
    threshold of its type. *)
Definition exceeds (d : detect.Detector) (c : check) : bool :=
  gt (check_score c) (detect.threshold d (check_type c)).

Definition exceeded (d : detect.Detector) (sample : Sample) : list check :=
  List.filter (exceeds d) (checks d sample).

(** Input filtering: a feature lies in the closed interval [-100, 100]. *)
Definition in_range (f : float64) : bool :=
  PrimFloat.leb (-100)%float f && PrimFloat.leb f 100%float.

(** Input filtering: a sample is kept when its feature sequence is
    non-empty and every feature lies in [-100, 100]. *)
Definition valid_sample (sample : Sample) : bool :=
  negb (Nat.eqb (length (Features sample)) 0) && forallb in_range (Features sample).

(** Input filtering as the comparisons of the source decide it: a feature
    passes unless it compares below -100 or above 100.  A NaN compares
    false both ways, so it passes. *)
Definition not_out_of_range (f : float64) : bool :=
  negb (GoFloat.lt f (-100)%float || gt f 100%float).

Definition accepted_sample (sample : Sample) : bool :=
  negb (Nat.eqb (length (Features sample)) 0)
  && forallb not_out_of_range (Features sample).

(** Outlier detection: the reference [r] is that of the map of a sample
    that [isOutlier] flags. *)
Definition flagged (d : defend.Defender) (samples : list Sample) (r : MapRef)
  : bool :=
  existsb (fun sample =>
             defend.isOutlier d sample
             && match Metadata sample with
                | Some r' => Pos.eqb r' r
                | None => false
                end)
          samples.

(** Outlier detection: what the annotation does to the maps: "suspicious"
    is set to true in the map of each outlier, and nothing else is
    written. *)
Definition annotate (d : defend.Defender) (samples : list Sample) (store : Store)
  : Store :=
  foldr (fun sample store' =>
           if defend.isOutlier d sample then
             match Metadata sample with
             | Some r => assign r "suspicious" (MBool true) store'
             | None => store'
             end
           else store')
        store samples.

(** Outlier detection: every outlier carries a non-nil metadata map. *)
Definition outliers_have_metadata (d : defend.Defender) (samples : list Sample) : Prop :=
  Forall (fun sample => defend.isOutlier d sample = true -> Metadata sample <> None)
         samples.

(** Defense score: the sum of Improvement over the successful results
    divided by the total number of results; 0 for no results. *)
Definition defenseScore (results : list defend.DefenseResult) : float64 :=
  match results with
  | [] => 0%float
  | _ =>
      (float_sum (map defend.Improvement (List.filter defend.Success results))
       / float64_of_int (Z.of_nat (length results)))%float
  end.

End spec.

(** ** Notions used to state and prove the properties

    Comparison of binary64 numbers as propositions, the real value of a
    non-negative binary64 number, and the arithmetic description of rounding
    to nearest even. *)

Module F64.

(** [x <= y] and [x < y] as propositions; both imply that neither side
    is NaN. *)
Definition le (x y : float64) : Prop := PrimFloat.leb x y = true.
Definition lt (x y : float64) : Prop := PrimFloat.ltb x y = true.

(** [x] is a number: not NaN. *)
Definition is_num (x : float64) : Prop := PrimFloat.eqb x x = true.

(** [x] lies in the closed interval [0, 1]. *)
Definition in_unit (x : float64) : Prop := le 0 x /\ le x 1.
Definition in_unitb (x : float64) : bool :=
  PrimFloat.leb 0 x && PrimFloat.leb x 1.

End F64.

Module Round64.

(** Powers of two as real numbers, and the value [m * 2^e]. *)
Definition pow2 (e : Z) : R := powerRZ 2 e.
Definition mval (m e : Z) : R := (IZR m * pow2 e)%R.

(** The value of a binary64 number given as a [spec_float]. *)
Definition SFval (x : spec_float) : R :=
  match x with
  | S754_finite false m e => mval (Zpos m) e
  | S754_finite true m e => mval (Zneg m) e
  | _ => 0%R
  end.

(** What the located value is bounded by: the mantissa itself when the
    location is exact, the next integer otherwise. *)
Definition up (m : Z) (l : location) : Z :=
  match l with loc_Exact => m | loc_Inexact _ => m + 1 end.

(** A spec float that is [+0] or a positive finite number. *)
Definition nonneg_finite (x : spec_float) : Prop :=
  x = S754_zero false \/ exists m e, x = S754_finite false m e.

(** The result of rounding a positive value is [+0], positive and finite,
    or [+infinity]. *)
Definition nonneg_shape (x : spec_float) : Prop :=
  nonneg_finite x \/ x = S754_infinity false.

(** Rounding [m / 2^k] to the nearest integer, ties to even, by the
    quotient and the remainder of the division. *)
Definition rne_div (m k : Z) : Z :=
  let q := m / 2 ^ k in
  match 2 * (m mod 2 ^ k) ?= 2 ^ k with
  | Lt => q
  | Eq => if Z.even q then q else q + 1
  | Gt => q + 1
  end.

(** The last steps of [binary_round_aux]: renormalize the rounded mantissa
    and build the number. *)
Definition finish (s : bool) (m1 t : Z) : spec_float :=
  let p2 := shr_fexp prec emax m1 t loc_Exact in
  match shr_m (fst p2) with
  | Z0 => S754_zero s
  | Zpos m' =>
      if snd p2 <=? emax - prec then S754_finite s m' (snd p2) else S754_infinity s
  | Zneg _ => S754_nan
  end.

End Round64.

(** The value of a binary64 number; the numbers that are [+0] or positive
    and finite; the positive finite numbers. *)
Definition fval (x : float64) : R := Round64.SFval (Prim2SF x).
Definition good (x : float64) : Prop := Round64.nonneg_finite (Prim2SF x).
Definition posfin (x : float64) : Prop :=
  exists m e, Prim2SF x = S754_finite false m e.

(** One defense applied to the outcome of another. *)
Definition then_apply (d : defend.Defender) (name : string)
           (o : outcome (list Sample * Store)) : outcome (list Sample * Store) :=
  match o with
  | Returned (samples, store) => defend.ApplyDefense d samples name store
  | Panicked msg => Panicked msg
  end.

(** [+infinity], or a positive normal number with exponent at least [t]. *)
Definition pos_normal_from (t : Z) (x : spec_float) : Prop :=
  x = S754_infinity false
  \/ exists a t', x = S754_finite false a t' /\ 2 ^ 52 <= Zpos a /\ t <= t'.


(** * Facts about binary64 comparison

    The primitive comparisons are specified by [SFcompare] on [spec_float];
    the order facts are proved there by cases and carried to [float]. *)

Module SFOrder.

Lemma compare_cont_Eq (m n : positive) : Pos.compare_cont Eq m n = (m ?= n)%positive.
Proof. reflexivity. Qed.

Ltac cmp_cases :=
  repeat match goal with
    | H : context [Pos.compare_cont Eq ?a ?b] |- _ =>
        rewrite (compare_cont_Eq a b) in H
    | |- context [Pos.compare_cont Eq ?a ?b] =>
        rewrite (compare_cont_Eq a b)
    end;
  repeat match goal with
    | H : context [(?a ?= ?b)%Z] |- _ => destruct (Z.compare_spec a b)
    | |- context [(?a ?= ?b)%Z] => destruct (Z.compare_spec a b)
    | H : context [(?a ?= ?b)%positive] |- _ => destruct (Pos.compare_spec a b)
    | |- context [(?a ?= ?b)%positive] => destruct (Pos.compare_spec a b)
    end;
  simpl in *; subst; try congruence; try lia.

Ltac sf_destruct x := destruct x as [[|]|[|]| |[|] ? ?].

Lemma ltb_leb (x y : spec_float) : SFltb x y = true -> SFleb x y = true.
Proof. unfold SFltb, SFleb. destruct (SFcompare x y) as [[| |]|]; congruence. Qed.

Lemma eqb_leb (x y : spec_float) : SFeqb x y = true -> SFleb x y = true.
Proof. unfold SFeqb, SFleb. destruct (SFcompare x y) as [[| |]|]; congruence. Qed.


Lemma leb_trans (x y z : spec_float) :
  SFleb x y = true -> SFleb y z = true -> SFleb x z = true.
Proof.
  unfold SFleb. sf_destruct x; sf_destruct y; sf_destruct z; simpl;
    try congruence; cmp_cases.
Qed.

Lemma ltb_leb_trans (x y z : spec_float) :
  SFltb x y = true -> SFleb y z = true -> SFltb x z = true.
Proof.
  unfold SFltb, SFleb. sf_destruct x; sf_destruct y; sf_destruct z; simpl;
    try congruence; cmp_cases.
Qed.

Lemma leb_ltb_trans (x y z : spec_float) :
  SFleb x y = true -> SFltb y z = true -> SFltb x z = true.
Proof.
  unfold SFltb, SFleb. sf_destruct x; sf_destruct y; sf_destruct z; simpl;
    try congruence; cmp_cases.
Qed.

(** Two numbers (neither is NaN) are comparable. *)
Lemma ltb_false_leb (x y : spec_float) :
  SFeqb x x = true -> SFeqb y y = true -> SFltb x y = false -> SFleb y x = true.
Proof.
  unfold SFltb, SFleb, SFeqb. sf_destruct x; sf_destruct y; simpl;
    try congruence; cmp_cases.
Qed.

Lemma leb_refl (x : spec_float) : SFeqb x x = true -> SFleb x x = true.
Proof. apply eqb_leb. Qed.

Lemma ltb_not_nan_l (x y : spec_float) : SFltb x y = true -> SFeqb x x = true.
Proof.
  unfold SFltb, SFeqb. sf_destruct x; sf_destruct y; simpl; try congruence;
    cmp_cases.
Qed.

Lemma ltb_not_nan_r (x y : spec_float) : SFltb x y = true -> SFeqb y y = true.
Proof.
  unfold SFltb, SFeqb. sf_destruct x; sf_destruct y; simpl; try congruence;
    cmp_cases.
Qed.

Lemma leb_not_nan_l (x y : spec_float) : SFleb x y = true -> SFeqb x x = true.
Proof.
  unfold SFleb, SFeqb. sf_destruct x; sf_destruct y; simpl; try congruence;
    cmp_cases.
Qed.

Lemma leb_not_nan_r (x y : spec_float) : SFleb x y = true -> SFeqb y y = true.
Proof.
  unfold SFleb, SFeqb. sf_destruct x; sf_destruct y; simpl; try congruence;
    cmp_cases.
Qed.

Lemma ltb_antisym (x y : spec_float) : SFltb x y = true -> SFltb y x = false.
Proof.
  unfold SFltb. sf_destruct x; sf_destruct y; simpl; try congruence; cmp_cases.
Qed.

End SFOrder.

(** The same facts on [float64], with the behaviour of [math.Min] and
    [math.Max] on numbers. *)

Module F64Facts.

Import F64.

Ltac to_spec :=
  unfold le, lt, is_num, GoFloat.gt, GoFloat.lt, GoFloat.feq, GoFloat.IsNaN,
    GoFloat.IsInfPos, GoFloat.IsInfNeg in *;
  rewrite ?FloatAxioms.ltb_spec, ?FloatAxioms.leb_spec, ?FloatAxioms.eqb_spec in *.

Lemma lt_le x y : lt x y -> le x y.
Proof. to_spec. apply SFOrder.ltb_leb. Qed.


Lemma le_trans x y z : le x y -> le y z -> le x z.
Proof. to_spec. apply SFOrder.leb_trans. Qed.

Lemma lt_le_trans x y z : lt x y -> le y z -> lt x z.
Proof. to_spec. apply SFOrder.ltb_leb_trans. Qed.

Lemma le_lt_trans x y z : le x y -> lt y z -> lt x z.
Proof. to_spec. apply SFOrder.leb_ltb_trans. Qed.

Lemma lt_irrefl x : ~ lt x x.
Proof.
  to_spec. intros H. pose proof (SFOrder.ltb_antisym _ _ H). congruence.
Qed.

Lemma le_refl x : is_num x -> le x x.
Proof. to_spec. apply SFOrder.leb_refl. Qed.

Lemma eqb_le x y : PrimFloat.eqb x y = true -> le x y.
Proof. to_spec. apply SFOrder.eqb_leb. Qed.

Lemma not_lt_le x y : is_num x -> is_num y -> PrimFloat.ltb x y = false -> le y x.
Proof. to_spec. apply SFOrder.ltb_false_leb. Qed.

Lemma lt_num_l x y : lt x y -> is_num x.
Proof. to_spec. apply SFOrder.ltb_not_nan_l. Qed.

Lemma lt_num_r x y : lt x y -> is_num y.
Proof. to_spec. apply SFOrder.ltb_not_nan_r. Qed.

Lemma le_num_l x y : le x y -> is_num x.
Proof. to_spec. apply SFOrder.leb_not_nan_l. Qed.

Lemma le_num_r x y : le x y -> is_num y.
Proof. to_spec. apply SFOrder.leb_not_nan_r. Qed.

Lemma eqb_sym x y : PrimFloat.eqb x y = PrimFloat.eqb y x.
Proof.
  rewrite !FloatAxioms.eqb_spec. unfold SFeqb.
  destruct (Prim2SF x) as [[|]|[|]| |[|] ? ?], (Prim2SF y) as [[|]|[|]| |[|] ? ?];
    simpl; try reflexivity; SFOrder.cmp_cases.
Qed.

(** Only the infinities compare equal to an infinity. *)
Lemma eqb_infinity x : PrimFloat.eqb x infinity = true -> x = infinity.
Proof.
  rewrite FloatAxioms.eqb_spec. intros H. apply Prim2SF_inj.
  change (Prim2SF infinity) with (S754_infinity false) in *.
  unfold SFeqb in H.
  destruct (Prim2SF x) as [[|]|[|]| |[|] ? ?]; simpl in H; congruence.
Qed.

Lemma eqb_neg_infinity x : PrimFloat.eqb x neg_infinity = true -> x = neg_infinity.
Proof.
  rewrite FloatAxioms.eqb_spec. intros H. apply Prim2SF_inj.
  change (Prim2SF neg_infinity) with (S754_infinity true) in *.
  unfold SFeqb in H.
  destruct (Prim2SF x) as [[|]|[|]| |[|] ? ?]; simpl in H; congruence.
Qed.

Lemma le_infinity x : is_num x -> le x infinity.
Proof.
  to_spec. change (Prim2SF infinity) with (S754_infinity false).
  unfold SFeqb, SFleb.
  destruct (Prim2SF x) as [[|]|[|]| |[|] ? ?]; simpl; congruence.
Qed.

Lemma neg_infinity_le x : is_num x -> le neg_infinity x.
Proof.
  to_spec. change (Prim2SF neg_infinity) with (S754_infinity true).
  unfold SFeqb, SFleb.
  destruct (Prim2SF x) as [[|]|[|]| |[|] ? ?]; simpl; congruence.
Qed.

Lemma is_num_IsNaN x : is_num x -> IsNaN x = false.
Proof. unfold is_num, IsNaN. intros ->. reflexivity. Qed.

(** [math.Max] of two numbers is one of them and bounds both. *)
Lemma Max_spec x y :
  is_num x -> is_num y ->
  (Max x y = x \/ Max x y = y) /\ le x (Max x y) /\ le y (Max x y).
Proof.
  intros Hx Hy. unfold Max.
  destruct (IsInfPos x) eqn:Ix; simpl.
  { apply eqb_infinity in Ix. subst x.
    split; [now left|]. split; [now apply le_refl | now apply le_infinity]. }
  destruct (IsInfPos y) eqn:Iy; simpl.
  { apply eqb_infinity in Iy. subst y.
    split; [now right|]. split; [now apply le_infinity | now apply le_refl]. }
  rewrite (is_num_IsNaN x Hx), (is_num_IsNaN y Hy). simpl.
  destruct (feq x 0 && feq x y) eqn:Hz.
  { apply andb_prop in Hz as [_ Hxy]. unfold feq in Hxy.
    assert (le x y) by now apply eqb_le.
    assert (le y x) by (apply eqb_le; now rewrite eqb_sym).
    destruct (Signbit x); (split; [tauto|]); split;
      auto using le_refl. }
  destruct (gt x y) eqn:Hg.
  - split; [now left|]. split; [now apply le_refl|]. now apply lt_le.
  - split; [now right|]. split; [|now apply le_refl].
    now apply not_lt_le.
Qed.

Lemma Max_num x y : is_num x -> is_num y -> is_num (Max x y).
Proof.
  intros Hx Hy. destruct (Max_spec x y Hx Hy) as [[-> | ->] _]; assumption.
Qed.

(** [math.Min] of two numbers is one of them and is below both. *)
Lemma Min_spec x y :
  is_num x -> is_num y ->
  (Min x y = x \/ Min x y = y) /\ le (Min x y) x /\ le (Min x y) y.
Proof.
  intros Hx Hy. unfold Min.
  destruct (IsInfNeg x) eqn:Ix; simpl.
  { apply eqb_neg_infinity in Ix. subst x.
    split; [now left|]. split; [now apply le_refl | now apply neg_infinity_le]. }
  destruct (IsInfNeg y) eqn:Iy; simpl.
  { apply eqb_neg_infinity in Iy. subst y.
    split; [now right|]. split; [now apply neg_infinity_le | now apply le_refl]. }
  rewrite (is_num_IsNaN x Hx), (is_num_IsNaN y Hy). simpl.
  destruct (feq x 0 && feq x y) eqn:Hz.
  { apply andb_prop in Hz as [_ Hxy]. unfold feq in Hxy.
    assert (le x y) by now apply eqb_le.
    assert (le y x) by (apply eqb_le; now rewrite eqb_sym).
    destruct (Signbit x); (split; [tauto|]); split;
      auto using le_refl. }
  destruct (GoFloat.lt x y) eqn:Hg.
  - split; [now left|]. split; [now apply le_refl|]. now apply lt_le.
  - split; [now right|]. split; [|now apply le_refl].
    now apply not_lt_le.
Qed.

(** Clamping a number from above by 1 gives a number at most 1; a NaN
    stays NaN. *)
Lemma Min_one_le x : is_num x -> le (Min x 1) 1.
Proof. intros Hx. now apply Min_spec. Qed.

Lemma Min_one_ge x : le 0 x -> le 0 (Min x 1).
Proof.
  intros Hx. pose proof (le_num_r _ _ Hx) as Hn.
  destruct (Min_spec x 1 Hn eq_refl) as [[-> | ->] _]; [assumption | reflexivity].
Qed.

Lemma in_unitb_spec x : in_unitb x = true <-> in_unit x.
Proof. unfold in_unitb, in_unit, le. now rewrite andb_true_iff. Qed.

End F64Facts.

(** * Rounding in binary64

    The arithmetic operations round through [binary_round_aux].  This part
    proves the one fact about rounding that bounding the risk score needs:
    when the exact value is at most a binary64 number, so is the rounded
    result.  Values are real numbers [m * 2^e]. *)

Module Round64Facts.

Import Round64.

Lemma fexp64 (e : Z) : fexp prec emax e = Z.max (e - 53) (-1074).
Proof. reflexivity. Qed.

Lemma fexp64_mono (e e' : Z) : e <= e' -> fexp prec emax e <= fexp prec emax e'.
Proof. rewrite !fexp64. lia. Qed.

(** *** Number of binary digits *)

Lemma digits2_pos_bounds (p : positive) :
  2 ^ (Zpos (digits2_pos p) - 1) <= Zpos p < 2 ^ Zpos (digits2_pos p).
Proof.
  induction p as [p IH|p IH|]; cbn [digits2_pos].
  - rewrite Pos2Z.inj_succ, Z.pow_succ_r by lia.
    replace (Z.succ (Zpos (digits2_pos p)) - 1) with (Z.succ (Zpos (digits2_pos p) - 1)) by lia.
    rewrite Z.pow_succ_r by lia. lia.
  - rewrite Pos2Z.inj_succ, Z.pow_succ_r by lia.
    replace (Z.succ (Zpos (digits2_pos p)) - 1) with (Z.succ (Zpos (digits2_pos p) - 1)) by lia.
    rewrite Z.pow_succ_r by lia. lia.
  - simpl. lia.
Qed.

Lemma Zdigits2_nonneg (m : Z) : 0 <= Zdigits2 m.
Proof. destruct m; simpl; lia. Qed.

Lemma Zdigits2_bounds (m : Z) :
  0 < m -> 2 ^ (Zdigits2 m - 1) <= m < 2 ^ Zdigits2 m.
Proof. destruct m as [|p|p]; try lia. intros _. apply digits2_pos_bounds. Qed.

(** A non-negative number below [2^k] has at most [k] digits. *)
Lemma Zdigits2_le (m k : Z) : 0 <= m -> 0 <= k -> m < 2 ^ k -> Zdigits2 m <= k.
Proof.
  intros Hm Hk Hlt. destruct (Z.eq_dec m 0) as [->|Hn]; [simpl; lia|].
  destruct (Zdigits2_bounds m ltac:(lia)) as [Hlo _].
  destruct (Z_le_gt_dec (Zdigits2 m) k) as [H|H]; [exact H|exfalso].
  assert (2 ^ k <= 2 ^ (Zdigits2 m - 1)) by (apply Z.pow_le_mono_r; lia).
  lia.
Qed.

(** A number at least [2^k] has more than [k] digits. *)
Lemma Zdigits2_gt (m k : Z) : 0 <= k -> 2 ^ k <= m -> k < Zdigits2 m.
Proof.
  intros Hk Hle.
  assert (0 < m) by (pose proof (Z.pow_pos_nonneg 2 k); lia).
  destruct (Zdigits2_bounds m ltac:(lia)) as [_ Hhi].
  destruct (Z_lt_le_dec k (Zdigits2 m)) as [H'|H']; [exact H'|exfalso].
  assert (2 ^ Zdigits2 m <= 2 ^ k) by (apply Z.pow_le_mono_r; lia).
  lia.
Qed.

Lemma Zdigits2_mono (m n : Z) : 0 <= m <= n -> Zdigits2 m <= Zdigits2 n.
Proof.
  intros [Hm Hmn]. destruct (Z.eq_dec n 0) as [->|Hn].
  - assert (m = 0) by lia. subst. lia.
  - apply Zdigits2_le; [lia | apply Zdigits2_nonneg |].
    destruct (Zdigits2_bounds n ltac:(lia)). lia.
Qed.

(** *** Shifting right *)

Lemma iter_pos_nat {A : Type} (f : A -> A) (p : positive) (x : A) :
  SpecFloat.iter_pos f p x = Nat.iter (Pos.to_nat p) f x.
Proof.
  revert x. induction p as [p IH|p IH|]; intros x; cbn [SpecFloat.iter_pos].
  - rewrite !IH, Pos2Nat.inj_xI, Nat.iter_succ_r.
    replace (2 * Pos.to_nat p)%nat with (Pos.to_nat p + Pos.to_nat p)%nat by lia.
    now rewrite Nat.iter_add.
  - rewrite !IH, Pos2Nat.inj_xO.
    replace (2 * Pos.to_nat p)%nat with (Pos.to_nat p + Pos.to_nat p)%nat by lia.
    now rewrite Nat.iter_add.
  - reflexivity.
Qed.

Lemma shr_1_m (mrs : shr_record) :
  0 <= shr_m mrs -> shr_m (shr_1 mrs) = shr_m mrs / 2.
Proof.
  destruct mrs as [m r s]. cbn [shr_m]. intros Hm.
  destruct m as [|[p|p|]|p]; try lia; cbn [shr_1 shr_m].
  - reflexivity.
  - rewrite Pos2Z.inj_xI. apply Z.div_unique with 1; lia.
  - rewrite Pos2Z.inj_xO. apply Z.div_unique with 0; lia.
  - reflexivity.
Qed.

Lemma shr_1_exact (mrs : shr_record) :
  0 <= shr_m mrs -> shr_r mrs = false -> shr_s mrs = false ->
  shr_m mrs mod 2 = 0 ->
  shr_r (shr_1 mrs) = false /\ shr_s (shr_1 mrs) = false.
Proof.
  destruct mrs as [m r s]. cbn [shr_m shr_r shr_s]. intros Hm -> -> Hmod.
  destruct m as [|[p|p|]|p]; try lia; cbn [shr_1 shr_r shr_s]; try (split; reflexivity).
  - rewrite Pos2Z.inj_xI in Hmod. exfalso.
    rewrite Z.add_comm, Z.mul_comm, Z.mod_add in Hmod by lia. discriminate.
  - discriminate.
Qed.

Lemma iter_shr_1 (n : nat) (mrs : shr_record) :
  0 <= shr_m mrs ->
  shr_m (Nat.iter n shr_1 mrs) = shr_m mrs / 2 ^ Z.of_nat n
  /\ (shr_r mrs = false -> shr_s mrs = false ->
      shr_m mrs mod 2 ^ Z.of_nat n = 0 ->
      shr_r (Nat.iter n shr_1 mrs) = false /\ shr_s (Nat.iter n shr_1 mrs) = false).
Proof.
  intros Hm. induction n as [|n [IHm IHe]].
  - change (Nat.iter 0 shr_1 mrs) with mrs. simpl. rewrite Z.div_1_r. tauto.
  - change (Nat.iter (S n) shr_1 mrs) with (shr_1 (Nat.iter n shr_1 mrs)).
    assert (Hpos : 0 < 2 ^ Z.of_nat n) by (apply Z.pow_pos_nonneg; lia).
    assert (Hn : 0 <= shr_m (Nat.iter n shr_1 mrs)).
    { rewrite IHm. apply Z.div_pos; lia. }
    rewrite Nat2Z.inj_succ, Z.pow_succ_r by lia. split.
    + rewrite shr_1_m, IHm by exact Hn. rewrite Z.div_div by lia.
      f_equal. lia.
    + intros Hr Hs Hmod.
      assert (Hmod' : shr_m mrs mod 2 ^ Z.of_nat n = 0).
      { apply Z.mod_divide in Hmod; [|lia]. apply Z.mod_divide; [lia|].
        destruct Hmod as [c Hc]. exists (c * 2). lia. }
      destruct (IHe Hr Hs Hmod') as [Er Es].
      apply shr_1_exact; [exact Hn | exact Er | exact Es |].
      rewrite IHm.
      apply Z.mod_divide in Hmod; [|lia]. destruct Hmod as [c Hc].
      rewrite Hc. replace (c * (2 * 2 ^ Z.of_nat n)) with ((c * 2) * 2 ^ Z.of_nat n) by lia.
      rewrite Z.div_mul by lia. now rewrite Z.mod_mul by lia.
Qed.

(** *** Powers of two as real numbers *)

Lemma pow2_pos (e : Z) : (0 < pow2 e)%R.
Proof. apply powerRZ_lt. lra. Qed.

Lemma pow2_add (a b : Z) : pow2 (a + b) = (pow2 a * pow2 b)%R.
Proof. apply powerRZ_add. lra. Qed.

Lemma pow2_IZR (k : Z) : 0 <= k -> pow2 k = IZR (2 ^ k).
Proof.
  intros Hk. unfold pow2. destruct k as [|p|p]; try lia.
  - reflexivity.
  - cbn [powerRZ]. rewrite pow_IZR. now rewrite positive_nat_Z.
Qed.

Lemma pow2_ge_1 (k : Z) : 0 <= k -> (1 <= pow2 k)%R.
Proof.
  intros Hk. rewrite pow2_IZR by exact Hk. apply IZR_le.
  pose proof (Z.pow_pos_nonneg 2 k). lia.
Qed.

Lemma pow2_le (a b : Z) : a <= b -> (pow2 a <= pow2 b)%R.
Proof.
  intros Hab. replace b with (a + (b - a)) by lia. rewrite pow2_add.
  pose proof (pow2_pos a). pose proof (pow2_ge_1 (b - a) ltac:(lia)). nra.
Qed.

Lemma pow2_lt (a b : Z) : a < b -> (pow2 a < pow2 b)%R.
Proof.
  intros Hab. replace b with (a + (b - a)) by lia. rewrite pow2_add.
  pose proof (pow2_pos a).
  assert (2 <= pow2 (b - a))%R.
  { rewrite pow2_IZR by lia. apply IZR_le.
    change 2 with (2 ^ 1). apply Z.pow_le_mono_r; lia. }
  nra.
Qed.

Lemma pow2_lt_inv (a b : Z) : (pow2 a < pow2 b)%R -> a < b.
Proof.
  intros H. destruct (Z_lt_le_dec a b) as [L|L]; [exact L|].
  pose proof (pow2_le b a L). lra.
Qed.

(** Comparing values at exponents [e <= e']. *)
Lemma mval_le_scale (a b e e' : Z) :
  e <= e' -> (mval a e <= mval b e')%R -> a <= b * 2 ^ (e' - e).
Proof.
  unfold mval. intros He H. apply le_IZR. rewrite mult_IZR, <- pow2_IZR by lia.
  replace e' with (e + (e' - e)) in H by lia. rewrite pow2_add in H.
  pose proof (pow2_pos e). nra.
Qed.

Lemma mval_digits (a b e e' : Z) :
  0 < a -> (mval a e <= mval b e')%R -> Zdigits2 a + e <= Zdigits2 b + e'.
Proof.
  unfold mval. intros Ha H.
  assert (Hb : 0 < b).
  { apply lt_IZR. pose proof (pow2_pos e). pose proof (pow2_pos e').
    assert (0 < IZR a)%R by now apply IZR_lt. nra. }
  destruct (Zdigits2_bounds a Ha) as [La _].
  destruct (Zdigits2_bounds b Hb) as [_ Ub].
  pose proof (Zdigits2_nonneg b) as Nb.
  assert (Da : 1 <= Zdigits2 a).
  { destruct a; simpl; lia. }
  apply IZR_le in La. apply IZR_lt in Ub.
  rewrite <- pow2_IZR in La, Ub by lia.
  assert (pow2 (Zdigits2 a - 1 + e) < pow2 (Zdigits2 b + e'))%R.
  { rewrite !pow2_add. pose proof (pow2_pos e). pose proof (pow2_pos e'). nra. }
  apply pow2_lt_inv in H0. lia.
Qed.

(** *** The shift and the rounding step of [binary_round_aux] *)

Lemma shr_spec (mrs : shr_record) (e n : Z) :
  0 <= shr_m mrs -> 0 <= n ->
  snd (shr mrs e n) = e + n
  /\ shr_m (fst (shr mrs e n)) = shr_m mrs / 2 ^ n
  /\ (shr_r mrs = false -> shr_s mrs = false -> shr_m mrs mod 2 ^ n = 0 ->
      shr_r (fst (shr mrs e n)) = false /\ shr_s (fst (shr mrs e n)) = false).
Proof.
  intros Hm Hn. destruct n as [|p|p]; try lia; cbn [shr fst snd].
  - rewrite Z.add_0_r, Z.pow_0_r, Z.div_1_r. tauto.
  - rewrite iter_pos_nat.
    destruct (iter_shr_1 (Pos.to_nat p) mrs Hm) as [E X].
    rewrite positive_nat_Z in E, X. tauto.
Qed.

Lemma shr_record_of_loc_m (m : Z) (l : location) : shr_m (shr_record_of_loc m l) = m.
Proof. destruct l as [|[| |]]; reflexivity. Qed.

Lemma loc_of_shr_record_of_loc (m : Z) (l : location) :
  loc_of_shr_record (shr_record_of_loc m l) = l.
Proof. destruct l as [|[| |]]; reflexivity. Qed.

Lemma loc_of_exact (mrs : shr_record) :
  shr_r mrs = false -> shr_s mrs = false -> loc_of_shr_record mrs = loc_Exact.
Proof. destruct mrs as [m r s]. cbn. now intros -> ->. Qed.

Lemma rne_bounds (m : Z) (l : location) :
  m <= round_nearest_even m l <= m + 1.
Proof. destruct l as [|[| |]]; cbn; try destruct (Z.even m); lia. Qed.

Lemma up_bounds (m : Z) (l : location) : m <= up m l <= m + 1.
Proof. destruct l; cbn; lia. Qed.

(** The first two steps of [binary_round_aux] on a mantissa that is wide
    enough for its exponent: shift to the exponent [t] of the format, then
    round to nearest even. *)
Lemma shift_round (m e : Z) (l : location) :
  0 <= m ->
  let t := fexp prec emax (Zdigits2 m + e) in
  e <= t ->
  let mrs := fst (shr_fexp prec emax m e l) in
  let m1 := round_nearest_even (shr_m mrs) (loc_of_shr_record mrs) in
  snd (shr_fexp prec emax m e l) = t
  /\ m / 2 ^ (t - e) <= m1 <= m / 2 ^ (t - e) + 1
  /\ (l = loc_Exact -> m mod 2 ^ (t - e) = 0 -> m1 = m / 2 ^ (t - e))
  /\ m1 <= 2 ^ 53.
Proof.
  intros Hm t Ht mrs m1. subst mrs m1. unfold shr_fexp. fold t.
  destruct (shr_spec (shr_record_of_loc m l) e (t - e)) as (E1 & E2 & E3).
  { now rewrite shr_record_of_loc_m. }
  { lia. }
  rewrite shr_record_of_loc_m in E2, E3.
  set (mrs := fst (shr (shr_record_of_loc m l) e (t - e))) in *.
  split; [rewrite E1; lia|].
  pose proof (rne_bounds (shr_m mrs) (loc_of_shr_record mrs)) as Hb.
  rewrite E2 in Hb. split; [rewrite E2; exact Hb|].
  split.
  - intros -> Hmod. destruct (E3 eq_refl eq_refl Hmod) as [Er Es].
    rewrite (loc_of_exact mrs Er Es). cbn. exact E2.
  - rewrite E2. assert (m / 2 ^ (t - e) < 2 ^ 53); [|lia].
    destruct (Z.eq_dec m 0) as [->|Hn];
      [rewrite Z.div_0_l; [reflexivity | pose proof (Z.pow_pos_nonneg 2 (t - e)); lia]|].
    destruct (Zdigits2_bounds m ltac:(lia)) as [_ Hhi].
    apply Z.div_lt_upper_bound; [apply Z.pow_pos_nonneg; lia|].
    rewrite <- Z.pow_add_r by lia.
    eapply Z.lt_le_trans; [exact Hhi|]. apply Z.pow_le_mono_r; [lia|].
    subst t. rewrite fexp64 in *. lia.
Qed.

Lemma shr_nonpos (mrs : shr_record) (e n : Z) : n <= 0 -> shr mrs e n = (mrs, e).
Proof. destruct n; try reflexivity. lia. Qed.

(** The third step: after rounding, a mantissa of 54 bits is shifted once
    more. *)
Lemma renormalize (m1 t : Z) :
  0 <= m1 <= 2 ^ 53 -> -1074 <= t ->
  let r := shr_fexp prec emax m1 t loc_Exact in
  0 <= shr_m (fst r) <= m1
  /\ (m1 < 2 ^ 53 -> shr_m (fst r) = m1 /\ snd r = t)
  /\ t <= snd r <= t + 1
  /\ (snd r = t + 1 -> shr_m (fst r) <= 2 ^ 52).
Proof.
  intros [H0 H1] Ht r. subst r. unfold shr_fexp.
  set (k := fexp prec emax (Zdigits2 m1 + t) - t).
  assert (Hd : Zdigits2 m1 <= 54).
  { apply Zdigits2_le; [lia | lia |].
    change (2 ^ 54) with (2 * 2 ^ 53). lia. }
  assert (Hk : k <= 1) by (subst k; rewrite fexp64; lia).
  destruct (Z_le_gt_dec k 0) as [Hk0|Hk0].
  - rewrite (shr_nonpos _ _ _ Hk0). cbn [fst snd shr_record_of_loc shr_m].
    repeat split; lia.
  - assert (k = 1) by lia.
    destruct (shr_spec (shr_record_of_loc m1 loc_Exact) t k) as (E1 & E2 & _).
    { cbn. lia. }
    { lia. }
    rewrite E1, E2, H. cbn [shr_record_of_loc shr_m].
    change (2 ^ 1) with 2.
    assert (m1 / 2 <= 2 ^ 52).
    { apply Z.div_le_upper_bound; [lia|]. change (2 * 2 ^ 52) with (2 ^ 53). lia. }
    assert (0 <= m1 / 2) by (apply Z.div_pos; lia).
    assert (m1 / 2 <= m1) by (apply Z.div_le_upper_bound; lia).
    split; [lia|]. split; [|lia].
    intros Hlt. exfalso.
    assert (Zdigits2 m1 <= 53) by (apply Zdigits2_le; lia).
    subst k. rewrite fexp64 in *. lia.
Qed.

Lemma bra_unfold (s : bool) (m e : Z) (l : location) :
  binary_round_aux prec emax s m e l
  = let p1 := shr_fexp prec emax m e l in
    let m1 := round_nearest_even (shr_m (fst p1)) (loc_of_shr_record (fst p1)) in
    let p2 := shr_fexp prec emax m1 (snd p1) loc_Exact in
    match shr_m (fst p2) with
    | Z0 => S754_zero s
    | Zpos m' =>
        if snd p2 <=? emax - prec then S754_finite s m' (snd p2) else S754_infinity s
    | Zneg _ => S754_nan
    end.
Proof.
  unfold binary_round_aux.
  destruct (shr_fexp prec emax m e l) as [mrs' e']. cbn [fst snd].
  destruct (shr_fexp prec emax _ e' loc_Exact) as [mrs'' e'']. reflexivity.
Qed.

(** ** Rounding stays below a bound that is a binary64 number

    If the located value is at most the finite number [mB * 2^eB] of the
    format, so is the result of [binary_round_aux]. *)
Theorem binary_round_aux_le (m e : Z) (l : location) (mB : positive) (eB : Z) :
  0 <= m ->
  e <= fexp prec emax (Zdigits2 m + e) ->
  SpecFloat.bounded prec emax mB eB = true ->
  (mval (up m l) e <= mval (Zpos mB) eB)%R ->
  nonneg_finite (binary_round_aux prec emax false m e l)
  /\ SFleb (binary_round_aux prec emax false m e l) (S754_finite false mB eB) = true.
Proof.
  intros Hm Hwide HB Hval.
  apply andb_prop in HB as [Hcan Hmax].
  unfold SpecFloat.canonical_mantissa in Hcan. apply Z.eqb_eq in Hcan. apply Z.leb_le in Hmax.
  change (emax - prec) with 971 in Hmax.
  set (t := fexp prec emax (Zdigits2 m + e)) in *.
  destruct (shift_round m e l Hm Hwide) as (E1 & Hm1 & Hexact & Hm1max).
  fold t in E1, Hm1, Hexact.
  rewrite bra_unfold. cbv zeta. rewrite E1.
  set (m1 := round_nearest_even _ _) in *.
  assert (Ht : -1074 <= t) by (subst t; rewrite fexp64; lia).
  assert (Hpk : 0 < 2 ^ (t - e)) by (apply Z.pow_pos_nonneg; lia).
  assert (Hm10 : 0 <= m1).
  { assert (0 <= m / 2 ^ (t - e)) by (apply Z.div_pos; lia). lia. }
  destruct (renormalize m1 t (conj Hm10 Hm1max) Ht) as (R1 & R2 & R3 & R4).
  set (p2 := shr_fexp prec emax m1 t loc_Exact) in *.
  change (emax - prec) with 971.
  destruct (shr_m (fst p2)) as [|m2|m2] eqn:Em2; [| |lia].
  { split; [now left | reflexivity]. }
  (* the result is not zero *)
  assert (Hup : 0 < up m l).
  { pose proof (up_bounds m l).
    destruct (Z.eq_dec (up m l) 0) as [E0|]; [exfalso|lia].
    assert (m = 0) by lia. subst m.
    assert (l = loc_Exact) by (destruct l; [reflexivity | cbn in E0; lia]). subst l.
    rewrite Z.div_0_l in Hm1, Hexact by lia.
    rewrite Z.mod_0_l in Hexact by lia.
    specialize (Hexact eq_refl eq_refl). lia. }
  pose proof (mval_digits _ _ _ _ Hup Hval) as Hdig.
  assert (Hdm : Zdigits2 m <= Zdigits2 (up m l)).
  { apply Zdigits2_mono. pose proof (up_bounds m l). lia. }
  assert (HtB : t <= eB).
  { rewrite <- Hcan. apply fexp64_mono. cbn [Zdigits2] in Hdig. lia. }
  destruct (Z.eq_dec t eB) as [Hteq|Ne].
  - (* same exponent: the rounded mantissa is at most mB *)
    assert (Hscale : up m l <= Zpos mB * 2 ^ (t - e)).
    { rewrite Hteq. apply mval_le_scale; [lia | exact Hval]. }
    assert (Hle : m1 <= Zpos mB).
    { destruct (Z_lt_le_dec (m / 2 ^ (t - e)) (Zpos mB)) as [Hlt|Hge]; [lia|].
      assert (Hmge : Zpos mB * 2 ^ (t - e) <= m).
      { pose proof (Z.mul_div_le m (2 ^ (t - e)) Hpk). nia. }
      pose proof (up_bounds m l) as Hub.
      assert (Eup : up m l = m) by lia.
      assert (El : l = loc_Exact) by (destruct l; [reflexivity | cbn in Eup; lia]).
      assert (Em : m = Zpos mB * 2 ^ (t - e)) by lia.
      rewrite Hexact; [rewrite Em, Z.div_mul by lia; lia | exact El |].
      rewrite Em. apply Z.mod_mul. lia. }
    assert (HmB : Zpos mB < 2 ^ 53).
    { destruct (digits2_pos_bounds mB) as [_ Hhi].
      eapply Z.lt_le_trans; [exact Hhi|]. apply Z.pow_le_mono_r; [lia|].
      rewrite fexp64 in Hcan. lia. }
    destruct (R2 ltac:(lia)) as [Em1 Ee]. rewrite Ee.
    replace (t <=? 971) with true by (symmetry; apply Z.leb_le; lia).
    split; [right; eauto|].
    unfold SFleb. cbn [SFcompare]. rewrite Hteq, Z.compare_refl.
    change (Pos.compare_cont Eq m2 mB) with (m2 ?= mB)%positive.
    destruct (Pos.compare_spec m2 mB); try reflexivity. lia.
  - (* smaller exponent *)
    replace (snd p2 <=? 971) with true by (symmetry; apply Z.leb_le; lia).
    split; [right; eauto|].
    unfold SFleb. cbn [SFcompare].
    destruct (Z.compare_spec (snd p2) eB) as [Ee|Hlt|Hgt]; try reflexivity; [|lia].
    assert (HmB : 2 ^ 52 <= Zpos mB).
    { destruct (digits2_pos_bounds mB) as [Hlo _].
      eapply Z.le_trans; [|exact Hlo]. apply Z.pow_le_mono_r; [lia|].
      rewrite fexp64 in Hcan. lia. }
    specialize (R4 ltac:(lia)).
    change (Pos.compare_cont Eq m2 mB) with (m2 ?= mB)%positive.
    destruct (Pos.compare_spec m2 mB); try reflexivity. lia.
Qed.

(** *** Values of non-negative binary64 numbers *)

Lemma mval_pos (m : positive) (e : Z) : (0 < mval (Zpos m) e)%R.
Proof.
  unfold mval. pose proof (pow2_pos e).
  assert (0 < IZR (Zpos m))%R by (apply IZR_lt; lia). nra.
Qed.

Lemma SFval_nonneg (x : spec_float) : nonneg_finite x -> (0 <= SFval x)%R.
Proof.
  intros [->|(m & e & ->)]; cbn [SFval]; [lra|].
  pose proof (mval_pos m e). lra.
Qed.

Lemma bounded_canonical (m : positive) (e : Z) :
  SpecFloat.bounded prec emax m e = true ->
  fexp prec emax (Zpos (digits2_pos m) + e) = e /\ e <= 971.
Proof.
  intros H. apply andb_prop in H as [Hc Hm].
  apply Z.eqb_eq in Hc. apply Z.leb_le in Hm. split; assumption.
Qed.

Lemma mval_lt_pow2 (m : positive) (e : Z) :
  (mval (Zpos m) e < pow2 (Zpos (digits2_pos m) + e))%R.
Proof.
  unfold mval. rewrite pow2_add. destruct (digits2_pos_bounds m) as [_ H].
  apply IZR_lt in H. rewrite <- pow2_IZR in H by lia.
  pose proof (pow2_pos e). nra.
Qed.

Lemma mval_ge_pow2 (m : positive) (e : Z) :
  (pow2 (Zpos (digits2_pos m) - 1 + e) <= mval (Zpos m) e)%R.
Proof.
  unfold mval. rewrite pow2_add. destruct (digits2_pos_bounds m) as [H _].
  apply IZR_le in H. rewrite <- pow2_IZR in H by lia.
  pose proof (pow2_pos e). nra.
Qed.

(** Among canonical numbers the one with the smaller exponent is smaller. *)
Lemma canonical_lt (m1 m2 : positive) (e1 e2 : Z) :
  SpecFloat.bounded prec emax m1 e1 = true ->
  SpecFloat.bounded prec emax m2 e2 = true ->
  e1 < e2 -> (mval (Zpos m1) e1 < mval (Zpos m2) e2)%R.
Proof.
  intros H1 H2 He.
  apply bounded_canonical in H1 as [C1 _]. apply bounded_canonical in H2 as [C2 _].
  rewrite fexp64 in C1, C2.
  pose proof (mval_lt_pow2 m1 e1). pose proof (mval_ge_pow2 m2 e2).
  assert (pow2 (Zpos (digits2_pos m1) + e1) <= pow2 (Zpos (digits2_pos m2) - 1 + e2))%R
    by (apply pow2_le; lia).
  lra.
Qed.

Lemma mval_same_exp (a b e : Z) : (mval a e <= mval b e)%R <-> a <= b.
Proof.
  unfold mval. pose proof (pow2_pos e). split.
  - intros H'. apply le_IZR. nra.
  - intros H'. apply IZR_le in H'. nra.
Qed.

(** On canonical non-negative numbers [SFleb] is the order of the values. *)
Lemma SFleb_val (x y : spec_float) :
  valid_binary x = true -> valid_binary y = true ->
  nonneg_finite x -> nonneg_finite y ->
  (SFleb x y = true <-> (SFval x <= SFval y)%R).
Proof.
  intros Vx Vy [->|(mx & ex & ->)] [->|(my & ey & ->)];
    cbn [SFval valid_binary] in *; unfold SFleb; cbn [SFcompare].
  - split; [lra | reflexivity].
  - pose proof (mval_pos my ey). split; [lra | reflexivity].
  - pose proof (mval_pos mx ex). split; [discriminate | lra].
  - change (Pos.compare_cont Eq mx my) with (mx ?= my)%positive.
    destruct (Z.compare_spec ex ey) as [->|Hlt|Hgt].
    + rewrite mval_same_exp.
      destruct (Pos.compare_spec mx my); split; try reflexivity; try lia;
        try discriminate.
    + pose proof (canonical_lt _ _ _ _ Vx Vy Hlt). split; [lra | reflexivity].
    + pose proof (canonical_lt _ _ _ _ Vy Vx Hgt). split; [discriminate | lra].
Qed.

(** *** Multiplication *)

Lemma Zdigits2_mul (a b : Z) :
  0 < a -> 0 < b -> Zdigits2 a + Zdigits2 b - 1 <= Zdigits2 (a * b).
Proof.
  intros Ha Hb.
  destruct (Zdigits2_bounds a Ha) as [La _]. destruct (Zdigits2_bounds b Hb) as [Lb _].
  assert (Da : 1 <= Zdigits2 a) by (destruct a; simpl; lia).
  assert (Db : 1 <= Zdigits2 b) by (destruct b; simpl; lia).
  assert (Zdigits2 a + Zdigits2 b - 2 < Zdigits2 (a * b)); [|lia].
  apply Zdigits2_gt; [lia|].
  replace (Zdigits2 a + Zdigits2 b - 2) with ((Zdigits2 a - 1) + (Zdigits2 b - 1)) by lia.
  rewrite Z.pow_add_r by lia.
  pose proof (Z.pow_pos_nonneg 2 (Zdigits2 a - 1)).
  pose proof (Z.pow_pos_nonneg 2 (Zdigits2 b - 1)). nia.
Qed.

Lemma mval_mul (a b ea eb : Z) : mval (a * b) (ea + eb) = (mval a ea * mval b eb)%R.
Proof. unfold mval. rewrite mult_IZR, pow2_add. ring. Qed.

Theorem SFmul_le (x y : spec_float) (mB : positive) (eB : Z) :
  valid_binary x = true -> valid_binary y = true ->
  nonneg_finite x -> nonneg_finite y ->
  SpecFloat.bounded prec emax mB eB = true ->
  (SFval x * SFval y <= mval (Zpos mB) eB)%R ->
  nonneg_finite (SF64mul x y)
  /\ SFleb (SF64mul x y) (S754_finite false mB eB) = true.
Proof.
  intros Vx Vy [->|(mx & ex & ->)] [->|(my & ey & ->)] HB Hval;
    unfold SF64mul; cbn [SFmul xorb];
    try (split; [now left | reflexivity]).
  cbn [SFval valid_binary] in *.
  apply binary_round_aux_le; [lia | | exact HB |].
  - apply bounded_canonical in Vx as [Cx _]. apply bounded_canonical in Vy as [Cy _].
    pose proof (Zdigits2_mul (Zpos mx) (Zpos my) ltac:(lia) ltac:(lia)) as Hd.
    cbn [Zdigits2] in Hd. change (Zpos mx * Zpos my) with (Zpos (mx * my)) in Hd.
    cbn [Zdigits2] in Hd.
    rewrite fexp64 in *. cbn [Zdigits2]. lia.
  - cbn [up]. rewrite Pos2Z.inj_mul, mval_mul. exact Hval.
Qed.

(** *** Addition *)

Lemma iter_xO (p d : positive) : Zpos (Pos.iter xO p d) = Zpos p * 2 ^ Zpos d.
Proof.
  induction d as [|d IH] using Pos.peano_ind.
  - cbn [Pos.iter]. rewrite Pos2Z.inj_xO. change (2 ^ 1) with 2. ring.
  - rewrite Pos.iter_succ, Pos2Z.inj_xO, IH, Pos2Z.inj_succ, Z.pow_succ_r by lia.
    ring.
Qed.

Lemma shl_align_spec (mx : positive) (ex ex' : Z) :
  snd (shl_align mx ex ex') = Z.min ex ex'
  /\ Zpos (fst (shl_align mx ex ex')) = Zpos mx * 2 ^ (ex - Z.min ex ex').
Proof.
  unfold shl_align. destruct (ex' - ex) as [|d|d] eqn:E; cbn [fst snd].
  - replace (Z.min ex ex') with ex by lia. rewrite Z.sub_diag. simpl. lia.
  - replace (Z.min ex ex') with ex by lia. rewrite Z.sub_diag. simpl. lia.
  - replace (Z.min ex ex') with ex' by lia. split; [reflexivity|].
    rewrite iter_xO. f_equal. f_equal. lia.
Qed.

Lemma mval_shift (m e k : Z) : 0 <= k -> mval (m * 2 ^ k) (e - k) = mval m e.
Proof.
  intros Hk. unfold mval. rewrite mult_IZR, <- pow2_IZR by exact Hk.
  replace e with ((e - k) + k) at 2 by lia. rewrite pow2_add. ring.
Qed.

Lemma Zdigits2_shift (m k : Z) :
  0 < m -> 0 <= k -> Zdigits2 (m * 2 ^ k) = Zdigits2 m + k.
Proof.
  intros Hm Hk. destruct (Zdigits2_bounds m Hm) as [Lo Hi].
  assert (D : 1 <= Zdigits2 m) by (destruct m; simpl; lia).
  pose proof (Z.pow_pos_nonneg 2 k ltac:(lia) Hk) as Pk.
  apply Z.le_antisymm.
  - apply Zdigits2_le; [nia | lia |]. rewrite Z.pow_add_r by lia. nia.
  - assert (Zdigits2 m - 1 + k < Zdigits2 (m * 2 ^ k)); [|lia].
    apply Zdigits2_gt; [lia|]. rewrite Z.pow_add_r by lia. nia.
Qed.

Theorem binary_round_le (M mB : positive) (e eB : Z) :
  SpecFloat.bounded prec emax mB eB = true ->
  (mval (Zpos M) e <= mval (Zpos mB) eB)%R ->
  nonneg_finite (binary_round prec emax false M e)
  /\ SFleb (binary_round prec emax false M e) (S754_finite false mB eB) = true.
Proof.
  intros HB Hval. unfold binary_round.
  set (t := fexp prec emax (Zpos (digits2_pos M) + e)).
  destruct (shl_align_spec M e t) as [Es Em].
  destruct (shl_align M e t) as [mz ez]. cbn [fst snd] in Es, Em.
  rewrite <- Es in Em.
  assert (Hk : 0 <= e - ez) by lia.
  assert (Hv : mval (Zpos mz) ez = mval (Zpos M) e).
  { rewrite Em, <- (mval_shift (Zpos M) e (e - ez) Hk). f_equal. lia. }
  apply binary_round_aux_le; [lia | | exact HB | cbn [up]; now rewrite Hv].
  rewrite Em, Zdigits2_shift by lia. cbn [Zdigits2].
  replace (Zpos (digits2_pos M) + (e - ez) + ez) with (Zpos (digits2_pos M) + e) by lia.
  fold t. lia.
Qed.

Theorem SFadd_le (x y : spec_float) (mB : positive) (eB : Z) :
  valid_binary x = true -> valid_binary y = true ->
  nonneg_finite x -> nonneg_finite y ->
  SpecFloat.bounded prec emax mB eB = true ->
  (SFval x + SFval y <= mval (Zpos mB) eB)%R ->
  nonneg_finite (SF64add x y)
  /\ SFleb (SF64add x y) (S754_finite false mB eB) = true.
Proof.
  intros Vx Vy Nx Ny HB Hval.
  assert (NB : nonneg_finite (S754_finite false mB eB)) by (right; eauto).
  destruct Nx as [->|(mx & ex & ->)], Ny as [->|(my & ey & ->)];
    unfold SF64add; cbn [SFadd].
  - split; [now left | reflexivity].
  - split; [right; eauto|]. apply SFleb_val; [exact Vy | exact HB | right; eauto | exact NB |].
    cbn [SFval] in *. lra.
  - split; [right; eauto|]. apply SFleb_val; [exact Vx | exact HB | right; eauto | exact NB |].
    cbn [SFval] in *. lra.
  - cbn [cond_Zopp SFval] in *.
    destruct (shl_align_spec mx ex (Z.min ex ey)) as [Ex Emx].
    destruct (shl_align_spec my ey (Z.min ex ey)) as [Ey Emy].
    set (a := fst (shl_align mx ex (Z.min ex ey))) in *.
    set (b := fst (shl_align my ey (Z.min ex ey))) in *.
    change (Zpos a + Zpos b) with (Zpos (a + b)). cbn [binary_normalize].
    apply binary_round_le; [exact HB|].
    rewrite Pos2Z.inj_add. unfold mval in *. rewrite plus_IZR, Emx, Emy.
    replace (Z.min ex (Z.min ex ey)) with (Z.min ex ey) by lia.
    replace (Z.min ey (Z.min ex ey)) with (Z.min ex ey) by lia.
    rewrite !mult_IZR, <- !pow2_IZR by lia.
    replace (pow2 ex) with (pow2 (ex - Z.min ex ey) * pow2 (Z.min ex ey))%R in Hval
      by (rewrite <- pow2_add; f_equal; lia).
    replace (pow2 ey) with (pow2 (ey - Z.min ex ey) * pow2 (Z.min ex ey))%R in Hval
      by (rewrite <- pow2_add; f_equal; lia).
    lra.
Qed.

(** *** Division *)

Lemma up_new_location (q n r : Z) :
  up q (new_location n r) = if r =? 0 then q else q + 1.
Proof.
  unfold new_location, new_location_even, new_location_odd.
  destruct (Z.even n), (r =? 0); reflexivity.
Qed.

Lemma mval_one : mval (Zpos (2 ^ 52)) (-52) = 1%R.
Proof.
  unfold mval. change (Zpos (2 ^ 52)) with (2 ^ 52). rewrite <- pow2_IZR by lia.
  rewrite <- pow2_add. reflexivity.
Qed.

(** The quotient of two positive numbers, the first at most the second, is
    at most 1. *)
Theorem SFdiv_le_one (x : spec_float) (my : positive) (ey : Z) :
  valid_binary x = true ->
  nonneg_finite x ->
  (SFval x <= mval (Zpos my) ey)%R ->
  nonneg_finite (SF64div x (S754_finite false my ey))
  /\ SFleb (SF64div x (S754_finite false my ey)) (S754_finite false (2 ^ 52) (-52)) = true.
Proof.
  intros Vx [->|(mx & ex & ->)] Hval; unfold SF64div; cbn [SFdiv xorb].
  { split; [now left | reflexivity]. }
  cbn [SFval] in Hval.
  pose proof (mval_digits (Zpos mx) (Zpos my) ex ey ltac:(lia) Hval) as Hmag.
  unfold SFdiv_core_binary.
  set (d1 := Zdigits2 (Zpos mx)) in *. set (d2 := Zdigits2 (Zpos my)) in *.
  set (e' := Z.min (fexp prec emax (d1 + ex - (d2 + ey))) (ex - ey)).
  set (s := ex - ey - e').
  assert (Hs : 0 <= s) by (subst s e'; lia).
  assert (He' : e' <= -53) by (subst e'; rewrite fexp64; lia).
  set (m' := match s with Zpos _ => Z.shiftl (Zpos mx) s | Z0 => Zpos mx | Zneg _ => 0 end).
  assert (Em' : m' = Zpos mx * 2 ^ s).
  { subst m'. destruct s as [|p|p] eqn:Es; [simpl; lia | | lia].
    apply Z.shiftl_mul_pow2. lia. }
  pose proof (Z.pow_pos_nonneg 2 s ltac:(lia) Hs) as Ps.
  pose proof (Z_div_mod m' (Zpos my) ltac:(lia)) as Hdm.
  destruct (Z.div_eucl m' (Zpos my)) as [q r]. destruct Hdm as [Eq' Hr].
  assert (Hq : 0 <= q) by nia.
  apply binary_round_aux_le; [exact Hq | | reflexivity |].
  - (* the quotient has enough digits *)
    assert (Hd : d1 - d2 + s <= Zdigits2 q).
    { pose proof (Zdigits2_nonneg q).
      destruct (Z_le_gt_dec (d1 - d2 + s) 0) as [|Hpos]; [lia|].
      assert (d1 - d2 + s - 1 < Zdigits2 q); [|lia].
      apply Zdigits2_gt; [lia|].
      destruct (Zdigits2_bounds (Zpos mx) ltac:(lia)) as [Lx _].
      destruct (Zdigits2_bounds (Zpos my) ltac:(lia)) as [_ Uy].
      fold d1 in Lx. fold d2 in Uy.
      assert (D1 : 1 <= d1) by (subst d1; simpl; lia).
      assert (D2 : 1 <= d2) by (subst d2; simpl; lia).
      (* 2^(d1-d2+s-1) * my < 2^(d1+s-1) <= m' *)
      assert (H1 : 2 ^ (d1 - d2 + s - 1) * 2 ^ d2 = 2 ^ (d1 - 1) * 2 ^ s).
      { rewrite <- !Z.pow_add_r by lia. f_equal. lia. }
      pose proof (Z.pow_pos_nonneg 2 (d1 - d2 + s - 1) ltac:(lia) ltac:(lia)).
      assert (H2 : 2 ^ (d1 - d2 + s - 1) * Zpos my < m') by nia.
      destruct (Z_le_gt_dec (2 ^ (d1 - d2 + s - 1)) q) as [|Hlt]; [assumption|].
      exfalso. nia. }
    eapply Z.le_trans; [apply Z.le_min_l | apply fexp64_mono].
    lia.
  - (* the located quotient is at most 1 *)
    rewrite up_new_location, mval_one.
    assert (Hx : (IZR m' * pow2 e' <= IZR (Zpos my))%R).
    { unfold mval in Hval. rewrite Em', mult_IZR, <- pow2_IZR by lia.
      replace (pow2 ex) with (pow2 s * pow2 e' * pow2 ey)%R in Hval
        by (rewrite <- !pow2_add; f_equal; lia).
      pose proof (pow2_pos ey). pose proof (pow2_pos s). pose proof (pow2_pos e').
      assert (0 < IZR (Zpos mx))%R by (apply IZR_lt; lia).
      assert (0 < IZR (Zpos my))%R by (apply IZR_lt; lia).
      apply Rmult_le_reg_r with (pow2 ey); [assumption|]. lra. }
    assert (Hn : (pow2 e' * IZR (2 ^ (- e')) = 1)%R).
    { rewrite <- pow2_IZR by lia. rewrite <- pow2_add.
      replace (e' + - e') with 0 by lia. reflexivity. }
    assert (HZ : m' <= Zpos my * 2 ^ (- e')).
    { apply le_IZR. rewrite mult_IZR.
      pose proof (pow2_pos e').
      assert (0 < IZR (2 ^ (- e')))%R
        by (apply IZR_lt, Z.pow_pos_nonneg; lia).
      apply Rmult_le_reg_r with (pow2 e'); [assumption|].
      replace (IZR (Zpos my) * IZR (2 ^ (- e')) * pow2 e')%R
        with (IZR (Zpos my) * (pow2 e' * IZR (2 ^ (- e'))))%R by ring.
      rewrite Hn. lra. }
    assert (Hup : (if r =? 0 then q else q + 1) <= 2 ^ (- e')).
    { pose proof (Z.pow_pos_nonneg 2 (- e') ltac:(lia) ltac:(lia)).
      destruct (Z.eqb_spec r 0); nia. }
    unfold mval. apply IZR_le in Hup.
    pose proof (pow2_pos e').
    apply Rle_trans with (IZR (2 ^ (- e')) * pow2 e')%R; [nra|].
    rewrite Rmult_comm, Hn. lra.
Qed.

(** *** Conversion of integers below 2^53 is exact *)

Lemma binary_round_aux_canonical (s : bool) (m : positive) (e : Z) :
  SpecFloat.bounded prec emax m e = true ->
  binary_round_aux prec emax s (Zpos m) e loc_Exact = S754_finite s m e.
Proof.
  intros HB. destruct (bounded_canonical m e HB) as [Hc He].
  assert (E : shr_fexp prec emax (Zpos m) e loc_Exact
              = (shr_record_of_loc (Zpos m) loc_Exact, e)).
  { unfold shr_fexp. cbn [Zdigits2]. rewrite Hc. apply shr_nonpos. lia. }
  rewrite bra_unfold. cbv zeta. rewrite E. cbn [fst snd shr_record_of_loc shr_m].
  change (round_nearest_even (Zpos m) (loc_of_shr_record (Build_shr_record (Zpos m) false false)))
    with (Zpos m).
  rewrite E. cbn [fst snd shr_record_of_loc shr_m].
  change (emax - prec) with 971.
  now replace (e <=? 971) with true by (symmetry; apply Z.leb_le; lia).
Qed.

Lemma binary_normalize_int (k : Z) :
  0 < k < 2 ^ 53 ->
  exists m e,
    binary_normalize prec emax k 0 false = S754_finite false m e
    /\ mval (Zpos m) e = IZR k.
Proof.
  intros [H0 H1]. destruct k as [|p|p]; try lia. cbn [binary_normalize].
  unfold binary_round.
  assert (Hd : Zpos (digits2_pos p) <= 53).
  { apply (Zdigits2_le (Zpos p)); lia. }
  set (t := fexp prec emax (Zpos (digits2_pos p) + 0)).
  assert (Et : t = Zpos (digits2_pos p) - 53).
  { subst t. rewrite fexp64. lia. }
  destruct (shl_align_spec p 0 t) as [Es Em].
  destruct (shl_align p 0 t) as [mz ez]. cbn [fst snd] in Es, Em.
  replace (Z.min 0 t) with t in Es, Em by lia. subst ez.
  assert (Hdz : Zpos (digits2_pos mz) = 53).
  { change (Zpos (digits2_pos mz)) with (Zdigits2 (Zpos mz)).
    rewrite Em, Zdigits2_shift by lia. cbn [Zdigits2]. lia. }
  assert (HB : SpecFloat.bounded prec emax mz t = true).
  { unfold SpecFloat.bounded, SpecFloat.canonical_mantissa. apply andb_true_intro. split.
    - apply Z.eqb_eq. rewrite Hdz, fexp64. lia.
    - apply Z.leb_le. change (emax - prec) with 971. lia. }
  exists mz, t. split; [now apply binary_round_aux_canonical|].
  rewrite Em. replace t with (0 - (0 - t)) at 2 by lia.
  rewrite mval_shift by lia. unfold mval, pow2. simpl. lra.
Qed.

(** ** Rounding is monotone

    The rounded mantissa is described arithmetically, by the quotient and
    the remainder of the division by [2^k]; from there rounding to nearest
    even is monotone in the value. *)

Lemma rne_div_bounds (m k : Z) : m / 2 ^ k <= rne_div m k <= m / 2 ^ k + 1.
Proof.
  unfold rne_div. destruct (2 * (m mod 2 ^ k) ?= 2 ^ k); try lia.
  destruct (Z.even (m / 2 ^ k)); lia.
Qed.

Lemma rne_div_mono (a b k : Z) :
  0 <= k -> 0 <= a <= b -> rne_div a k <= rne_div b k.
Proof.
  intros Hk [Ha Hab].
  pose proof (Z.pow_pos_nonneg 2 k ltac:(lia) Hk) as P.
  assert (Hq : a / 2 ^ k <= b / 2 ^ k) by (apply Z.div_le_mono; lia).
  destruct (Z.eq_dec (a / 2 ^ k) (b / 2 ^ k)) as [E|N].
  - pose proof (Z.div_mod a (2 ^ k) ltac:(lia)) as Da.
    pose proof (Z.div_mod b (2 ^ k) ltac:(lia)) as Db.
    assert (Hr : a mod 2 ^ k <= b mod 2 ^ k) by nia.
    unfold rne_div. rewrite <- E.
    destruct (Z.compare_spec (2 * (a mod 2 ^ k)) (2 ^ k)),
             (Z.compare_spec (2 * (b mod 2 ^ k)) (2 ^ k));
      destruct (Z.even (a / 2 ^ k)); lia.
  - pose proof (rne_div_bounds a k). pose proof (rne_div_bounds b k). lia.
Qed.

Lemma rne_div_scale (m k j : Z) :
  0 <= k -> 0 <= j -> rne_div (m * 2 ^ j) (k + j) = rne_div m k.
Proof.
  intros Hk Hj. unfold rne_div.
  pose proof (Z.pow_pos_nonneg 2 k ltac:(lia) Hk) as Pk.
  pose proof (Z.pow_pos_nonneg 2 j ltac:(lia) Hj) as Pj.
  rewrite Z.pow_add_r by lia.
  rewrite Z.div_mul_cancel_r by lia.
  rewrite Z.mul_mod_distr_r by lia.
  replace (2 * (m mod 2 ^ k * 2 ^ j)) with (2 * (m mod 2 ^ k) * 2 ^ j) by ring.
  rewrite <- Zmult_compare_compat_r by lia. reflexivity.
Qed.

Lemma shr_1_r (mrs : shr_record) :
  0 <= shr_m mrs -> shr_r (shr_1 mrs) = Z.odd (shr_m mrs).
Proof.
  destruct mrs as [m r s]. cbn [shr_m]. intros Hm.
  destruct m as [|[p|p|]|p]; try lia; reflexivity.
Qed.

Lemma shr_1_s (mrs : shr_record) : shr_s (shr_1 mrs) = shr_r mrs || shr_s mrs.
Proof. destruct mrs as [m r s]. destruct m as [|[p|p|]|[p|p|]]; reflexivity. Qed.

(** After [n+1] shifts of an exactly located mantissa the round bit is bit
    [n] and the sticky bit tells whether a lower bit is set. *)
Lemma iter_shr_1_bits (n : nat) (m : Z) :
  0 <= m ->
  let mrs := Nat.iter (S n) shr_1 (Build_shr_record m false false) in
  shr_r mrs = Z.odd (m / 2 ^ Z.of_nat n)
  /\ shr_s mrs = negb (m mod 2 ^ Z.of_nat n =? 0).
Proof.
  intros Hm. induction n as [|n [IHr IHs]].
  - cbn zeta. change (Nat.iter 1 shr_1 ?x) with (shr_1 x).
    rewrite shr_1_r, shr_1_s by (cbn; lia). cbn [shr_m shr_r shr_s].
    change (2 ^ Z.of_nat 0) with 1. rewrite Z.div_1_r, Z.mod_1_r. split; reflexivity.
  - cbn zeta in *.
    change (Nat.iter (S (S n)) shr_1 ?x) with (shr_1 (Nat.iter (S n) shr_1 x)).
    destruct (iter_shr_1 (S n) (Build_shr_record m false false) Hm) as [Em _].
    cbn [shr_m] in Em.
    assert (P : 0 < 2 ^ Z.of_nat n) by (apply Z.pow_pos_nonneg; lia).
    assert (P' : 0 < 2 ^ Z.of_nat (S n)) by (apply Z.pow_pos_nonneg; lia).
    rewrite shr_1_r, shr_1_s by (rewrite Em; apply Z.div_pos; lia).
    rewrite Em, IHr, IHs. split; [reflexivity|].
    rewrite (Nat2Z.inj_succ n), Z.pow_succ_r by lia.
    rewrite (Z.mul_comm 2), Z.rem_mul_r by lia.
    pose proof (Z.mod_pos_bound m (2 ^ Z.of_nat n) P) as Bm.
    rewrite Zmod_odd.
    destruct (Z.odd (m / 2 ^ Z.of_nat n));
      destruct (Z.eqb_spec (m mod 2 ^ Z.of_nat n) 0) as [E0|N0];
      cbn [negb orb]; symmetry;
      first [ apply negb_true_iff, Z.eqb_neq; lia
            | apply negb_false_iff, Z.eqb_eq; lia ].
Qed.

Lemma rne_div_0 (m : Z) : rne_div m 0 = m.
Proof.
  unfold rne_div. change (2 ^ 0) with 1. rewrite Z.mod_1_r, Z.div_1_r. reflexivity.
Qed.

(** The shift followed by the rounding step computes [rne_div]. *)
Lemma shift_round_exact (m e k : Z) :
  0 <= m -> 0 <= k ->
  let mrs := fst (shr (shr_record_of_loc m loc_Exact) e k) in
  round_nearest_even (shr_m mrs) (loc_of_shr_record mrs) = rne_div m k.
Proof.
  intros Hm Hk. destruct k as [|p|p]; try lia.
  - cbn. now rewrite rne_div_0.
  - cbn [shr fst shr_record_of_loc]. rewrite iter_pos_nat.
    destruct (Pos2Nat.is_succ p) as [n En]. rewrite En.
    destruct (iter_shr_1 (S n) (Build_shr_record m false false) Hm) as [Em _].
    destruct (iter_shr_1_bits n m Hm) as [Er Es].
    cbn [shr_m] in Em. cbn zeta in Er, Es.
    set (mrs := Nat.iter (S n) shr_1 (Build_shr_record m false false)) in *.
    destruct mrs as [q r s]. cbn [shr_m shr_r shr_s] in *. subst q r s.
    assert (Ep : Zpos p = Z.of_nat (S n)) by (rewrite <- En; now rewrite positive_nat_Z).
    rewrite Ep. unfold rne_div.
    rewrite (Nat2Z.inj_succ n), Z.pow_succ_r by lia.
    assert (P : 0 < 2 ^ Z.of_nat n) by (apply Z.pow_pos_nonneg; lia).
    assert (Erem : m mod (2 * 2 ^ Z.of_nat n)
                   = m mod 2 ^ Z.of_nat n
                     + 2 ^ Z.of_nat n * ((m / 2 ^ Z.of_nat n) mod 2))
      by (rewrite (Z.mul_comm 2); apply Z.rem_mul_r; lia).
    rewrite Erem, Zmod_odd. clear Erem.
    pose proof (Z.mod_pos_bound m (2 ^ Z.of_nat n) P) as Bm.
    destruct (Z.odd (m / 2 ^ Z.of_nat n));
      destruct (Z.eqb_spec (m mod 2 ^ Z.of_nat n) 0) as [E0|N0];
      cbn [negb loc_of_shr_record round_nearest_even].
    + replace (2 * (m mod 2 ^ Z.of_nat n + 2 ^ Z.of_nat n * 1) ?= 2 * 2 ^ Z.of_nat n)
        with Eq by (symmetry; apply Z.compare_eq_iff; lia).
      reflexivity.
    + replace (2 * (m mod 2 ^ Z.of_nat n + 2 ^ Z.of_nat n * 1) ?= 2 * 2 ^ Z.of_nat n)
        with Gt by (symmetry; apply Z.compare_gt_iff; lia).
      reflexivity.
    + replace (2 * (m mod 2 ^ Z.of_nat n + 2 ^ Z.of_nat n * 0) ?= 2 * 2 ^ Z.of_nat n)
        with Lt by (symmetry; apply Z.compare_lt_iff; lia).
      reflexivity.
    + replace (2 * (m mod 2 ^ Z.of_nat n + 2 ^ Z.of_nat n * 0) ?= 2 * 2 ^ Z.of_nat n)
        with Lt by (symmetry; apply Z.compare_lt_iff; lia).
      reflexivity.
Qed.

Lemma binary_round_aux_form (s : bool) (m e : Z) :
  0 <= m ->
  let t := fexp prec emax (Zdigits2 m + e) in
  e <= t ->
  binary_round_aux prec emax s m e loc_Exact = finish s (rne_div m (t - e)) t.
Proof.
  intros Hm t Ht. rewrite bra_unfold. cbv zeta. unfold finish.
  assert (E2 : snd (shr_fexp prec emax m e loc_Exact) = t).
  { unfold shr_fexp. fold t.
    destruct (shr_spec (shr_record_of_loc m loc_Exact) e (t - e)) as (E & _).
    - cbn. lia.
    - lia.
    - rewrite E. lia. }
  assert (E1 : round_nearest_even (shr_m (fst (shr_fexp prec emax m e loc_Exact)))
                 (loc_of_shr_record (fst (shr_fexp prec emax m e loc_Exact)))
               = rne_div m (t - e)).
  { unfold shr_fexp. fold t. apply shift_round_exact; lia. }
  rewrite E1, E2. reflexivity.
Qed.

Lemma binary_round_form (M : positive) (e e0 : Z) :
  let t := fexp prec emax (Zpos (digits2_pos M) + e) in
  e0 <= e -> e0 <= t ->
  binary_round prec emax false M e
  = finish false (rne_div (Zpos M * 2 ^ (e - e0)) (t - e0)) t.
Proof.
  intros t He Ht. unfold binary_round. fold t.
  destruct (shl_align_spec M e t) as [Es Em].
  destruct (shl_align M e t) as [mz ez]. cbn [fst snd] in Es, Em.
  rewrite <- Es in Em.
  assert (Hmag : Zdigits2 (Zpos mz) + ez = Zpos (digits2_pos M) + e).
  { rewrite Em, Zdigits2_shift by lia. cbn [Zdigits2]. lia. }
  rewrite binary_round_aux_form; [| lia | rewrite Hmag; fold t; lia].
  rewrite Hmag. fold t. f_equal.
  rewrite Em.
  replace (Zpos M * 2 ^ (e - e0)) with (Zpos M * 2 ^ (e - ez) * 2 ^ (ez - e0)).
  - replace (t - e0) with ((t - ez) + (ez - e0)) by lia.
    symmetry. apply rne_div_scale; lia.
  - rewrite <- Z.mul_assoc, <- Z.pow_add_r by lia. do 2 f_equal. lia.
Qed.

Lemma finish_zero (s : bool) (t : Z) : -1074 <= t -> finish s 0 t = S754_zero s.
Proof.
  intros Ht. unfold finish, shr_fexp. cbn [Zdigits2].
  rewrite shr_nonpos by (rewrite fexp64; lia). reflexivity.
Qed.

Lemma finish_small (s : bool) (a : positive) (t : Z) :
  Zpos a < 2 ^ 53 -> -1074 <= t ->
  finish s (Zpos a) t
  = if t <=? 971 then S754_finite s a t else S754_infinity s.
Proof.
  intros Ha Ht. unfold finish.
  destruct (renormalize (Zpos a) t ltac:(lia) Ht) as (_ & R2 & _).
  destruct (R2 Ha) as [-> ->]. reflexivity.
Qed.

Lemma finish_carry (s : bool) (t : Z) :
  -1074 <= t ->
  finish s (2 ^ 53) t
  = if t + 1 <=? 971 then S754_finite s (2 ^ 52) (t + 1) else S754_infinity s.
Proof.
  intros Ht. unfold finish, shr_fexp.
  change (Zdigits2 (2 ^ 53)) with 54.
  replace (fexp prec emax (54 + t) - t) with 1 by (rewrite fexp64; lia).
  reflexivity.
Qed.

(** The three shapes of a rounded mantissa: zero, below [2^53], or the
    carry [2^53]. *)
Lemma mantissa_cases (a : Z) :
  0 <= a <= 2 ^ 53 ->
  a = 0 \/ (exists p, a = Zpos p /\ Zpos p < 2 ^ 53) \/ a = 2 ^ 53.
Proof.
  intros [H0 H1]. destruct a as [|p|p]; [now left | | lia].
  destruct (Z.eq_dec (Zpos p) (2 ^ 53)) as [E|N]; [now right; right|].
  right; left. exists p. split; [reflexivity | lia].
Qed.

Lemma leb_cases (b : bool) (x y : spec_float) : SFleb (if b then x else y) = if b then SFleb x else SFleb y.
Proof. now destruct b. Qed.

Lemma finish_mono_same (a b t : Z) :
  0 <= a <= b -> b <= 2 ^ 53 -> -1074 <= t ->
  SFleb (finish false a t) (finish false b t) = true.
Proof.
  intros [Ha Hab] Hb Ht.
  destruct (mantissa_cases a ltac:(lia)) as [->|[(pa & -> & La)| ->]];
    destruct (mantissa_cases b ltac:(lia)) as [->|[(pb & -> & Lb)| ->]];
    try lia;
    rewrite ?finish_zero, ?finish_small, ?finish_carry by assumption;
    unfold SFleb;
    repeat match goal with
      | |- context [?x <=? 971] => destruct (Z.leb_spec x 971)
      end;
    cbn [SFcompare]; try reflexivity; try lia.
  - rewrite Z.compare_refl.
    change (Pos.compare_cont Eq pa pb) with (pa ?= pb)%positive.
    destruct (Pos.compare_spec pa pb); try reflexivity. lia.
  - replace (t ?= t + 1) with Lt by (symmetry; apply Z.compare_lt_iff; lia).
    reflexivity.
  - rewrite Z.compare_refl. reflexivity.
Qed.

Lemma finish_mono_lt (a b t1 t2 : Z) :
  0 <= a <= 2 ^ 53 -> 2 ^ 52 <= b <= 2 ^ 53 -> -1074 <= t1 < t2 ->
  SFleb (finish false a t1) (finish false b t2) = true.
Proof.
  intros Ha Hb Ht.
  destruct (mantissa_cases a ltac:(lia)) as [->|[(pa & -> & La)| ->]];
    destruct (mantissa_cases b ltac:(lia)) as [->|[(pb & -> & Lb)| ->]];
    try lia;
    rewrite ?finish_zero, ?finish_small, ?finish_carry by lia;
    unfold SFleb;
    repeat match goal with
      | |- context [?x <=? 971] => destruct (Z.leb_spec x 971)
      end;
    cbn [SFcompare]; try reflexivity; try lia.
  - replace (t1 ?= t2) with Lt by (symmetry; apply Z.compare_lt_iff; lia).
    reflexivity.
  - replace (t1 ?= t2 + 1) with Lt by (symmetry; apply Z.compare_lt_iff; lia).
    reflexivity.
  - destruct (Z.compare_spec (t1 + 1) t2) as [E|L|G]; try reflexivity; [|lia].
    change (Pos.compare_cont Eq (2 ^ 52) pb) with (2 ^ 52 ?= pb)%positive.
    destruct (Pos.compare_spec (2 ^ 52) pb); try reflexivity. lia.
  - replace (t1 + 1 ?= t2 + 1) with Lt by (symmetry; apply Z.compare_lt_iff; lia).
    reflexivity.
Qed.

Lemma rne_div_range (N k : Z) :
  0 < N -> 0 <= k -> Zdigits2 N - 53 <= k -> 0 <= rne_div N k <= 2 ^ 53.
Proof.
  intros HN Hk Hd. pose proof (rne_div_bounds N k) as B.
  pose proof (Z.pow_pos_nonneg 2 k ltac:(lia) Hk) as P.
  assert (0 <= N / 2 ^ k) by (apply Z.div_pos; lia).
  assert (N / 2 ^ k < 2 ^ 53); [|lia].
  destruct (Zdigits2_bounds N HN) as [_ Hhi].
  apply Z.div_lt_upper_bound; [lia|].
  rewrite <- Z.pow_add_r by lia.
  eapply Z.lt_le_trans; [exact Hhi|]. apply Z.pow_le_mono_r; lia.
Qed.

Lemma rne_div_normal (N k : Z) :
  0 < N -> 0 <= k -> k = Zdigits2 N - 53 -> 2 ^ 52 <= rne_div N k.
Proof.
  intros HN Hk Ek. pose proof (rne_div_bounds N k) as B.
  pose proof (Z.pow_pos_nonneg 2 k ltac:(lia) Hk) as P.
  assert (2 ^ 52 <= N / 2 ^ k); [|lia].
  destruct (Zdigits2_bounds N HN) as [Hlo _].
  apply Z.div_le_lower_bound; [lia|].
  rewrite <- Z.pow_add_r by lia.
  replace (k + 52) with (Zdigits2 N - 1) by lia. exact Hlo.
Qed.

(** Rounding a positive value to binary64 is monotone. *)
Theorem binary_round_mono (M1 M2 : positive) (e1 e2 : Z) :
  (mval (Zpos M1) e1 <= mval (Zpos M2) e2)%R ->
  SFleb (binary_round prec emax false M1 e1) (binary_round prec emax false M2 e2) = true.
Proof.
  intros Hval.
  pose proof (mval_digits (Zpos M1) (Zpos M2) e1 e2 ltac:(lia) Hval) as Hmag.
  cbn [Zdigits2] in Hmag.
  set (t1 := fexp prec emax (Zpos (digits2_pos M1) + e1)).
  set (t2 := fexp prec emax (Zpos (digits2_pos M2) + e2)).
  assert (Ht : t1 <= t2) by (apply fexp64_mono; lia).
  assert (Ht1 : -1074 <= t1) by (subst t1; rewrite fexp64; lia).
  set (e0 := Z.min (Z.min e1 e2) t1).
  rewrite (binary_round_form M1 e1 e0), (binary_round_form M2 e2 e0);
    fold t1 t2; try (subst e0; lia).
  set (N1 := Zpos M1 * 2 ^ (e1 - e0)). set (N2 := Zpos M2 * 2 ^ (e2 - e0)).
  assert (K1 : 0 <= e1 - e0) by (subst e0; lia).
  assert (K2 : 0 <= e2 - e0) by (subst e0; lia).
  assert (HN : N1 <= N2).
  { apply (mval_same_exp N1 N2 e0). subst N1 N2.
    replace e0 with (e1 - (e1 - e0)) at 2 by lia.
    replace e0 with (e2 - (e2 - e0)) at 4 by lia.
    now rewrite !mval_shift by lia. }
  assert (P1 : 0 < N1) by (subst N1; pose proof (Z.pow_pos_nonneg 2 (e1 - e0)); nia).
  assert (P2 : 0 < N2) by lia.
  assert (D1 : Zdigits2 N1 = Zpos (digits2_pos M1) + (e1 - e0))
    by (subst N1; now rewrite Zdigits2_shift by lia).
  assert (D2 : Zdigits2 N2 = Zpos (digits2_pos M2) + (e2 - e0))
    by (subst N2; now rewrite Zdigits2_shift by lia).
  assert (R1 : 0 <= rne_div N1 (t1 - e0) <= 2 ^ 53).
  { apply rne_div_range; [exact P1 | subst e0; lia |].
    rewrite D1. subst t1. rewrite fexp64. lia. }
  assert (R2 : 0 <= rne_div N2 (t2 - e0) <= 2 ^ 53).
  { apply rne_div_range; [exact P2 | subst e0; lia |].
    rewrite D2. subst t2. rewrite fexp64. lia. }
  assert (K0 : e0 <= t1) by (subst e0; lia).
  destruct (Z.eq_dec t1 t2) as [E|N].
  - clearbody t1 t2 e0. subst t2. apply finish_mono_same; [|lia|exact Ht1].
    split; [lia|]. apply rne_div_mono; lia.
  - apply finish_mono_lt; [exact R1 | | lia].
    split; [|lia]. apply rne_div_normal; [exact P2 | lia |].
    rewrite D2. subst t2. rewrite fexp64 in *. lia.
Qed.

Lemma finish_shape (a t : Z) :
  0 <= a <= 2 ^ 53 -> -1074 <= t -> nonneg_shape (finish false a t).
Proof.
  intros Ha Ht.
  destruct (mantissa_cases a Ha) as [->|[(pa & -> & La)| ->]];
    rewrite ?finish_zero, ?finish_small, ?finish_carry by assumption.
  - left. now left.
  - destruct (t <=? 971); [left; right; eauto | now right].
  - destruct (t + 1 <=? 971); [left; right; eauto | now right].
Qed.

Lemma binary_round_shape (M : positive) (e : Z) :
  nonneg_shape (binary_round prec emax false M e).
Proof.
  set (t := fexp prec emax (Zpos (digits2_pos M) + e)).
  assert (Ht : -1074 <= t) by (subst t; rewrite fexp64; lia).
  rewrite (binary_round_form M e (Z.min e t)) by lia. fold t.
  apply finish_shape; [|exact Ht].
  assert (K : 0 <= e - Z.min e t) by lia.
  apply rne_div_range.
  - pose proof (Z.pow_pos_nonneg 2 (e - Z.min e t)). nia.
  - lia.
  - rewrite Zdigits2_shift by lia. cbn [Zdigits2]. subst t. rewrite fexp64 in *. lia.
Qed.

Lemma nonneg_shape_le (x : spec_float) (mB : positive) (eB : Z) :
  nonneg_shape x -> SFleb x (S754_finite false mB eB) = true -> nonneg_finite x.
Proof. intros [H| ->] L; [exact H | discriminate L]. Qed.

Lemma binary_round_canonical (m : positive) (e : Z) :
  SpecFloat.bounded prec emax m e = true ->
  binary_round prec emax false m e = S754_finite false m e.
Proof.
  intros HB. destruct (bounded_canonical m e HB) as [Hc _].
  unfold binary_round, shl_align. rewrite Hc, Z.sub_diag.
  now apply binary_round_aux_canonical.
Qed.

(** The sum of two non-negative numbers is [+0] when both are, and the
    rounding of the exact sum otherwise. *)
Lemma SFadd_form (x y : spec_float) :
  valid_binary x = true -> valid_binary y = true ->
  nonneg_finite x -> nonneg_finite y ->
  (SF64add x y = S754_zero false /\ x = S754_zero false /\ y = S754_zero false)
  \/ exists M E,
      SF64add x y = binary_round prec emax false M E
      /\ mval (Zpos M) E = (SFval x + SFval y)%R.
Proof.
  intros Vx Vy [->|(mx & ex & ->)] [->|(my & ey & ->)];
    unfold SF64add; cbn [SFadd SFval valid_binary] in *.
  - left. repeat split.
  - right. exists my, ey. split; [now rewrite binary_round_canonical | lra].
  - right. exists mx, ex. split; [now rewrite binary_round_canonical | lra].
  - right. cbn [cond_Zopp].
    destruct (shl_align_spec mx ex (Z.min ex ey)) as [Ex Emx].
    destruct (shl_align_spec my ey (Z.min ex ey)) as [Ey Emy].
    set (a := fst (shl_align mx ex (Z.min ex ey))) in *.
    set (b := fst (shl_align my ey (Z.min ex ey))) in *.
    change (Zpos a + Zpos b) with (Zpos (a + b)). cbn [binary_normalize].
    exists (a + b)%positive, (Z.min ex ey). split; [reflexivity|].
    rewrite Pos2Z.inj_add. unfold mval. rewrite plus_IZR, Emx, Emy.
    replace (Z.min ex (Z.min ex ey)) with (Z.min ex ey) by lia.
    replace (Z.min ey (Z.min ex ey)) with (Z.min ex ey) by lia.
    rewrite !mult_IZR, <- !pow2_IZR by lia.
    replace (pow2 ex) with (pow2 (ex - Z.min ex ey) * pow2 (Z.min ex ey))%R
      by (rewrite <- pow2_add; f_equal; lia).
    replace (pow2 ey) with (pow2 (ey - Z.min ex ey) * pow2 (Z.min ex ey))%R
      by (rewrite <- pow2_add; f_equal; lia).
    ring.
Qed.

Lemma SFleb_zero_shape (x : spec_float) :
  nonneg_shape x -> SFleb (S754_zero false) x = true.
Proof. intros [[->|(m & e & ->)]| ->]; reflexivity. Qed.

(** Addition of non-negative numbers is monotone. *)
Theorem SFadd_mono (x y X Y : spec_float) :
  valid_binary x = true -> valid_binary y = true ->
  valid_binary X = true -> valid_binary Y = true ->
  nonneg_finite x -> nonneg_finite y -> nonneg_finite X -> nonneg_finite Y ->
  (SFval x <= SFval X)%R -> (SFval y <= SFval Y)%R ->
  nonneg_shape (SF64add x y) /\ SFleb (SF64add x y) (SF64add X Y) = true.
Proof.
  intros Vx Vy VX VY Nx Ny NX NY Hx Hy.
  destruct (SFadd_form x y Vx Vy Nx Ny) as [(-> & _ & _)|(m & e & -> & Ev)].
  - split; [left; now left|].
    destruct (SFadd_form X Y VX VY NX NY) as [(-> & _ & _)|(M & E & -> & _)];
      [reflexivity|].
    apply SFleb_zero_shape, binary_round_shape.
  - split; [apply binary_round_shape|].
    destruct (SFadd_form X Y VX VY NX NY) as [(_ & -> & ->)|(M & E & -> & EV)].
    + exfalso. cbn [SFval] in Hx, Hy. pose proof (mval_pos m e). lra.
    + apply binary_round_mono. lra.
Qed.

(** Conversion of a positive integer below [2^63]. *)
Lemma mval_int (k : Z) : mval k 0 = IZR k.
Proof. unfold mval, pow2. simpl. ring. Qed.

Theorem int_round_spec (p n : positive) :
  (Zpos p <= Zpos n) -> Zpos n < 2 ^ 63 ->
  (exists m e, binary_round prec emax false n 0 = S754_finite false m e)
  /\ SFleb (binary_round prec emax false p 0) (binary_round prec emax false n 0) = true.
Proof.
  intros Hpn Hn.
  assert (M : SFleb (binary_round prec emax false p 0) (binary_round prec emax false n 0) = true).
  { apply binary_round_mono. rewrite !mval_int. now apply IZR_le. }
  split; [|exact M].
  destruct (binary_round_le n (2 ^ 52) 0 11 eq_refl) as [[E|E] _].
  - rewrite mval_int. unfold mval.
    replace (IZR (Zpos (2 ^ 52)) * pow2 11)%R with (IZR (2 ^ 63)).
    + apply IZR_le. lia.
    + rewrite pow2_IZR by lia. rewrite <- mult_IZR. reflexivity.
  - exfalso.
    assert (M1 : SFleb (binary_round prec emax false 1 0) (binary_round prec emax false n 0) = true).
    { apply binary_round_mono. rewrite !mval_int. apply IZR_le. lia. }
    rewrite E in M1. discriminate M1.
  - exact E.
Qed.

(** *** Sign of a quotient *)

Lemma shr_fexp_nonneg (m e : Z) (l : location) :
  0 <= m -> 0 <= shr_m (fst (shr_fexp prec emax m e l)).
Proof.
  intros Hm. unfold shr_fexp.
  set (k := fexp prec emax (Zdigits2 m + e) - e).
  destruct (Z_le_gt_dec k 0) as [Hk|Hk].
  - rewrite shr_nonpos by exact Hk. cbn [fst]. now rewrite shr_record_of_loc_m.
  - destruct (shr_spec (shr_record_of_loc m l) e k) as (_ & E & _).
    + now rewrite shr_record_of_loc_m.
    + lia.
    + rewrite E, shr_record_of_loc_m. apply Z.div_pos; [exact Hm|].
      apply Z.pow_pos_nonneg; lia.
Qed.

Lemma binary_round_aux_shape (m e : Z) (l : location) :
  0 <= m -> nonneg_shape (binary_round_aux prec emax false m e l).
Proof.
  intros Hm. rewrite bra_unfold. cbv zeta.
  pose proof (shr_fexp_nonneg m e l Hm) as H1.
  set (p1 := shr_fexp prec emax m e l) in *.
  pose proof (rne_bounds (shr_m (fst p1)) (loc_of_shr_record (fst p1))) as Hb.
  set (m1 := round_nearest_even _ _) in *.
  pose proof (shr_fexp_nonneg m1 (snd p1) loc_Exact ltac:(lia)) as H2.
  destruct (shr_m (fst (shr_fexp prec emax m1 (snd p1) loc_Exact))) as [|q|q]; [| |lia].
  - left. now left.
  - destruct (_ <=? _); [left; right; eauto | now right].
Qed.

(** A non-negative number (possibly [+infinity], or a zero of either sign)
    divided by a positive finite number is a number and is not negative. *)
Theorem SFdiv_nonneg (x : spec_float) (my : positive) (ey : Z) :
  SFleb (S754_zero false) x = true ->
  SFleb (S754_zero false) (SF64div x (S754_finite false my ey)) = true.
Proof.
  unfold SF64div.
  destruct x as [sx|[|]| |[|] mx ex]; cbn [SFdiv xorb]; try discriminate;
    try reflexivity.
  intros _. unfold SFdiv_core_binary.
  set (m' := match _ with Zpos _ => _ | Z0 => _ | Zneg _ => _ end).
  assert (Hm' : 0 <= m').
  { subst m'. destruct (_ - _ - _) as [|s|s]; try lia.
    apply Z.shiftl_nonneg. lia. }
  pose proof (Z_div_mod m' (Zpos my) ltac:(lia)) as Hdm.
  destruct (Z.div_eucl m' (Zpos my)) as [q r]. destruct Hdm as [Eq' Hr].
  apply SFleb_zero_shape, binary_round_aux_shape. nia.
Qed.

Lemma SFdiv_finite_shape (mx my : positive) (ex ey : Z) :
  nonneg_shape (SF64div (S754_finite false mx ex) (S754_finite false my ey)).
Proof.
  unfold SF64div. cbn [SFdiv xorb]. unfold SFdiv_core_binary.
  set (m' := match _ with Zpos _ => _ | Z0 => _ | Zneg _ => _ end).
  assert (Hm' : 0 <= m').
  { subst m'. destruct (_ - _ - _) as [|s|s]; try lia.
    apply Z.shiftl_nonneg. lia. }
  pose proof (Z_div_mod m' (Zpos my) ltac:(lia)) as Hdm.
  destruct (Z.div_eucl m' (Zpos my)) as [q r]. destruct Hdm as [Eq' Hr].
  apply binary_round_aux_shape. nia.
Qed.

(** A quotient of two numbers that are [+0] or positive and finite is
    [+0], positive and finite, [+infinity], or NaN (0/0). *)
Lemma SFdiv_shape (x y : spec_float) :
  nonneg_finite x -> nonneg_finite y ->
  nonneg_shape (SF64div x y) \/ SF64div x y = S754_nan.
Proof.
  intros [->|(mx & ex & ->)] [->|(my & ey & ->)].
  - now right.
  - left. left. now left.
  - left. now right.
  - left. apply SFdiv_finite_shape.
Qed.

(** Dividing [+0], a positive finite number or [+infinity] by a positive
    finite number gives a number of that shape. *)
Lemma SFdiv_shape_pos (x : spec_float) (my : positive) (ey : Z) :
  nonneg_shape x -> nonneg_shape (SF64div x (S754_finite false my ey)).
Proof.
  intros [[->|(mx & ex & ->)]| ->].
  - left. now left.
  - apply SFdiv_finite_shape.
  - now right.
Qed.

(** The product of such a number, or [+infinity], with a positive finite
    number is again of that shape. *)
Lemma SFmul_shape (x : spec_float) (my : positive) (ey : Z) :
  nonneg_shape x -> nonneg_shape (SF64mul x (S754_finite false my ey)).
Proof.
  intros [[->|(mx & ex & ->)]| ->]; unfold SF64mul; cbn [SFmul xorb].
  - left. now left.
  - apply binary_round_aux_shape. lia.
  - now right.
Qed.

End Round64Facts.

(** * The label-likelihood scorer *)

(** Label-likelihood scorer on a concrete sample. *)
Example checkLabelFlip_example :
  detect.checkLabelFlip detect.NewDetector (mkSample "s" [1.0%float; 2.0%float] 1 None)
  = 0%float.
Proof. reflexivity. Qed.

(** C6: for every detector and every sample, [checkLabelFlip] returns exactly
    0: the placeholder likelihood is the constant 0.5, the trigger condition
    [likelihood < 0.3] is false for it, so the score keeps its initial value
    and no sample ever exceeds the label_flip threshold. *)
Theorem checkLabelFlip_zero :
  forall (d : detect.Detector) (sample : Sample),
    detect.calculateLabelLikelihood sample = 0.5%float
    /\ GoFloat.lt (detect.calculateLabelLikelihood sample) 0.3%float = false
    /\ detect.checkLabelFlip d sample = 0%float
    /\ gt (detect.checkLabelFlip d sample) (detect.threshold detect.NewDetector detect.TypeLabelFlip)
       = false.
Proof.
  intros d sample. unfold detect.checkLabelFlip, detect.calculateLabelLikelihood.
  repeat split; reflexivity.
Qed.

(** * Defend *)

Lemma lookup_strategy_None (strats : list defend.DefenseStrategy) (name : string) :
  (forall strat, In strat strats -> defend.Name strat <> name) ->
  defend.lookup_strategy strats name = None.
Proof.
  induction strats as [|s rest IH]; intros H; simpl; [reflexivity|].
  destruct (String.eqb_spec (defend.Name s) name) as [E|_].
  - exfalso. apply (H s); [now left | exact E].
  - apply IH. intros strat Hin. apply H. now right.
Qed.

Lemma lookup_strategy_Some (strats : list defend.DefenseStrategy) (name : string)
      (strat : defend.DefenseStrategy) :
  defend.lookup_strategy strats name = Some strat ->
  In strat strats /\ defend.Name strat = name.
Proof.
  induction strats as [|s rest IH]; simpl; [discriminate|].
  destruct (String.eqb_spec (defend.Name s) name) as [E|_].
  - intros [= <-]. split; [now left | exact E].
  - intros H. destruct (IH H) as [Hin Hn]. split; [now right | exact Hn].
Qed.

(** Every name of the catalog selects its own entry: the names are distinct. *)
Lemma lookup_strategy_catalog (strat : defend.DefenseStrategy) :
  In strat (defend.strategies defend.NewDefender) ->
  defend.lookup_strategy (defend.strategies defend.NewDefender) (defend.Name strat)
  = Some strat.
Proof.
  simpl. intros H.
  repeat (destruct H as [<- | H]; [reflexivity|]). destruct H.
Qed.

(** C5: for every risk and every name, [Defend] answers a name of the
    catalog with success, improvement = effectiveness * risk, risk reduction
    = risk - improvement and cost = the strategy's overhead; it answers every
    other name with success = false, an empty strategy name and all numeric
    fields zero.  [Defend] is a total function: it never panics. *)
Theorem Defend_spec :
  forall (risk : float64) (name : string),
    (forall strat,
        In strat (defend.strategies defend.NewDefender) ->
        name = defend.Name strat ->
        defend.Defend defend.NewDefender risk name
        = defend.mkResult true (defend.Name strat)
            (defend.Effectiveness strat * risk)%float
            (risk - defend.Effectiveness strat * risk)%float
            (defend.Overhead strat))
    /\ ((forall strat,
            In strat (defend.strategies defend.NewDefender) ->
            defend.Name strat <> name) ->
        defend.Defend defend.NewDefender risk name
        = defend.mkResult false "" 0%float 0%float 0%float).
Proof.
  intros risk name. split.
  - intros strat Hin ->. unfold defend.Defend.
    now rewrite lookup_strategy_catalog.
  - intros Hno. unfold defend.Defend.
    now rewrite lookup_strategy_None.
Qed.

(** Both branches of [Defend] occur. *)
Example Defend_known :
  defend.Success (defend.Defend defend.NewDefender 0.5%float "Ensemble Defense") = true.
Proof. reflexivity. Qed.

Example Defend_unknown :
  forall risk,
    defend.Defend defend.NewDefender risk "Nonexistent Strategy"
    = defend.mkResult false "" 0%float 0%float 0%float.
Proof. reflexivity. Qed.

(** C9, as stated, fails: in binary64 the product 0.75 * 0.3 is not the
    number 0.225, and 0.3 minus that product is not the number 0.075. *)
Lemma Defend_data_cleaning_not_exact :
  defend.Defend defend.NewDefender 0.3%float "Data Cleaning"
  <> defend.mkResult true "Data Cleaning" 0.225%float 0.075%float 0.2%float.
Proof.
  intros H.
  apply (f_equal (fun r => PrimFloat.eqb (defend.Improvement r) 0.225%float)) in H.
  vm_compute in H. discriminate H.
Qed.

(** C9, amended: [Defend(0.3, "Data Cleaning")] succeeds with the binary64
    product 0.75 * 0.3 = 0.22499999999999998 as improvement, the binary64
    number next below 0.225; with risk reduction 0.3 - 0.22499999999999998 =
    0.07500000000000001, the binary64 number next above 0.075; and with cost
    exactly 0.2.  Neither field compares equal to 0.225 or 0.075. *)
Theorem Defend_data_cleaning :
  let r := defend.Defend defend.NewDefender 0.3%float "Data Cleaning" in
  r = defend.mkResult true "Data Cleaning"
        0.22499999999999998%float 0.07500000000000001%float 0.2%float
  /\ defend.Improvement r = next_down 0.225%float
  /\ defend.RiskReduction r = next_up 0.075%float
  /\ feq (defend.Improvement r) 0.225%float = false
  /\ feq (defend.RiskReduction r) 0.075%float = false
  /\ feq (defend.Cost r) 0.2%float = true.
Proof. vm_compute. repeat split; reflexivity. Qed.

(** * CalculateDefenseScore *)

(** The accumulation loop adds the improvement of the successful results,
    in order, to the running score. *)
Lemma score_loop_spec (results : list defend.DefenseResult) (score : float64) :
  defend.score_loop (map Some results) score
  = Returned
      (fold_left PrimFloat.add
         (map defend.Improvement (List.filter defend.Success results)) score).
Proof.
  revert score. induction results as [|r rest IH]; intros score; simpl.
  - reflexivity.
  - rewrite IH. destruct (defend.Success r); reflexivity.
Qed.

(** C8: for every sequence of (non-nil) defense results,
    [CalculateDefenseScore] returns the sum of Improvement over the
    successful results divided by the total number of results, and 0 for the
    empty sequence; one successful result with improvement 0.4 gives 0.4, and
    that result followed by a failed one gives 0.2. *)
Theorem CalculateDefenseScore_spec :
  (forall results : list defend.DefenseResult,
      defend.CalculateDefenseScore (map Some results)
      = Returned (spec.defenseScore results))
  /\ defend.CalculateDefenseScore [] = Returned 0%float
  /\ (forall name reduction cost,
         defend.CalculateDefenseScore
           [Some (defend.mkResult true name 0.4%float reduction cost)]
         = Returned 0.4%float)
  /\ (forall name reduction cost name' improvement' reduction' cost',
         defend.CalculateDefenseScore
           [Some (defend.mkResult true name 0.4%float reduction cost);
            Some (defend.mkResult false name' improvement' reduction' cost')]
         = Returned 0.2%float).
Proof.
  split; [|repeat split; reflexivity].
  intros results. unfold defend.CalculateDefenseScore, spec.defenseScore.
  rewrite score_loop_spec, length_map.
  destruct results as [|r rest]; reflexivity.
Qed.

(** * ApplyDefense, category filtering *)

(** Appending the kept elements one by one is filtering. *)
Lemma fold_left_append_filter {A : Type} (keep : A -> bool) (xs acc : list A) :
  fold_left (fun kept x => if keep x then (kept ++ [x])%list else kept) xs acc
  = (acc ++ List.filter keep xs)%list.
Proof.
  revert acc. induction xs as [|x rest IH]; intros acc; simpl.
  - now rewrite app_nil_r.
  - rewrite IH. destruct (keep x); [|reflexivity].
    now rewrite <- app_assoc.
Qed.

Lemma filterInputs_filter (d : defend.Defender) (samples : list Sample) :
  defend.filterInputs d samples = List.filter (defend.isValidInput d) samples.
Proof. unfold defend.filterInputs. now rewrite fold_left_append_filter. Qed.

(** The range loop keeps a feature unless it compares below -100 or above
    100. *)
Lemma features_in_range_forallb (features : list float64) :
  defend.features_in_range features
  = forallb (fun f => negb (GoFloat.lt f (-100)%float || gt f 100%float)) features.
Proof.
  induction features as [|f rest IH]; simpl; [reflexivity|].
  rewrite IH. now destruct (GoFloat.lt f (-100)%float || gt f 100%float).
Qed.

(** On a number the two comparisons of the source decide membership in
    [-100, 100]. *)
Lemma in_range_num (f : float64) :
  F64.is_num f ->
  negb (GoFloat.lt f (-100)%float || gt f 100%float) = spec.in_range f.
Proof.
  intros Hf. unfold spec.in_range, GoFloat.lt, gt.
  destruct (PrimFloat.ltb f (-100)) eqn:H1; simpl.
  - symmetry. apply andb_false_intro1.
    destruct (PrimFloat.leb (-100) f) eqn:H2; [|reflexivity].
    exfalso. exact (F64Facts.lt_irrefl _ (F64Facts.lt_le_trans _ _ _ H1 H2)).
  - assert (E1 : PrimFloat.leb (-100) f = true)
      by (apply F64Facts.not_lt_le; [exact Hf | reflexivity | exact H1]).
    rewrite E1. simpl.
    destruct (PrimFloat.ltb 100 f) eqn:H2; simpl.
    + destruct (PrimFloat.leb f 100) eqn:H3; [|reflexivity].
      exfalso. pose proof (F64Facts.lt_le_trans _ _ _ H2 H3) as H4. vm_compute in H4.
      discriminate.
    + symmetry. apply F64Facts.not_lt_le; [reflexivity | exact Hf | exact H2].
Qed.

Lemma isValidInput_accepted (d : defend.Defender) (sample : Sample) :
  defend.isValidInput d sample = spec.accepted_sample sample.
Proof.
  unfold defend.isValidInput, spec.accepted_sample.
  rewrite features_in_range_forallb.
  destruct (Features sample); reflexivity.
Qed.

(** C7 fails on the code: the only feature of the sample is NaN, which does
    not lie in [-100, 100], so the sample is to be removed.  [isValidInput]
    tests [f < -100 || f > 100], which is false for NaN: the sample passes the
    range check and input filtering returns it. *)
Theorem filtering_keeps_nan :
  forall (id : string) (label : Z) (metadata : option MapRef) (store : Store),
    let sample := mkSample id [PrimFloat.nan] label metadata in
    spec.in_range PrimFloat.nan = false
    /\ spec.valid_sample sample = false
    /\ defend.isValidInput defend.NewDefender sample = true
    /\ defend.ApplyDefense defend.NewDefender [sample] "Input Filtering" store
       = Returned ([sample], store)
    /\ defend.ApplyDefense defend.NewDefender [sample] "Input Filtering" store
       <> Returned (List.filter spec.valid_sample [sample], store).
Proof.
  intros id label metadata store sample.
  assert (E : defend.ApplyDefense defend.NewDefender [sample] "Input Filtering" store
              = Returned ([sample], store)) by reflexivity.
  repeat split; try reflexivity.
  rewrite E. cbn. discriminate.
Qed.

(** X27: for every sample sequence, [ApplyDefense] with the strategy "Input
    Filtering" (category filtering) returns exactly the subsequence, in the
    original order and unchanged, of the samples whose feature sequence is
    non-empty and none of whose features compares below -100 or above 100;
    all other samples are removed, and no map is written.  For a sample
    without NaN features the comparisons decide membership of every feature
    in [-100, 100]. *)
Theorem ApplyDefense_filtering :
  (forall (samples : list Sample) (store : Store),
      defend.ApplyDefense defend.NewDefender samples "Input Filtering" store
      = Returned (List.filter spec.accepted_sample samples, store))
  /\ (forall sample : Sample,
         Forall F64.is_num (Features sample) ->
         spec.accepted_sample sample = spec.valid_sample sample).
Proof.
  split.
  - intros samples store. unfold defend.ApplyDefense. simpl.
    unfold defend.applyStrategy. simpl.
    rewrite filterInputs_filter. do 2 f_equal.
    induction samples as [|s rest IH]; simpl; [reflexivity|].
    rewrite isValidInput_accepted, IH. reflexivity.
  - intros sample Hnum. unfold spec.accepted_sample, spec.valid_sample.
    f_equal. induction Hnum as [|f rest Hf _ IH]; simpl; [reflexivity|].
    unfold spec.not_out_of_range at 1. rewrite (in_range_num f Hf), IH.
    reflexivity.
Qed.

(** * ApplyDefense, category detection *)

(** What a write through a reference does to the store. *)
Lemma assign_lookup (r r' : MapRef) (key : string) (v : MetaValue) (store : Store) :
  assign r key v store !! r'
  = if Pos.eqb r r' then Some (<[key := v]> (contents store r)) else store !! r'.
Proof.
  unfold assign. destruct (Pos.eqb_spec r r') as [<-|N].
  - apply lookup_insert_eq.
  - now apply lookup_insert_ne.
Qed.

Lemma flagged_cons (d : defend.Defender) (s : Sample) (rest : list Sample) (r : MapRef) :
  spec.flagged d (s :: rest) r
  = (defend.isOutlier d s
     && match Metadata s with Some r' => Pos.eqb r' r | None => false end)
    || spec.flagged d rest r.
Proof. reflexivity. Qed.

(** The store after the loop, map by map. *)
Lemma detectOutliers_loop_lookup (d : defend.Defender) (samples : list Sample) :
  forall (store store' : Store),
    defend.detectOutliers_loop d samples store = Returned store' ->
    forall r : MapRef,
      store' !! r
      = if spec.flagged d samples r
        then Some (<["suspicious" := MBool true]> (contents store r))
        else store !! r.
Proof.
  induction samples as [|s rest IH]; intros store store' H r.
  - cbn in H. injection H as <-. reflexivity.
  - rewrite flagged_cons. cbn [defend.detectOutliers_loop] in H.
    destruct (defend.isOutlier d s) eqn:Ho; cbn [andb orb].
    + unfold defend.mark_suspicious in H.
      destruct (Metadata s) as [r0|] eqn:Em; [|discriminate].
      rewrite (IH _ _ H r). unfold contents at 1. rewrite !assign_lookup.
      destruct (Pos.eqb_spec r0 r) as [->|N]; cbn [orb].
      * destruct (spec.flagged d rest r); [|reflexivity].
        unfold default. cbn [from_option]. unfold Datatypes.id. now rewrite insert_insert_eq.
      * reflexivity.
    + exact (IH _ _ H r).
Qed.

Lemma annotate_lookup (d : defend.Defender) (samples : list Sample) (store : Store)
      (r : MapRef) :
  spec.annotate d samples store !! r
  = if spec.flagged d samples r
    then Some (<["suspicious" := MBool true]> (contents store r))
    else store !! r.
Proof.
  induction samples as [|s rest IH]; [reflexivity|].
  rewrite flagged_cons. cbn [spec.annotate foldr].
  fold (spec.annotate d rest store).
  destruct (defend.isOutlier d s) eqn:Ho; cbn [andb orb]; [|exact IH].
  destruct (Metadata s) as [r0|] eqn:Em; [|exact IH].
  rewrite assign_lookup.
  destruct (Pos.eqb_spec r0 r) as [->|N]; cbn [orb]; [|exact IH].
  unfold contents at 1. rewrite IH.
  destruct (spec.flagged d rest r); [|reflexivity].
  unfold default. cbn [from_option]. unfold Datatypes.id. now rewrite insert_insert_eq.
Qed.

Lemma detectOutliers_loop_returns (d : defend.Defender) (samples : list Sample)
      (store : Store) :
  spec.outliers_have_metadata d samples ->
  defend.detectOutliers_loop d samples store = Returned (spec.annotate d samples store).
Proof.
  intros H.
  assert (R : exists store', defend.detectOutliers_loop d samples store = Returned store').
  { revert store. unfold spec.outliers_have_metadata in H.
    induction H as [|s rest Hs _ IH]; intros store; cbn; [eauto|].
    destruct (defend.isOutlier d s) eqn:Ho; [|apply IH].
    unfold defend.mark_suspicious.
    destruct (Metadata s) as [r0|] eqn:Em; [apply IH|now destruct (Hs eq_refl)]. }
  destruct R as [store' R]. rewrite R. f_equal.
  apply map_eq. intros r.
  now rewrite (detectOutliers_loop_lookup _ _ _ _ R r), annotate_lookup.
Qed.

Lemma detectOutliers_loop_panics (d : defend.Defender) (samples : list Sample) :
  ~ spec.outliers_have_metadata d samples ->
  forall store : Store,
    defend.detectOutliers_loop d samples store
    = Panicked "assignment to entry in nil map".
Proof.
  unfold spec.outliers_have_metadata.
  induction samples as [|s rest IH]; intros Hn store; cbn.
  - destruct Hn. constructor.
  - unfold defend.mark_suspicious.
    destruct (defend.isOutlier d s) eqn:Ho.
    + destruct (Metadata s) as [r0|] eqn:Hm; [|reflexivity].
      apply IH. intros Hrest. apply Hn. constructor; [|exact Hrest].
      intros _. rewrite Hm. discriminate.
    + apply IH. intros Hrest. apply Hn. constructor; [|exact Hrest].
      intros Ht. rewrite Ho in Ht. discriminate.
Qed.

Lemma detectOutliers_loop_returned_inv (d : defend.Defender) (samples : list Sample) :
  forall store store' : Store,
    defend.detectOutliers_loop d samples store = Returned store' ->
    spec.outliers_have_metadata d samples.
Proof.
  unfold spec.outliers_have_metadata.
  induction samples as [|s rest IH]; intros store store'; cbn.
  - constructor.
  - unfold defend.mark_suspicious.
    destruct (defend.isOutlier d s) eqn:Ho.
    + destruct (Metadata s) as [r0|] eqn:Hm; [|discriminate].
      intros H. constructor; [intros _; rewrite Hm; discriminate | now apply IH in H].
    + intros H. constructor; [rewrite Ho; discriminate | now apply IH in H].
Qed.

Lemma detectOutliers_returns (d : defend.Defender) (samples : list Sample)
      (store : Store) :
  spec.outliers_have_metadata d samples ->
  defend.detectOutliers d samples store
  = Returned (samples, spec.annotate d samples store).
Proof.
  intros H. unfold defend.detectOutliers.
  now rewrite (detectOutliers_loop_returns d samples store H).
Qed.

Lemma detectOutliers_panics (d : defend.Defender) (samples : list Sample)
      (store : Store) :
  ~ spec.outliers_have_metadata d samples ->
  defend.detectOutliers d samples store = Panicked "assignment to entry in nil map".
Proof.
  intros H. unfold defend.detectOutliers.
  now rewrite (detectOutliers_loop_panics d samples H store).
Qed.

Lemma detectOutliers_returned_inv (d : defend.Defender) (samples out : list Sample)
      (store store' : Store) :
  defend.detectOutliers d samples store = Returned (out, store') ->
  spec.outliers_have_metadata d samples.
Proof.
  unfold defend.detectOutliers.
  destruct (defend.detectOutliers_loop d samples store) as [st|] eqn:E; [|discriminate].
  intros _. now apply detectOutliers_loop_returned_inv with store st.
Qed.

(** C10: [ApplyDefense] with the strategy "Outlier Detection" (category
    detection) returns if and only if every sample that [isOutlier] flags
    (some feature more than 2.5 standard deviations from the sample's mean)
    has a non-nil Metadata map; it then returns the samples, with
    "suspicious" set to true in the map of each outlier.  Otherwise the
    assignment into the nil map panics, and such an input exists: one sample
    with features 0,0,0,0,0,0,0,0,1 and nil Metadata. *)
Theorem ApplyDefense_detection_nil_map :
  (forall (samples : list Sample) (store : Store),
      (exists out store',
          defend.ApplyDefense defend.NewDefender samples "Outlier Detection" store
          = Returned (out, store'))
      <-> spec.outliers_have_metadata defend.NewDefender samples)
  /\ (forall (samples : list Sample) (store : Store),
         spec.outliers_have_metadata defend.NewDefender samples ->
         defend.ApplyDefense defend.NewDefender samples "Outlier Detection" store
         = Returned (samples, spec.annotate defend.NewDefender samples store))
  /\ (forall (samples : list Sample) (store : Store),
         ~ spec.outliers_have_metadata defend.NewDefender samples ->
         defend.ApplyDefense defend.NewDefender samples "Outlier Detection" store
         = Panicked "assignment to entry in nil map")
  /\ (let sample :=
        mkSample "s1" [0; 0; 0; 0; 0; 0; 0; 0; 1]%float 0 None in
      defend.isOutlier defend.NewDefender sample = true
      /\ Metadata sample = None
      /\ forall store : Store,
           defend.ApplyDefense defend.NewDefender [sample] "Outlier Detection" store
           = Panicked "assignment to entry in nil map").
Proof.
  assert (E : forall samples store,
             defend.ApplyDefense defend.NewDefender samples "Outlier Detection" store
             = defend.detectOutliers defend.NewDefender samples store) by reflexivity.
  split; [|split; [|split]].
  - intros samples store. rewrite E. split.
    + intros (out & store' & Hout). now apply detectOutliers_returned_inv in Hout.
    + intros H. do 2 eexists. now apply detectOutliers_returns.
  - intros samples store H. rewrite E. now apply detectOutliers_returns.
  - intros samples store H. rewrite E. now apply detectOutliers_panics.
  - repeat split; reflexivity.
Qed.

(** * Detect *)

(** Binary64 multiplication is commutative. *)
Lemma SFmul_comm (x y : spec_float) : SF64mul x y = SF64mul y x.
Proof.
  unfold SF64mul.
  destruct x as [[|]|[|]| |[|] mx ex], y as [[|]|[|]| |[|] my ey];
    simpl; try reflexivity;
    now rewrite (Pos.mul_comm mx my), (Z.add_comm ex ey).
Qed.

Lemma float_mul_comm (x y : float64) : (x * y)%float = (y * x)%float.
Proof. apply Prim2SF_inj. now rewrite !FloatAxioms.mul_spec, SFmul_comm. Qed.

(** An unflagged verdict carries the zero confidence it was created with. *)
Lemma analyzeSample_unpoisoned (d : detect.Detector) (sample : Sample) :
  detect.PoisonedSample.IsPoisoned (detect.analyzeSample d sample) = false ->
  detect.PoisonedSample.Confidence (detect.analyzeSample d sample) = 0%float.
Proof.
  unfold detect.analyzeSample, detect.flag.
  destruct (gt (detect.checkFeaturePoison d sample) _); simpl; [discriminate|].
  destruct (gt (detect.checkGradientPoison d sample) _); simpl; [discriminate|].
  destruct (gt (detect.checkLabelFlip d sample) _); simpl; [discriminate|].
  destruct (gt (detect.checkBackdoor d sample) _); simpl; [discriminate|].
  reflexivity.
Qed.

(** The loop of [Detect] appends one verdict per sample and counts the
    flagged ones. *)
Lemma Detect_loop (d : detect.Detector) (samples : list Sample)
      (verdicts : list detect.PoisonedSample.t) (count : Z) :
  fold_left (detect.Detect_step d) samples (verdicts, count)
  = ((verdicts ++ map (detect.analyzeSample d) samples)%list,
     (count
      + Z.of_nat (length (List.filter detect.PoisonedSample.IsPoisoned
                                      (map (detect.analyzeSample d) samples))))%Z).
Proof.
  revert verdicts count. induction samples as [|s rest IH]; intros verdicts count.
  - simpl. now rewrite app_nil_r, Z.add_0_r.
  - cbn [fold_left]. unfold detect.Detect_step at 2. cbn [fst snd].
    rewrite IH. cbn [map List.filter]. rewrite <- app_assoc. cbn [app].
    f_equal.
    destruct (detect.PoisonedSample.IsPoisoned (detect.analyzeSample d s));
      cbn [length]; lia.
Qed.

Lemma Detect_unfold (d : detect.Detector) (samples : list Sample) :
  detect.Detect d samples
  = let verdicts := map (detect.analyzeSample d) samples in
    let count :=
      Z.of_nat (length (List.filter detect.PoisonedSample.IsPoisoned verdicts)) in
    detect.DetectionResult.mk
      (0 <? count)%Z (Z.of_nat (length samples)) count verdicts
      (detect.calculateRiskScore d
         (detect.DetectionResult.mk
            (0 <? count)%Z (Z.of_nat (length samples)) count verdicts 0%float
            "ensemble_detection"))
      "ensemble_detection".
Proof.
  unfold detect.Detect. rewrite Detect_loop. reflexivity.
Qed.

Lemma fold_left_add_map {A : Type} (f : A -> float64) (xs : list A) (acc : float64) :
  fold_left (fun total x => (total + f x)%float) xs acc
  = fold_left PrimFloat.add (map f xs) acc.
Proof.
  revert acc. induction xs as [|x rest IH]; intros acc; simpl; [reflexivity|].
  apply IH.
Qed.

(** C1: for every detector and every sample sequence, the result of
    [Detect] holds one verdict per sample in order, SampleCount is the number
    of samples, PoisonedCount the number of flagged verdicts, every unflagged
    verdict has Confidence 0, and RiskScore is
    0.7 * (PoisonedCount / SampleCount) + 0.3 * meanConfidence with
    meanConfidence the arithmetic mean of the Confidence fields of all
    verdicts; RiskScore is 0 when the sequence is empty. *)
Theorem Detect_riskScore :
  forall (d : detect.Detector) (samples : list Sample),
    let r := detect.Detect d samples in
    detect.DetectionResult.Samples r = map (detect.analyzeSample d) samples
    /\ detect.DetectionResult.SampleCount r = Z.of_nat (length samples)
    /\ detect.DetectionResult.PoisonedCount r
       = Z.of_nat (length (List.filter detect.PoisonedSample.IsPoisoned
                                       (detect.DetectionResult.Samples r)))
    /\ (forall v, In v (detect.DetectionResult.Samples r) ->
                  detect.PoisonedSample.IsPoisoned v = false ->
                  detect.PoisonedSample.Confidence v = 0%float)
    /\ detect.DetectionResult.RiskScore r
       = spec.riskScore (detect.DetectionResult.PoisonedCount r)
                        (detect.DetectionResult.SampleCount r)
                        (detect.DetectionResult.Samples r)
    /\ (detect.DetectionResult.SampleCount r = 0
        -> detect.DetectionResult.RiskScore r = 0%float).
Proof.
  intros d samples r. subst r. rewrite Detect_unfold. cbn zeta.
  cbn [detect.DetectionResult.Samples detect.DetectionResult.SampleCount
       detect.DetectionResult.PoisonedCount detect.DetectionResult.RiskScore].
  split; [reflexivity|]. split; [reflexivity|]. split; [reflexivity|].
  split.
  { intros v Hin. apply List.in_map_iff in Hin as [s [<- _]].
    apply analyzeSample_unpoisoned. }
  unfold detect.calculateRiskScore, spec.riskScore.
  cbn [detect.DetectionResult.Samples detect.DetectionResult.SampleCount
       detect.DetectionResult.PoisonedCount].
  split.
  - destruct (Z.of_nat (length samples) =? 0)%Z; [reflexivity|].
    unfold spec.meanConfidence, spec.arithmetic_mean, spec.float_sum.
    rewrite fold_left_add_map, !length_map.
    rewrite (float_mul_comm 0.7), (float_mul_comm 0.3). reflexivity.
  - intros ->. reflexivity.
Qed.

(** * checkBackdoor

    The index into the averages is always in range. *)

Lemma calculateAverage_length (features : list float64) :
  length (detect.calculateAverage features) = length features.
Proof.
  unfold detect.calculateAverage. destruct features; [reflexivity|].
  apply length_map.
Qed.

Lemma calculateAverage_lookup (features : list float64) (i : nat) (f : float64) :
  features !! i = Some f ->
  detect.calculateAverage features !! i = Some (f / 2)%float.
Proof.
  unfold detect.calculateAverage. destruct features as [|f0 rest]; [discriminate|].
  intros H. now rewrite list_lookup_fmap, H.
Qed.

(** * analyzeSample *)

Lemma gt_num_l (x t : float64) : gt x t = true -> F64.is_num x.
Proof. apply F64Facts.lt_num_r. Qed.

Lemma gt_le_trans (x y t : float64) : gt x t = true -> F64.le x y -> gt y t = true.
Proof. apply F64Facts.lt_le_trans. Qed.

(** [math.Max] against the initial score 0 returns a score that exceeded a
    non-negative threshold. *)
Lemma Max_zero_l (t x : float64) : F64.le 0 t -> gt x t = true -> Max 0 x = x.
Proof.
  intros Ht Hx.
  destruct (F64Facts.Max_spec 0 x eq_refl (gt_num_l _ _ Hx)) as [[E|E] [_ L]];
    [|exact E].
  rewrite E in L. exfalso.
  apply (F64Facts.lt_irrefl t). apply F64Facts.lt_le_trans with x; [exact Hx|].
  now apply F64Facts.le_trans with 0%float.
Qed.

(** Collects, for every [Max x y] of the goal, that it is [x] or [y] and
    bounds both, once [x] and [y] are known to be numbers. *)
Ltac max_facts :=
  repeat match goal with
    | |- context [Max ?x ?y] =>
        lazymatch goal with
        | _ : F64.le x (Max x y) |- _ => fail
        | _ =>
            let Hx := fresh "Nx" in
            let Hy := fresh "Ny" in
            assert (Hx : F64.is_num x) by eauto using gt_num_l, F64Facts.Max_num;
            assert (Hy : F64.is_num y) by eauto using gt_num_l, F64Facts.Max_num;
            destruct (F64Facts.Max_spec x y Hx Hy) as [? [? ?]]
        end
    end.

Lemma thresholds_NewDetector :
  detect.threshold detect.NewDetector detect.TypeBackdoor = 0.7%float
  /\ detect.threshold detect.NewDetector detect.TypeLabelFlip = 0.6%float
  /\ detect.threshold detect.NewDetector detect.TypeGradientPoison = 0.65%float
  /\ detect.threshold detect.NewDetector detect.TypeFeaturePoison = 0.7%float.
Proof. repeat split; reflexivity. Qed.

(** C4: for every sample, the verdict of [analyzeSample] under the fixed
    thresholds satisfies: if IsPoisoned is true then Score is strictly above
    the threshold of the recorded Type; when no check exceeded its threshold
    the verdict is the unflagged initial one; otherwise the verdict is
    flagged, its Type, Description and Evidence (and Confidence) are those of
    the last check, in the order backdoor, label_flip, gradient_poison,
    feature_poison, that exceeded its threshold, and Score is the maximum of
    the scores of the checks that exceeded: it is one of them and it is at
    least each of them. *)
Theorem analyzeSample_verdict :
  forall sample : Sample,
    let d := detect.NewDetector in
    let v := detect.analyzeSample d sample in
    let fired := spec.exceeded d sample in
    (detect.PoisonedSample.IsPoisoned v = true ->
     gt (detect.PoisonedSample.Score v)
        (detect.threshold d (detect.PoisonedSample.Type_ v)) = true)
    /\ (fired = [] ->
        v = detect.PoisonedSample.mk (ID sample) false 0%float "" "" "" 0%float)
    /\ (forall c, last fired = Some c ->
          detect.PoisonedSample.IsPoisoned v = true
          /\ detect.PoisonedSample.Type_ v = spec.check_type c
          /\ detect.PoisonedSample.Description v = spec.check_description c
          /\ detect.PoisonedSample.Evidence v = spec.check_evidence c
          /\ detect.PoisonedSample.Confidence v = spec.check_score c
          /\ (exists c', In c' fired
                         /\ detect.PoisonedSample.Score v = spec.check_score c')
          /\ (forall c', In c' fired ->
                         F64.le (spec.check_score c') (detect.PoisonedSample.Score v))).
Proof.
  intros sample d v fired. subst d v fired.
  unfold spec.exceeded, spec.checks, detect.analyzeSample.
  cbn [List.filter]. unfold spec.exceeds. cbn [spec.check_score spec.check_type].
  destruct thresholds_NewDetector as (-> & -> & -> & ->).
  change (detect.checkLabelFlip detect.NewDetector sample) with 0%float.
  change (gt 0 0.6) with false. cbv iota.
  generalize (detect.checkBackdoor detect.NewDetector sample) as b.
  generalize (detect.checkGradientPoison detect.NewDetector sample) as g.
  generalize (detect.checkFeaturePoison detect.NewDetector sample) as f.
  intros f g b.
  destruct (gt b 0.7) eqn:Hb; destruct (gt g 0.65) eqn:Hg;
    destruct (gt f 0.7) eqn:Hf; unfold detect.flag;
    cbn [detect.PoisonedSample.IsPoisoned detect.PoisonedSample.Score
         detect.PoisonedSample.Type_ detect.PoisonedSample.Description
         detect.PoisonedSample.Evidence detect.PoisonedSample.Confidence
         detect.PoisonedSample.ID last].
  all: try (rewrite (Max_zero_l 0.65 g eq_refl Hg)).
  all: try (rewrite (Max_zero_l 0.7 f eq_refl Hf)).
  all: destruct thresholds_NewDetector as (Tb & _ & Tg & Tf);
    rewrite ?Tb, ?Tg, ?Tf; clear Tb Tg Tf.
  all: max_facts.
  all: split; [intros Hp; try discriminate Hp;
               eauto using gt_le_trans|].
  all: split; [intros Hn; try discriminate Hn; reflexivity|].
  all: intros c Hc; try discriminate Hc; injection Hc as <-;
    cbn [spec.check_type spec.check_score spec.check_description
         spec.check_evidence].
  all: repeat (split; [reflexivity|]).
  all: split;
    [ repeat match goal with
        | H : _ \/ _ |- _ => destruct H as [H|H]; try rewrite H in *
        end;
      first [ eexists; split; [left; reflexivity | reflexivity]
            | eexists; split; [right; left; reflexivity | reflexivity]
            | eexists; split; [right; right; left; reflexivity | reflexivity] ]
    | intros c' Hin; cbn [In] in Hin;
      repeat (destruct Hin as [<- | Hin]; [cbn [spec.check_score]|]);
      [eauto using F64Facts.le_trans, F64Facts.le_refl, gt_num_l .. | destruct Hin] ].
Qed.

(** One check exceeds: eight features above 6 in absolute value give the
    backdoor score 0.1 added eight times. *)
Example analyzeSample_backdoor :
  detect.analyzeSample detect.NewDetector
    (mkSample "s2" [10; 10; 10; 10; 10; 10; 10; 10]%float 1 None)
  = detect.PoisonedSample.mk "s2" true 0.79999999999999993%float detect.TypeBackdoor
      "Potential backdoor trigger detected" "Unusual feature pattern"
      0.79999999999999993%float.
Proof. vm_compute. reflexivity. Qed.

(** Two checks exceed: the verdict carries the type and the confidence of
    the last one and the larger score of the first one. *)
Example analyzeSample_two_checks :
  let v := detect.analyzeSample detect.NewDetector
             (mkSample "s3"
                [10; 10; 10; 10; 10; 10; 10; 10; 10; 10; 10; 10; 10; 10; 1000]%float
                1 None) in
  map spec.check_type (spec.exceeded detect.NewDetector
                         (mkSample "s3"
                            [10; 10; 10; 10; 10; 10; 10; 10; 10; 10; 10; 10; 10; 10; 1000]%float
                            1 None))
  = [detect.TypeBackdoor; detect.TypeFeaturePoison]
  /\ detect.PoisonedSample.Type_ v = detect.TypeFeaturePoison
  /\ detect.PoisonedSample.Score v = 1%float
  /\ PrimFloat.ltb (detect.PoisonedSample.Confidence v) 1 = true.
Proof. vm_compute. repeat split. Qed.

(** * The scorers on a sample without features *)

(** C2 fails on the code: for a sample with an empty feature sequence the
    gradient-outlier scorer divides 0 by 0; the quotient is NaN, [math.Min]
    keeps it, and NaN is not in [0, 1].  The three other scorers return 0 on
    such a sample. *)
Theorem checkGradientPoison_empty_nan :
  forall (d : detect.Detector) (id : string) (label : Z)
         (metadata : option MapRef),
    let sample := mkSample id [] label metadata in
    detect.checkGradientPoison d sample = PrimFloat.nan
    /\ F64.in_unitb (detect.checkGradientPoison d sample) = false
    /\ detect.checkBackdoor d sample = 0%float
    /\ detect.checkLabelFlip d sample = 0%float
    /\ detect.checkFeaturePoison d sample = 0%float.
Proof. intros d id label metadata. repeat split; reflexivity. Qed.

(** * Bounds of the risk score *)

Lemma posfin_good (x : float64) : posfin x -> good x.
Proof. intros H. right. exact H. Qed.

Lemma good_fval_nonneg (x : float64) : good x -> (0 <= fval x)%R.
Proof. apply Round64Facts.SFval_nonneg. Qed.

Lemma good_le_zero (x : float64) : good x -> F64.le 0 x.
Proof.
  unfold good, F64.le. rewrite FloatAxioms.leb_spec.
  change (Prim2SF 0) with (S754_zero false).
  intros [->|(m & e & ->)]; reflexivity.
Qed.

Lemma le_fval (x y : float64) : good x -> good y -> F64.le x y -> (fval x <= fval y)%R.
Proof.
  unfold F64.le. rewrite FloatAxioms.leb_spec. intros Gx Gy H.
  apply Round64Facts.SFleb_val; auto using Prim2SF_valid.
Qed.

Lemma posfin_bounded (B : float64) (mB : positive) (eB : Z) :
  Prim2SF B = S754_finite false mB eB -> SpecFloat.bounded prec emax mB eB = true.
Proof. intros E. pose proof (Prim2SF_valid B) as V. now rewrite E in V. Qed.

Lemma fmul_le (x y B : float64) :
  good x -> good y -> posfin B -> (fval x * fval y <= fval B)%R ->
  good (x * y) /\ F64.le (x * y) B /\ (fval (x * y) <= fval B)%R.
Proof.
  intros Gx Gy (mB & eB & EB) Hval.
  pose proof (posfin_bounded B mB eB EB) as HB.
  unfold fval in Hval. rewrite EB in Hval. cbn [Round64.SFval] in Hval.
  destruct (Round64Facts.SFmul_le _ _ mB eB (Prim2SF_valid x) (Prim2SF_valid y) Gx Gy HB Hval)
    as [G L].
  rewrite <- FloatAxioms.mul_spec, <- EB in *.
  assert (F64.le (x * y) B) by (unfold F64.le; now rewrite FloatAxioms.leb_spec).
  repeat split; try assumption.
  apply le_fval; try assumption. right. eauto.
Qed.

Lemma fadd_le (x y B : float64) :
  good x -> good y -> posfin B -> (fval x + fval y <= fval B)%R ->
  good (x + y) /\ F64.le (x + y) B /\ (fval (x + y) <= fval B)%R.
Proof.
  intros Gx Gy (mB & eB & EB) Hval.
  pose proof (posfin_bounded B mB eB EB) as HB.
  unfold fval in Hval. rewrite EB in Hval. cbn [Round64.SFval] in Hval.
  destruct (Round64Facts.SFadd_le _ _ mB eB (Prim2SF_valid x) (Prim2SF_valid y) Gx Gy HB Hval)
    as [G L].
  rewrite <- FloatAxioms.add_spec, <- EB in *.
  assert (F64.le (x + y) B) by (unfold F64.le; now rewrite FloatAxioms.leb_spec).
  repeat split; try assumption.
  apply le_fval; try assumption. right. eauto.
Qed.

Lemma fval_one : fval 1 = 1%R.
Proof.
  unfold fval. change (Prim2SF 1) with (S754_finite false (2 ^ 52) (-52)).
  apply Round64Facts.mval_one.
Qed.

Lemma fdiv_le_one (x y : float64) :
  good x -> posfin y -> (fval x <= fval y)%R ->
  good (x / y) /\ F64.le (x / y) 1 /\ (fval (x / y) <= 1)%R.
Proof.
  intros Gx (my & ey & Ey) Hval.
  unfold fval in Hval. rewrite Ey in Hval. cbn [Round64.SFval] in Hval.
  destruct (Round64Facts.SFdiv_le_one _ my ey (Prim2SF_valid x) Gx Hval) as [G L].
  rewrite <- Ey, <- FloatAxioms.div_spec in *.
  change (S754_finite false (2 ^ 52) (-52)) with (Prim2SF 1) in L.
  assert (F64.le (x / y) 1) by (unfold F64.le; now rewrite FloatAxioms.leb_spec).
  repeat split; try assumption.
  rewrite <- fval_one. apply le_fval; try assumption. right.
  now exists (2 ^ 52)%positive, (-52).
Qed.

(** [float64(k)] is exact for [0 <= k < 2^53]. *)
Lemma float64_of_int_exact (k : Z) :
  0 <= k < 2 ^ 53 ->
  good (float64_of_int k) /\ fval (float64_of_int k) = IZR k
  /\ (0 < k -> posfin (float64_of_int k)).
Proof.
  intros [H0 H1]. unfold float64_of_int, good, fval, posfin.
  replace (k <? 0) with false by (symmetry; apply Z.ltb_ge; lia).
  rewrite of_uint63_spec, Uint63.of_Z_spec.
  rewrite Z.mod_small by (change wB with (2 ^ 63); change (2 ^ 63) with (1024 * 2 ^ 53); lia).
  destruct (Z.eq_dec k 0) as [->|Hk].
  - cbn [binary_normalize Round64.SFval]. split; [now left|]. split; [reflexivity | lia].
  - destruct (Round64Facts.binary_normalize_int k ltac:(lia)) as (m & e & -> & Ev).
    cbn [Round64.SFval]. split; [right; eauto|]. split; [exact Ev | eauto].
Qed.

Lemma float64_of_int_spec (k : Z) :
  0 <= k < 2 ^ 63 ->
  Prim2SF (float64_of_int k) = binary_normalize prec emax k 0 false.
Proof.
  intros [H0 H1]. unfold float64_of_int.
  replace (k <? 0) with false by (symmetry; apply Z.ltb_ge; lia).
  rewrite of_uint63_spec, Uint63.of_Z_spec.
  now rewrite Z.mod_small by (change wB with (2 ^ 63); lia).
Qed.

(** [float64(n)] is positive and finite for [0 < n < 2^63]. *)
Lemma float64_of_int_pos (n : Z) : 0 < n < 2 ^ 63 -> posfin (float64_of_int n).
Proof.
  intros [H0 H1]. unfold posfin. rewrite float64_of_int_spec by lia.
  destruct n as [|n|n]; try lia. cbn [binary_normalize].
  now destruct (Round64Facts.int_round_spec n n ltac:(lia) H1) as [E _].
Qed.

(** [float64] of an [int] is monotone on [0 <= p <= n < 2^63]. *)
Lemma float64_of_int_mono (p n : Z) :
  0 <= p <= n -> n < 2 ^ 63 ->
  good (float64_of_int p)
  /\ (fval (float64_of_int p) <= fval (float64_of_int n))%R.
Proof.
  intros [H0 Hpn] Hn.
  destruct (Z.eq_dec p 0) as [->|Hp].
  - assert (G0 : good (float64_of_int 0)) by now left.
    split; [exact G0|].
    change (fval (float64_of_int 0)) with 0%R.
    destruct (Z.eq_dec n 0) as [->|Hn0]; [change (fval (float64_of_int 0)) with 0%R; lra|].
    apply good_fval_nonneg, posfin_good, float64_of_int_pos. lia.
  - pose proof (float64_of_int_pos p ltac:(lia)) as Pp.
    pose proof (float64_of_int_pos n ltac:(lia)) as Pn.
    split; [now apply posfin_good|].
    apply le_fval; [now apply posfin_good | now apply posfin_good |].
    unfold F64.le. rewrite FloatAxioms.leb_spec, !float64_of_int_spec by lia.
    destruct p as [|p|p], n as [|n|n]; try lia. cbn [binary_normalize].
    now apply Round64Facts.int_round_spec.
Qed.

Lemma fadd_mono (x y X Y : float64) :
  good x -> good y -> good X -> good Y ->
  (fval x <= fval X)%R -> (fval y <= fval Y)%R -> posfin (X + Y) ->
  good (x + y) /\ (fval (x + y) <= fval (X + Y))%R.
Proof.
  intros Gx Gy GX GY Hx Hy (m & e & E).
  destruct (Round64Facts.SFadd_mono _ _ _ _ (Prim2SF_valid x) (Prim2SF_valid y)
              (Prim2SF_valid X) (Prim2SF_valid Y) Gx Gy GX GY Hx Hy) as [S L].
  rewrite <- !FloatAxioms.add_spec in *.
  assert (G : good (x + y)).
  { unfold good. rewrite E in L. eapply Round64Facts.nonneg_shape_le; eassumption. }
  split; [exact G|].
  apply le_fval; [exact G | right; eauto |].
  unfold F64.le. now rewrite FloatAxioms.leb_spec.
Qed.

Lemma fval_two_53 : fval 9007199254740992 = IZR (2 ^ 53).
Proof.
  unfold fval. change (Prim2SF 9007199254740992) with (S754_finite false (2 ^ 52) 1).
  cbn [Round64.SFval]. unfold Round64.mval.
  rewrite Round64Facts.pow2_IZR by lia. now rewrite <- mult_IZR.
Qed.

Lemma eqb_nan_l (x y : float64) : PrimFloat.eqb x x = false -> PrimFloat.eqb x y = false.
Proof.
  rewrite !FloatAxioms.eqb_spec. unfold SFeqb.
  destruct (Prim2SF x) as [[|]|[|]| |[|] mx ex]; cbn; try discriminate;
    try reflexivity.
  - rewrite Z.compare_refl, Pos.compare_cont_refl. discriminate.
  - rewrite Z.compare_refl, Pos.compare_cont_refl. discriminate.
Qed.

(** Clamping NaN gives NaN. *)
Lemma Min_one_nan (x : float64) : PrimFloat.eqb x x = false -> Min x 1 = PrimFloat.nan.
Proof.
  intros Ex. unfold Min, IsInfNeg, IsNaN, feq.
  now rewrite (eqb_nan_l x _ Ex), Ex.
Qed.

(** Clamping [+0], a positive finite number or [+infinity] from above by 1
    gives [+0] or a positive finite number, of value at most 1. *)
Lemma clamp_good (x : float64) :
  Round64.nonneg_shape (Prim2SF x) -> good (Min x 1) /\ (fval (Min x 1) <= 1)%R.
Proof.
  intros Hs.
  assert (Hn : F64.is_num x).
  { unfold F64.is_num. rewrite FloatAxioms.eqb_spec. unfold SFeqb.
    destruct Hs as [[->|(m & e & ->)]| ->]; cbn [SFcompare];
      rewrite ?Z.compare_refl, ?Pos.compare_cont_refl; reflexivity. }
  assert (G1 : good 1) by (right; now exists (2 ^ 52)%positive, (-52)).
  destruct (F64Facts.Min_spec x 1 Hn eq_refl) as [[E|E] [_ L]].
  - rewrite E in *.
    assert (G : good x).
    { unfold F64.le in L. rewrite FloatAxioms.leb_spec in L.
      change (Prim2SF 1) with (S754_finite false (2 ^ 52) (-52)) in L.
      eapply Round64Facts.nonneg_shape_le; eassumption. }
    split; [exact G|]. rewrite <- fval_one. now apply le_fval.
  - rewrite E. split; [exact G1|]. rewrite fval_one. lra.
Qed.

Lemma float64_of_int_good (k : Z) : 0 <= k -> good (float64_of_int k).
Proof.
  intros Hk. unfold float64_of_int, good.
  replace (k <? 0) with false by (symmetry; apply Z.ltb_ge; lia).
  rewrite of_uint63_spec.
  pose proof (Uint63.to_Z_bounded (Uint63.of_Z k)) as B.
  change wB with (2 ^ 63) in B.
  destruct (to_Z (of_Z k)) as [|n|n]; try lia.
  - now left.
  - right. cbn [binary_normalize].
    now destruct (Round64Facts.int_round_spec n n ltac:(lia) ltac:(lia)) as [E _].
Qed.

(** Adding a number up to 1 to a sum that is at most [min k 2^53]: the sum
    stays at most [min (k+1) 2^53], because at 2^53 adding a number up to 1
    no longer changes it. *)
Lemma add_le_one_step (acc c : float64) (k : Z) :
  0 <= k ->
  good acc -> (fval acc <= IZR (Z.min k (2 ^ 53)))%R ->
  good c -> (fval c <= 1)%R ->
  good (acc + c) /\ (fval (acc + c) <= IZR (Z.min (k + 1) (2 ^ 53)))%R.
Proof.
  intros Hk Gacc Lacc Gc Lc.
  destruct (Z_lt_le_dec (k + 1) (2 ^ 53)) as [Hs|Hs].
  - destruct (float64_of_int_exact (k + 1) ltac:(lia)) as (_ & EB & PB).
    destruct (fadd_le acc c (float64_of_int (k + 1)) Gacc Gc (PB ltac:(lia)))
      as (G' & _ & L').
    { rewrite EB, plus_IZR. rewrite Z.min_l in Lacc by lia. lra. }
    rewrite EB in L'. rewrite Z.min_l by lia. tauto.
  - rewrite Z.min_r by lia. rewrite <- fval_two_53.
    change (fval 9007199254740992) with (fval (9007199254740992 + 1)).
    apply (fadd_mono acc c 9007199254740992 1); try assumption.
    + right. now exists (2 ^ 52)%positive, 1.
    + right. now exists (2 ^ 52)%positive, (-52).
    + rewrite fval_two_53. eapply Rle_trans; [exact Lacc|]. apply IZR_le. lia.
    + now rewrite fval_one.
    + now exists (2 ^ 52)%positive, 1.
Qed.

(** The running sum of confidences stays at most the number of terms and at
    most 2^53. *)
Lemma total_confidence_bound (cs : list float64) (acc : float64) (k : Z) :
  Forall (fun c => good c /\ (fval c <= 1)%R) cs ->
  0 <= k ->
  good acc -> (fval acc <= IZR (Z.min k (2 ^ 53)))%R ->
  good (fold_left PrimFloat.add cs acc)
  /\ (fval (fold_left PrimFloat.add cs acc)
      <= IZR (Z.min (k + Z.of_nat (length cs)) (2 ^ 53)))%R.
Proof.
  intros Hcs. revert acc k.
  induction Hcs as [|c cs [Gc Lc] _ IH]; intros acc k Hk Gacc Lacc.
  - cbn [fold_left length]. rewrite Z.add_0_r. tauto.
  - cbn [fold_left length]. rewrite Nat2Z.inj_succ.
    replace (k + Z.succ (Z.of_nat (length cs))) with (k + 1 + Z.of_nat (length cs)) by lia.
    destruct (add_le_one_step acc c k Hk Gacc Lacc Gc Lc) as [G' L'].
    apply IH; [lia | exact G' | exact L'].
Qed.

(** 0.7 + 0.3, as binary64 numbers, is below 1 as a real number. *)
Lemma weights_sum : (fval 0.7 + fval 0.3 <= 1)%R.
Proof.
  unfold fval.
  change (Prim2SF 0.7) with (S754_finite false 6305039478318694 (-53)).
  change (Prim2SF 0.3) with (S754_finite false 5404319552844595 (-54)).
  cbn [Round64.SFval]. unfold Round64.mval.
  assert (H1 : (Round64.pow2 1 = 2)%R) by (unfold Round64.pow2; simpl; ring).
  replace (Round64.pow2 (-53)) with (2 * Round64.pow2 (-54))%R
    by (change (-53) with (1 + -54); now rewrite Round64Facts.pow2_add, H1).
  assert (H : (Round64.pow2 (-54) * IZR (2 ^ 54) = 1)%R).
  { rewrite <- Round64Facts.pow2_IZR by lia. rewrite <- Round64Facts.pow2_add. reflexivity. }
  change (2 ^ 54) with 18014398509481984 in H.
  pose proof (Round64Facts.pow2_pos (-54)). lra.
Qed.

Lemma filter_length_bound {A : Type} (f : A -> bool) (l : list A) :
  (length (List.filter f l) <= length l)%nat.
Proof.
  induction l as [|x l IH]; cbn [List.filter length]; [lia|].
  destruct (f x); cbn [length]; lia.
Qed.

Lemma checkBackdoor_loop_good (avg features : list float64) :
  forall (i : nat) (score : float64) (k : Z),
    0 <= k -> good score -> (fval score <= IZR (Z.min k (2 ^ 53)))%R ->
    good (detect.checkBackdoor_loop avg i features score).
Proof.
  induction features as [|f rest IH]; intros i score k Hk G L; cbn [detect.checkBackdoor_loop].
  - exact G.
  - destruct (gt _ _).
    + assert (G1 : good 0.1) by (right; vm_compute; eauto).
      assert (L1 : (fval 0.1 <= 1)%R).
      { rewrite <- fval_one. apply le_fval; [exact G1 | right; vm_compute; eauto | reflexivity]. }
      destruct (add_le_one_step score 0.1 k Hk G L G1 L1) as [G' L'].
      apply (IH (S i) _ (k + 1)); [lia | exact G' | exact L'].
    + apply (IH (S i) _ k); assumption.
Qed.

Lemma outliers_bound (test : float64 -> bool) (features : list float64) :
  forall outliers : Z,
    outliers
    <= fold_left (fun outliers f => if test f then outliers + 1 else outliers)
                 features outliers
    <= outliers + Z.of_nat (length features).
Proof.
  induction features as [|f rest IH]; intros c; cbn [fold_left length]; [lia|].
  rewrite Nat2Z.inj_succ.
  destruct (test f); [specialize (IH (c + 1)) | specialize (IH c)]; lia.
Qed.

(** The largest z-score seen so far is [+0], positive and finite, or
    [+infinity]. *)
Lemma maxZScore_shape (stdDev mean : float64) (features : list float64) :
  forall maxZScore : float64,
    Round64.nonneg_shape (Prim2SF maxZScore) ->
    Round64.nonneg_shape
      (Prim2SF
         (fold_left
            (fun maxZScore f =>
               if gt stdDev 0%float then
                 let zScore := (Abs (f - mean) / stdDev)%float in
                 if gt zScore maxZScore then zScore else maxZScore
               else maxZScore)
            features maxZScore)).
Proof.
  induction features as [|f rest IH]; intros maxZ H; cbn [fold_left]; [exact H|].
  apply IH. destruct (gt stdDev 0); [|exact H]. cbv zeta.
  destruct (gt _ maxZ) eqn:E; [|exact H].
  unfold gt in E. rewrite FloatAxioms.ltb_spec in E. unfold SFltb in E.
  destruct H as [[Hz|(m & e & Hz)]|Hz]; rewrite Hz in E;
    destruct (Prim2SF (Abs (f - mean) / stdDev)) as [[|]|[|]| |[|] mz ez];
    cbn in E; try discriminate;
    first [ now right | left; right; eauto ].
Qed.

Lemma checkBackdoor_good (d : detect.Detector) (sample : Sample) :
  good (detect.checkBackdoor d sample)
  /\ (fval (detect.checkBackdoor d sample) <= 1)%R.
Proof.
  unfold detect.checkBackdoor. apply clamp_good. left.
  apply (checkBackdoor_loop_good _ _ 0%nat 0%float 0); [lia | now left |].
  unfold fval. change (Prim2SF 0) with (S754_zero false).
  change (Z.min 0 (2 ^ 53)) with 0. cbn [Round64.SFval]. lra.
Qed.

Lemma checkFeaturePoison_good (d : detect.Detector) (sample : Sample) :
  good (detect.checkFeaturePoison d sample)
  /\ (fval (detect.checkFeaturePoison d sample) <= 1)%R.
Proof.
  unfold detect.checkFeaturePoison. apply clamp_good. cbv zeta.
  rewrite FloatAxioms.div_spec.
  change (Prim2SF 5) with (S754_finite false 5629499534213120 (-50)).
  apply Round64Facts.SFdiv_shape_pos, maxZScore_shape. left. now left.
Qed.

(** When the gradient-outlier score is a number it is [+0] or positive and
    finite, and at most 1. *)
Lemma checkGradientPoison_good (d : detect.Detector) (sample : Sample) :
  F64.is_num (detect.checkGradientPoison d sample) ->
  good (detect.checkGradientPoison d sample)
  /\ (fval (detect.checkGradientPoison d sample) <= 1)%R.
Proof.
  unfold detect.checkGradientPoison. cbv zeta.
  set (mean := detect.calculateMean (Features sample)).
  set (stdDev := detect.calculateStdDev (Features sample) mean).
  pose proof (outliers_bound
                (fun f => gt stdDev 0%float && gt (Abs (f - mean) / stdDev)%float 2.0%float)
                (Features sample) 0) as Hb.
  cbv beta in Hb. set (outliers := fold_left _ (Features sample) 0) in *.
  set (n := Z.of_nat (length (Features sample))) in *.
  set (score := (float64_of_int outliers / float64_of_int n * 2)%float).
  intros Hnum. apply clamp_good.
  assert (Hs : F64.is_num score).
  { unfold F64.is_num. destruct (PrimFloat.eqb score score) eqn:E; [reflexivity|].
    rewrite (Min_one_nan score E) in Hnum. discriminate Hnum. }
  unfold F64.is_num in Hs. rewrite FloatAxioms.eqb_spec in Hs.
  subst score. rewrite FloatAxioms.mul_spec, FloatAxioms.div_spec in *.
  change (Prim2SF 2) with (S754_finite false (2 ^ 52) (-51)) in *.
  destruct (Round64Facts.SFdiv_shape _ _ (float64_of_int_good outliers ltac:(lia))
              (float64_of_int_good n ltac:(lia))) as [S|N].
  - now apply Round64Facts.SFmul_shape.
  - rewrite N in Hs. discriminate Hs.
Qed.

(** The Confidence of every verdict, under any thresholds, is [+0] or a
    positive finite number, and at most 1. *)
Lemma analyzeSample_confidence (d : detect.Detector) (sample : Sample) :
  let c := detect.PoisonedSample.Confidence (detect.analyzeSample d sample) in
  good c /\ (fval c <= 1)%R.
Proof.
  unfold detect.analyzeSample, detect.flag.
  destruct (gt (detect.checkFeaturePoison d sample) _) eqn:Ef;
    cbn [detect.PoisonedSample.Confidence].
  { apply checkFeaturePoison_good. }
  destruct (gt (detect.checkGradientPoison d sample) _) eqn:Eg;
    cbn [detect.PoisonedSample.Confidence].
  { apply checkGradientPoison_good. now apply gt_num_l in Eg. }
  destruct (gt (detect.checkLabelFlip d sample) _) eqn:El;
    cbn [detect.PoisonedSample.Confidence].
  { change (detect.checkLabelFlip d sample) with 0%float.
    split; [now left|]. unfold fval. change (Prim2SF 0) with (S754_zero false).
    cbn. lra. }
  destruct (gt (detect.checkBackdoor d sample) _) eqn:Eb;
    cbn [detect.PoisonedSample.Confidence].
  { apply checkBackdoor_good. }
  split; [now left|]. unfold fval. change (Prim2SF 0) with (S754_zero false).
  cbn. lra.
Qed.

(** C3: for every detector and every sample sequence (a Go slice: its
    length is an [int], so below 2^63), the result of [Detect] satisfies
    0 <= PoisonedCount <= SampleCount and 0 <= RiskScore <= 1, the
    comparisons of RiskScore being those of float64. *)
Theorem Detect_bounds :
  forall (d : detect.Detector) (samples : list Sample),
    Z.of_nat (length samples) < 2 ^ 63 ->
    let r := detect.Detect d samples in
    0 <= detect.DetectionResult.PoisonedCount r <= detect.DetectionResult.SampleCount r
    /\ PrimFloat.leb 0 (detect.DetectionResult.RiskScore r) = true
    /\ PrimFloat.leb (detect.DetectionResult.RiskScore r) 1 = true.
Proof.
  intros d samples Hlen r. subst r. rewrite Detect_unfold. cbv zeta.
  cbn [detect.DetectionResult.PoisonedCount detect.DetectionResult.SampleCount
       detect.DetectionResult.RiskScore].
  set (verdicts := map (detect.analyzeSample d) samples).
  set (count := Z.of_nat (length (List.filter detect.PoisonedSample.IsPoisoned verdicts))).
  set (n := Z.of_nat (length samples)) in *.
  assert (Hcount : 0 <= count <= n).
  { subst count n. pose proof (filter_length_bound detect.PoisonedSample.IsPoisoned verdicts) as H.
    subst verdicts. rewrite length_map in H. lia. }
  split; [exact Hcount|].
  unfold detect.calculateRiskScore.
  cbn [detect.DetectionResult.PoisonedCount detect.DetectionResult.SampleCount
       detect.DetectionResult.Samples].
  destruct (Z.eqb_spec n 0) as [E0|Hn]; [split; reflexivity|].
  (* the conversions are monotone, and float64(n) is positive and finite *)
  destruct (float64_of_int_mono count n Hcount Hlen) as (Gc & Vc).
  pose proof (float64_of_int_pos n ltac:(lia)) as Pn.
  (* ratio <= 1 *)
  destruct (fdiv_le_one (float64_of_int count) (float64_of_int n) Gc Pn Vc)
    as (Gr & _ & Vr).
  set (ratio := (float64_of_int count / float64_of_int n)%float) in *.
  (* ratio * 0.7 <= 0.7 *)
  assert (P7 : posfin 0.7) by (vm_compute; eauto).
  assert (P3 : posfin 0.3) by (vm_compute; eauto).
  assert (P1 : posfin 1) by (vm_compute; eauto).
  pose proof (good_fval_nonneg _ (posfin_good _ P7)) as N7.
  pose proof (good_fval_nonneg _ (posfin_good _ P3)) as N3.
  pose proof (good_fval_nonneg _ Gr) as Nr.
  destruct (fmul_le ratio 0.7 0.7 Gr (posfin_good _ P7) P7) as (Ga & _ & Va);
    [nra|].
  (* the sum of the confidences is at most float64(n) *)
  rewrite fold_left_add_map.
  destruct (total_confidence_bound
              (map detect.PoisonedSample.Confidence verdicts) 0%float 0)
    as (Gt & Vt).
  { subst verdicts. rewrite map_map. apply Forall_map, Forall_forall.
    intros sample _. apply analyzeSample_confidence. }
  { lia. }
  { now left. }
  { unfold fval. change (Prim2SF 0) with (S754_zero false).
    change (Z.min 0 (2 ^ 53)) with 0. cbn [Round64.SFval]. lra. }
  assert (Hl : length (map detect.PoisonedSample.Confidence verdicts) = length samples)
    by (subst verdicts; now rewrite !length_map).
  rewrite Hl in Vt. fold n in Vt. rewrite Z.add_0_l in Vt.
  set (total := fold_left PrimFloat.add _ 0%float) in *.
  assert (Vtn : (fval total <= fval (float64_of_int n))%R).
  { eapply Rle_trans; [exact Vt|].
    destruct (Z_lt_le_dec n (2 ^ 53)) as [Hs|Hs].
    - destruct (float64_of_int_exact n ltac:(lia)) as (_ & -> & _).
      apply IZR_le. lia.
    - rewrite Z.min_r by lia. rewrite <- fval_two_53.
      change 9007199254740992%float with (float64_of_int (2 ^ 53)).
      now apply float64_of_int_mono. }
  (* avgConfidence <= 1 *)
  destruct (fdiv_le_one total (float64_of_int n) Gt Pn Vtn) as (Gv & _ & Vv).
  set (avg := (total / float64_of_int n)%float) in *.
  pose proof (good_fval_nonneg _ Gv) as Nv.
  destruct (fmul_le avg 0.3 0.3 Gv (posfin_good _ P3) P3) as (Gb & _ & Vb);
    [nra|].
  (* the weighted sum is at most 1 *)
  destruct (fadd_le (ratio * 0.7)%float (avg * 0.3)%float 1 Ga Gb P1) as (Gs & Ls & _).
  { rewrite fval_one. pose proof weights_sum. lra. }
  split; [now apply good_le_zero | exact Ls].
Qed.

(** The bounds on two samples, the second flagged as a backdoor. *)
Lemma Detect_bounds_witness :
  let samples :=
    [ mkSample "s1" [1; 2; 3]%float 0 None;
      mkSample "s2" [10; 10; 10; 10; 10; 10; 10; 10]%float 1 None ] in
  let r := detect.Detect detect.NewDetector samples in
  Z.of_nat (length samples) < 2 ^ 63
  /\ 0 <= detect.DetectionResult.PoisonedCount r <= detect.DetectionResult.SampleCount r
  /\ PrimFloat.leb 0 (detect.DetectionResult.RiskScore r) = true
  /\ PrimFloat.leb (detect.DetectionResult.RiskScore r) 1 = true.
Proof.
  intros samples r. split; [reflexivity|].
  apply (Detect_bounds detect.NewDetector samples). reflexivity.
Defined.

Example Detect_two_samples :
  let r := detect.Detect detect.NewDetector
             [ mkSample "s1" [1; 2; 3]%float 0 None;
               mkSample "s2" [10; 10; 10; 10; 10; 10; 10; 10]%float 1 None ] in
  detect.DetectionResult.PoisonedCount r = 1
  /\ detect.DetectionResult.SampleCount r = 2
  /\ detect.DetectionResult.RiskScore r = 0.46999999999999997%float.
Proof. vm_compute. repeat split. Qed.

(** * The scorers on samples with features

    Supporting facts for C2: the backdoor, label-likelihood and
    feature-outlier scorers return a value in [0, 1] on every sample, and the
    gradient-outlier scorer does on every sample that has a feature. *)

Lemma fdiv_nonneg (x y : float64) : F64.le 0 x -> posfin y -> F64.le 0 (x / y).
Proof.
  unfold F64.le. rewrite !FloatAxioms.leb_spec, FloatAxioms.div_spec.
  change (Prim2SF 0) with (S754_zero false).
  intros H (m & e & ->). now apply Round64Facts.SFdiv_nonneg.
Qed.

Lemma clamp_in_unit (x : float64) : F64.le 0 x -> F64.in_unit (Min x 1).
Proof.
  intros H. split; [now apply F64Facts.Min_one_ge|].
  apply F64Facts.Min_one_le. now apply F64Facts.le_num_r with 0%float.
Qed.

Lemma checkBackdoor_in_unit (d : detect.Detector) (sample : Sample) :
  F64.in_unit (detect.checkBackdoor d sample).
Proof.
  unfold detect.checkBackdoor. apply clamp_in_unit, good_le_zero.
  apply (checkBackdoor_loop_good _ _ 0%nat 0%float 0); [lia | now left |].
  unfold fval. change (Prim2SF 0) with (S754_zero false).
  change (Z.min 0 (2 ^ 53)) with 0. cbn [Round64.SFval]. lra.
Qed.

Lemma maxZScore_nonneg (stdDev mean : float64) (features : list float64) :
  forall maxZScore : float64,
    F64.le 0 maxZScore ->
    F64.le 0
      (fold_left
         (fun maxZScore f =>
            if gt stdDev 0%float then
              let zScore := (Abs (f - mean) / stdDev)%float in
              if gt zScore maxZScore then zScore else maxZScore
            else maxZScore)
         features maxZScore).
Proof.
  induction features as [|f rest IH]; intros maxZ H; cbn [fold_left]; [exact H|].
  apply IH. destruct (gt stdDev 0); [|exact H]. cbv zeta.
  destruct (gt _ maxZ) eqn:E; [|exact H].
  apply F64Facts.lt_le. now apply F64Facts.le_lt_trans with maxZ.
Qed.

Lemma checkFeaturePoison_in_unit (d : detect.Detector) (sample : Sample) :
  F64.in_unit (detect.checkFeaturePoison d sample).
Proof.
  unfold detect.checkFeaturePoison. apply clamp_in_unit, fdiv_nonneg.
  - apply maxZScore_nonneg. reflexivity.
  - vm_compute. eauto.
Qed.

Lemma checkGradientPoison_in_unit (d : detect.Detector) (sample : Sample) :
  Features sample <> [] ->
  Z.of_nat (length (Features sample)) < 2 ^ 63 ->
  F64.in_unit (detect.checkGradientPoison d sample).
Proof.
  intros Hne Hlen. unfold detect.checkGradientPoison. cbv zeta.
  set (mean := detect.calculateMean (Features sample)).
  set (stdDev := detect.calculateStdDev (Features sample) mean).
  pose proof (outliers_bound
                (fun f => gt stdDev 0%float && gt (Abs (f - mean) / stdDev)%float 2.0%float)
                (Features sample) 0) as Hb.
  cbv beta in Hb. set (outliers := fold_left _ (Features sample) 0) in *.
  set (n := Z.of_nat (length (Features sample))) in *.
  assert (Hn : 0 < n).
  { subst n. destruct (Features sample); [congruence | cbn [length]; lia]. }
  destruct (float64_of_int_mono outliers n ltac:(lia) Hlen) as [Go Vo].
  pose proof (float64_of_int_pos n ltac:(lia)) as Pn.
  destruct (fdiv_le_one _ _ Go Pn Vo) as (Gr & _ & Vr).
  assert (P2 : posfin 2) by (vm_compute; eauto).
  pose proof (good_fval_nonneg _ (posfin_good _ P2)) as N2.
  pose proof (good_fval_nonneg _ Gr) as Nr.
  destruct (fmul_le _ 2 2 Gr (posfin_good _ P2) P2) as (Gs & _ & _); [nra|].
  apply clamp_in_unit, good_le_zero. exact Gs.
Qed.

(** X1: the backdoor, label-likelihood and feature-outlier scorers return
    a value in [0, 1] on every sample; the gradient-outlier scorer does on
    every sample with at least one feature. *)
Theorem scorers_in_unit :
  forall (d : detect.Detector) (sample : Sample),
    F64.in_unit (detect.checkBackdoor d sample)
    /\ F64.in_unit (detect.checkLabelFlip d sample)
    /\ F64.in_unit (detect.checkFeaturePoison d sample)
    /\ (Features sample <> [] ->
        Z.of_nat (length (Features sample)) < 2 ^ 63 ->
        F64.in_unit (detect.checkGradientPoison d sample)).
Proof.
  intros d sample.
  split; [apply checkBackdoor_in_unit|].
  split; [split; reflexivity|].
  split; [apply checkFeaturePoison_in_unit|].
  apply checkGradientPoison_in_unit.
Qed.

(** * Further properties of the defenses and of the detector *)

(** * RecommendDefense and the catalog *)

(** X2: whatever the risk (NaN included), [RecommendDefense] names one of
    five strategies of the catalog, never "Input Filtering", and [Defend]
    with the recommended name succeeds for every risk and reports that
    name. *)
Theorem RecommendDefense_in_catalog :
  forall risk risk' : float64,
    let name := defend.RecommendDefense risk in
    In name ["Adversarial Training"; "Ensemble Defense"; "Robust Aggregation";
             "Data Cleaning"; "Outlier Detection"]
    /\ defend.Success (defend.Defend defend.NewDefender risk' name) = true
    /\ defend.StrategyUsed (defend.Defend defend.NewDefender risk' name) = name.
Proof.
  intros risk risk' name. subst name. unfold defend.RecommendDefense.
  destruct (gt risk 0.7); [|destruct (gt risk 0.5); [|destruct (gt risk 0.3);
    [|destruct (gt risk 0.1)]]].
  all: split; [cbn; tauto|].
  all: split; reflexivity.
Qed.

(** * ApplyDefense *)

Lemma lookup_strategy_other (name : string) :
  name <> "Data Cleaning" -> name <> "Input Filtering" -> name <> "Outlier Detection" ->
  match defend.lookup_strategy (defend.strategies defend.NewDefender) name with
  | Some strat =>
      defend.Type_ strat <> "preprocessing" /\ defend.Type_ strat <> "filtering"
      /\ defend.Type_ strat <> "detection"
  | None => True
  end.
Proof.
  intros H1 H2 H3. unfold defend.NewDefender.
  cbn [defend.strategies defend.lookup_strategy defend.Name].
  repeat match goal with
    | |- context [String.eqb ?a name] =>
        destruct (String.eqb_spec a name); [try congruence; cbn; repeat split; discriminate|]
    end.
  exact I.
Qed.

Lemma applyStrategy_other (d : defend.Defender) (samples : list Sample)
      (strat : defend.DefenseStrategy) :
  defend.Type_ strat <> "preprocessing" /\ defend.Type_ strat <> "filtering"
  /\ defend.Type_ strat <> "detection" ->
  forall store : Store,
    defend.applyStrategy d samples strat store = Returned (samples, store).
Proof.
  intros (T1 & T2 & T3) store. unfold defend.applyStrategy.
  destruct (String.eqb_spec (defend.Type_ strat) "preprocessing"); [contradiction|].
  destruct (String.eqb_spec (defend.Type_ strat) "filtering"); [contradiction|].
  destruct (String.eqb_spec (defend.Type_ strat) "detection"); [contradiction|].
  reflexivity.
Qed.

(** X3: [ApplyDefense] hands back the samples unchanged for every strategy
    name other than "Data Cleaning", "Input Filtering" and "Outlier
    Detection": for a name that is not in the catalog, and for "Robust
    Aggregation", "Adversarial Training" and "Ensemble Defense", whose
    categories [applyStrategy] does not handle.  No map is written. *)
Theorem ApplyDefense_unchanged :
  forall (samples : list Sample) (name : string) (store : Store),
    name <> "Data Cleaning" -> name <> "Input Filtering" -> name <> "Outlier Detection" ->
    defend.ApplyDefense defend.NewDefender samples name store
    = Returned (samples, store).
Proof.
  intros samples name store H1 H2 H3. unfold defend.ApplyDefense.
  pose proof (lookup_strategy_other name H1 H2 H3) as H.
  destruct (defend.lookup_strategy _ name) as [strat|]; [|reflexivity].
  now apply applyStrategy_other.
Qed.

Lemma ApplyDefense_unchanged_witness :
  let samples := [mkSample "s1" [1; 200]%float 0 None] in
  defend.ApplyDefense defend.NewDefender samples "Ensemble Defense" ∅
  = Returned (samples, ∅).
Proof.
  intros samples.
  apply (ApplyDefense_unchanged samples "Ensemble Defense" ∅); discriminate.
Defined.

(** X4: for a risk above 0.3 the strategy that [RecommendDefense] names
    leaves the data as it is: [ApplyDefense] with it returns the samples
    unchanged. *)
Theorem ApplyDefense_recommended :
  forall (samples : list Sample) (risk : float64) (store : Store),
    gt risk 0.3 = true ->
    defend.ApplyDefense defend.NewDefender samples (defend.RecommendDefense risk) store
    = Returned (samples, store).
Proof.
  intros samples risk store H. unfold defend.RecommendDefense. rewrite H.
  destruct (gt risk 0.7); [reflexivity|]. destruct (gt risk 0.5); reflexivity.
Qed.

Lemma ApplyDefense_recommended_witness :
  let samples := [mkSample "s1" [1; 200]%float 0 None] in
  gt 0.4 0.3 = true
  /\ defend.ApplyDefense defend.NewDefender samples (defend.RecommendDefense 0.4) ∅
     = Returned (samples, ∅).
Proof.
  intros samples. split; [reflexivity|].
  apply (ApplyDefense_recommended samples 0.4%float ∅). reflexivity.
Defined.

(** * Data cleaning *)

Lemma cleanData_filter (d : defend.Defender) (samples : list Sample) :
  defend.cleanData d samples
  = List.filter (fun sample => negb (defend.isSuspicious d sample)) samples.
Proof. unfold defend.cleanData. now rewrite fold_left_append_filter. Qed.

Lemma filter_idem {A : Type} (p : A -> bool) (l : list A) :
  List.filter p (List.filter p l) = List.filter p l.
Proof.
  induction l as [|a l IH]; cbn; [reflexivity|].
  destruct (p a) eqn:E; cbn; rewrite ?E, IH; reflexivity.
Qed.

Lemma filter_comm {A : Type} (p q : A -> bool) (l : list A) :
  List.filter p (List.filter q l) = List.filter q (List.filter p l).
Proof.
  induction l as [|a l IH]; cbn; [reflexivity|].
  destruct (p a) eqn:Ep, (q a) eqn:Eq'; cbn; rewrite ?Ep, ?Eq', IH; reflexivity.
Qed.

(** X5: [ApplyDefense] with "Data Cleaning" returns, in the original order
    and unchanged, exactly the samples that [isSuspicious] does not flag; a
    sample without features is never flagged, so it is kept (input filtering
    removes it).  No map is written. *)
Theorem ApplyDefense_cleaning :
  forall (samples : list Sample) (store : Store),
    defend.ApplyDefense defend.NewDefender samples "Data Cleaning" store
    = Returned (List.filter (fun sample => negb (defend.isSuspicious defend.NewDefender sample))
                            samples,
                store)
    /\ (forall sample, Features sample = [] ->
          defend.isSuspicious defend.NewDefender sample = false
          /\ defend.isValidInput defend.NewDefender sample = false).
Proof.
  intros samples store. split.
  - unfold defend.ApplyDefense. cbn [defend.lookup_strategy defend.strategies defend.NewDefender].
    cbn. unfold defend.applyStrategy. cbn. now rewrite cleanData_filter.
  - intros sample E. unfold defend.isSuspicious, defend.isValidInput. rewrite E. split; reflexivity.
Qed.

(** X6: data cleaning and input filtering commute: either order returns
    the samples that are neither suspicious nor invalid. *)
Theorem cleaning_filtering_commute :
  forall (samples : list Sample) (store : Store),
    then_apply defend.NewDefender "Input Filtering"
      (defend.ApplyDefense defend.NewDefender samples "Data Cleaning" store)
    = then_apply defend.NewDefender "Data Cleaning"
        (defend.ApplyDefense defend.NewDefender samples "Input Filtering" store).
Proof.
  intros samples store.
  assert (Ec : forall l st, defend.ApplyDefense defend.NewDefender l "Data Cleaning" st
                            = Returned (defend.cleanData defend.NewDefender l, st))
    by reflexivity.
  assert (Ef : forall l st, defend.ApplyDefense defend.NewDefender l "Input Filtering" st
                            = Returned (defend.filterInputs defend.NewDefender l, st))
    by reflexivity.
  rewrite Ec, Ef. cbn [then_apply]. rewrite Ec, Ef.
  rewrite !cleanData_filter, !filterInputs_filter. do 2 f_equal. apply filter_comm.
Qed.

(** * Outlier detection leaves the data in place *)

Lemma isOutlier_features (d d' : defend.Defender) (s s' : Sample) :
  Features s = Features s' -> defend.isOutlier d s = defend.isOutlier d' s'.
Proof. unfold defend.isOutlier. now intros ->. Qed.

(** Marking the outliers a second time writes what is there already. *)
Lemma annotate_idem (d : defend.Defender) (samples : list Sample) (store : Store) :
  spec.annotate d samples (spec.annotate d samples store)
  = spec.annotate d samples store.
Proof.
  apply map_eq. intros r. rewrite annotate_lookup.
  destruct (spec.flagged d samples r) eqn:F; [|reflexivity].
  unfold contents at 1. rewrite annotate_lookup, F.
  unfold default. cbn [from_option]. unfold Datatypes.id. now rewrite insert_insert_eq.
Qed.

(** X7: when [ApplyDefense] with "Outlier Detection" returns, it returns
    the slice that it was given: the same samples in the same order, each
    with its ID, Features, Label and Metadata reference; it removes nothing.
    What it changes is the maps.  In every map that a flagged sample refers
    to, "suspicious" is true and every other key keeps its value; a map that
    no flagged sample refers to is as it was.  The write goes through the
    reference: a sample that is not flagged but shares its map with a flagged
    one shows "suspicious" too. *)
Theorem ApplyDefense_detection_frame :
  forall (samples out : list Sample) (store store' : Store),
    defend.ApplyDefense defend.NewDefender samples "Outlier Detection" store
    = Returned (out, store') ->
    out = samples
    /\ forall r : MapRef,
         if spec.flagged defend.NewDefender samples r then
           contents store' r !! "suspicious" = Some (MBool true)
           /\ (forall key, key <> "suspicious" ->
                 contents store' r !! key = contents store r !! key)
         else store' !! r = store !! r.
Proof.
  intros samples out store store' H.
  change (defend.ApplyDefense defend.NewDefender samples "Outlier Detection" store)
    with (defend.detectOutliers defend.NewDefender samples store) in H.
  unfold defend.detectOutliers in H.
  destruct (defend.detectOutliers_loop defend.NewDefender samples store) as [st|] eqn:E;
    [|discriminate].
  injection H as <- <-. split; [reflexivity|].
  intros r. pose proof (detectOutliers_loop_lookup _ _ _ _ E r) as L.
  destruct (spec.flagged defend.NewDefender samples r); [|exact L].
  assert (C : contents st r = <["suspicious" := MBool true]> (contents store r))
    by (unfold contents at 1; now rewrite L).
  rewrite C. split.
  - apply lookup_insert_eq.
  - intros key Hk. now apply lookup_insert_ne.
Qed.

Lemma ApplyDefense_detection_frame_witness :
  let outlier := mkSample "s1" [0; 0; 0; 0; 0; 0; 0; 0; 1]%float 0 (Some 1%positive) in
  let other := mkSample "s2" [1; 2; 3]%float 0 (Some 1%positive) in
  let store : Store := {[ 1%positive := {[ "source" := MString "upload" ]} ]} in
  defend.isOutlier defend.NewDefender other = false
  /\ exists store',
       defend.ApplyDefense defend.NewDefender [outlier; other] "Outlier Detection" store
       = Returned ([outlier; other], store')
       /\ contents store' 1 !! "suspicious" = Some (MBool true)
       /\ contents store' 1 !! "source" = Some (MString "upload").
Proof.
  intros outlier other store. split; [reflexivity|].
  eexists. split; [reflexivity|].
  destruct (ApplyDefense_detection_frame [outlier; other] [outlier; other] store _ eq_refl)
    as [_ F].
  specialize (F 1%positive). cbn in F. destruct F as [F1 F2].
  split; [exact F1|]. rewrite F2; [reflexivity | discriminate].
Defined.

(** X8: applying a defense a second time changes nothing: for every
    strategy name, if [ApplyDefense] returns [out] on some samples then it
    returns [out] again on [out], and the maps stay as the first call left
    them. *)
Theorem ApplyDefense_idempotent :
  forall (samples out : list Sample) (name : string) (store store' : Store),
    defend.ApplyDefense defend.NewDefender samples name store = Returned (out, store') ->
    defend.ApplyDefense defend.NewDefender out name store' = Returned (out, store').
Proof.
  intros samples out name store store'.
  destruct (String.eqb_spec name "Data Cleaning") as [->|N1].
  { change (defend.ApplyDefense defend.NewDefender ?l "Data Cleaning" ?st)
      with (Returned (defend.cleanData defend.NewDefender l, st)).
    intros [= <- <-]. do 2 f_equal. rewrite !cleanData_filter. apply filter_idem. }
  destruct (String.eqb_spec name "Input Filtering") as [->|N2].
  { change (defend.ApplyDefense defend.NewDefender ?l "Input Filtering" ?st)
      with (Returned (defend.filterInputs defend.NewDefender l, st)).
    intros [= <- <-]. do 2 f_equal. rewrite !filterInputs_filter. apply filter_idem. }
  destruct (String.eqb_spec name "Outlier Detection") as [->|N3].
  { change (defend.ApplyDefense defend.NewDefender ?l "Outlier Detection" ?st)
      with (defend.detectOutliers defend.NewDefender l st).
    intros H. pose proof (detectOutliers_returned_inv _ _ _ _ _ H) as Hm.
    rewrite (detectOutliers_returns _ _ _ Hm) in H. injection H as <- <-.
    rewrite (detectOutliers_returns _ _ _ Hm).
    do 2 f_equal. apply annotate_idem. }
  unfold defend.ApplyDefense.
  pose proof (lookup_strategy_other name N1 N2 N3) as Ho.
  destruct (defend.lookup_strategy _ name) as [strat|]; [|now intros [= <- <-]].
  rewrite !(applyStrategy_other _ _ strat Ho). now intros [= <- <-].
Qed.

Lemma ApplyDefense_idempotent_witness :
  let outlier := mkSample "s1" [0; 0; 0; 0; 0; 0; 0; 0; 1]%float 0 (Some 1%positive) in
  let other := mkSample "s2" [1; 2; 3]%float 0 (Some 1%positive) in
  let marked : Store := {[ 1%positive := {[ "suspicious" := MBool true ]} ]} in
  defend.ApplyDefense defend.NewDefender [outlier; other] "Outlier Detection" marked
  = Returned ([outlier; other], marked).
Proof.
  intros outlier other marked.
  apply (ApplyDefense_idempotent [outlier; other] _ "Outlier Detection" ∅).
  reflexivity.
Defined.

(** * Suspicious samples and outliers *)

Lemma gt_not_feq (x y : float64) : gt x y = true -> feq x y = false.
Proof.
  intros H. unfold feq. destruct (PrimFloat.eqb x y) eqn:E; [|reflexivity].
  exfalso. apply (F64Facts.lt_irrefl y).
  apply F64Facts.lt_le_trans with x; [exact H | now apply F64Facts.eqb_le].
Qed.



(** * CalculateDefenseScore and nil results *)

Lemma score_loop_panics (results : list (option defend.DefenseResult)) :
  forall score,
    (In None results -> defend.score_loop results score = Panicked "nil pointer dereference")
    /\ (~ In None results -> exists total, defend.score_loop results score = Returned total).
Proof.
  induction results as [|[r|] rest IH]; intros score; cbn [defend.score_loop In].
  - split; [tauto | eauto].
  - destruct (IH (if defend.Success r then (score + defend.Improvement r)%float else score))
      as [I1 I2].
    split; [intros [?|?]; [discriminate | auto] | intros H; apply I2; tauto].
  - split; [reflexivity | tauto].
Qed.

Lemma In_None_dec {A : Type} (l : list (option A)) : In None l \/ ~ In None l.
Proof.
  induction l as [|[a|] l IH]; cbn.
  - tauto.
  - destruct IH; [tauto | right; intros [?|?]; [discriminate | tauto]].
  - tauto.
Qed.

(** X10: [CalculateDefenseScore] panics exactly when some result of the
    sequence is a nil pointer (the loop dereferences every result); the empty
    sequence and every sequence without nil return. *)
Theorem CalculateDefenseScore_panics_iff :
  forall results : list (option defend.DefenseResult),
    (In None results <->
     defend.CalculateDefenseScore results = Panicked "nil pointer dereference")
    /\ (~ In None results <->
        exists score, defend.CalculateDefenseScore results = Returned score).
Proof.
  intros results. unfold defend.CalculateDefenseScore.
  destruct results as [|r rest].
  - cbn. split; split; try tauto; try discriminate. eauto.
  - set (l := r :: rest).
    replace (Z.of_nat (length l) =? 0) with false
      by (symmetry; apply Z.eqb_neq; cbn [l length]; lia).
    destruct (score_loop_panics l 0%float) as [P1 P2].
    destruct (In_None_dec l) as [Hin|Hn].
    + rewrite (P1 Hin). split; split; try tauto. intros [s Hs]. discriminate.
    + destruct (P2 Hn) as [t ->]. split; split; try tauto; try discriminate. eauto.
Qed.

(** * Subtraction of a smaller number *)

Lemma mval_sub (a b e : Z) :
  Round64.mval (a - b) e = (Round64.mval a e - Round64.mval b e)%R.
Proof. unfold Round64.mval. rewrite minus_IZR. ring. Qed.

Lemma SFsub_le (mx my : positive) (ex ey : Z) :
  SpecFloat.bounded prec emax mx ex = true ->
  (Round64.mval (Zpos my) ey <= Round64.mval (Zpos mx) ex)%R ->
  Round64.nonneg_finite (SF64sub (S754_finite false mx ex) (S754_finite false my ey))
  /\ SFleb (SF64sub (S754_finite false mx ex) (S754_finite false my ey))
           (S754_finite false mx ex) = true.
Proof.
  intros Hb Hle. unfold SF64sub. cbn [SFsub cond_Zopp].
  set (ez := Z.min ex ey).
  destruct (Round64Facts.shl_align_spec mx ex ez) as [_ Ex].
  destruct (Round64Facts.shl_align_spec my ey ez) as [_ Ey].
  rewrite Z.min_r in Ex by (subst ez; lia).
  rewrite Z.min_r in Ey by (subst ez; lia).
  rewrite Ex, Ey.
  assert (Vx : Round64.mval (Zpos mx * 2 ^ (ex - ez)) ez = Round64.mval (Zpos mx) ex).
  { replace ez with (ex - (ex - ez)) at 2 by lia.
    apply Round64Facts.mval_shift. subst ez. lia. }
  assert (Vy : Round64.mval (Zpos my * 2 ^ (ey - ez)) ez = Round64.mval (Zpos my) ey).
  { replace ez with (ey - (ey - ez)) at 2 by lia.
    apply Round64Facts.mval_shift. subst ez. lia. }
  set (a := Zpos mx * 2 ^ (ex - ez)) in *. set (b := Zpos my * 2 ^ (ey - ez)) in *.
  assert (Hab : b <= a).
  { apply (Round64Facts.mval_same_exp b a ez). rewrite Vx, Vy. exact Hle. }
  pose proof (mval_sub a b ez) as Vd. rewrite Vx, Vy in Vd.
  destruct (a - b) as [|p|p] eqn:Ed; try lia; cbn [binary_normalize].
  - split; [now left | reflexivity].
  - apply Round64Facts.binary_round_le; [exact Hb|].
    rewrite Vd. pose proof (Round64Facts.mval_pos my ey). lra.
Qed.

(** [x - y] for [0 <= y <= x]: between 0 and [x]. *)
Lemma fsub_le (x y : float64) :
  good x -> good y -> (fval y <= fval x)%R ->
  good (x - y) /\ F64.le (x - y) x.
Proof.
  intros Gx Gy Hle. unfold good, F64.le, fval in *.
  rewrite FloatAxioms.leb_spec, FloatAxioms.sub_spec.
  pose proof (Prim2SF_valid x) as Vx.
  destruct Gx as [Ex|(mx & ex & Ex)], Gy as [Ey|(my & ey & Ey)];
    rewrite Ex, Ey in *; cbn [Round64.SFval] in Hle.
  - split; [now left | reflexivity].
  - pose proof (Round64Facts.mval_pos my ey). lra.
  - cbn. split; [right; eauto|]. unfold SFleb. cbn.
    now rewrite Z.compare_refl, Pos.compare_cont_refl.
  - apply SFsub_le; [exact Vx | exact Hle].
Qed.

(** * Defend on a risk in [0, 1] *)

Lemma in_unit_cases (c : float64) :
  F64.in_unit c -> (good c /\ (fval c <= 1)%R) \/ Prim2SF c = S754_zero true.
Proof.
  intros [H0 H1].
  assert (G1 : good 1) by (right; now exists (2 ^ 52)%positive, (-52)).
  unfold F64.le in H0, H1. rewrite FloatAxioms.leb_spec in H0, H1.
  change (Prim2SF 0) with (S754_zero false) in H0.
  change (Prim2SF 1) with (S754_finite false (2 ^ 52) (-52)) in H1.
  assert (F : forall G : good c, good c /\ (fval c <= 1)%R).
  { intros G. split; [exact G|]. rewrite <- fval_one. apply le_fval; [exact G | exact G1 |].
    unfold F64.le. now rewrite FloatAxioms.leb_spec. }
  destruct (Prim2SF c) as [s|s| |s m e] eqn:E; try destruct s; try discriminate.
  - now right.
  - left. apply F. now left.
  - left. apply F. right. eauto.
Qed.

Lemma catalog_effectiveness (strat : defend.DefenseStrategy) :
  In strat (defend.strategies defend.NewDefender) ->
  posfin (defend.Effectiveness strat) /\ (fval (defend.Effectiveness strat) <= 1)%R.
Proof.
  intros H.
  assert (P : posfin (defend.Effectiveness strat)
              /\ F64.le (defend.Effectiveness strat) 1).
  { cbn in H.
    repeat (destruct H as [<- | H]; [split; [vm_compute; eauto | reflexivity]|]).
    destruct H. }
  destruct P as [P L]. split; [exact P|]. rewrite <- fval_one.
  apply le_fval; [now apply posfin_good | right; now exists (2 ^ 52)%positive, (-52) | exact L].
Qed.

(** X11: for a risk in [0, 1] and every strategy name, the result of
    [Defend] has 0 <= Improvement <= risk and 0 <= RiskReduction <= risk:
    a defense never reports a negative residual risk or one above the risk
    it started from. *)
Theorem Defend_bounds :
  forall (risk : float64) (name : string),
    F64.in_unit risk ->
    let r := defend.Defend defend.NewDefender risk name in
    F64.le 0 (defend.Improvement r) /\ F64.le (defend.Improvement r) risk
    /\ F64.le 0 (defend.RiskReduction r) /\ F64.le (defend.RiskReduction r) risk.
Proof.
  intros risk name Hu r. subst r. unfold defend.Defend.
  destruct (defend.lookup_strategy _ name) as [strat|] eqn:El;
    cbn [defend.Improvement defend.RiskReduction].
  2:{ destruct Hu as [H0 _]. repeat split; try reflexivity; exact H0. }
  apply lookup_strategy_Some in El as [Hin _].
  destruct (in_unit_cases risk Hu) as [[G L]|Z].
  - destruct (catalog_effectiveness strat Hin) as [Pe Le].
    destruct G as [Ez|P].
    + assert (E0 : risk = 0%float) by (apply Prim2SF_inj; exact Ez). subst risk.
      cbn in Hin.
      repeat (destruct Hin as [<- | Hin]; [repeat split; reflexivity|]). destruct Hin.
    + assert (G : good risk) by (right; exact P).
      pose proof (good_fval_nonneg _ G) as Nr.
      pose proof (good_fval_nonneg _ (posfin_good _ Pe)) as Ne.
      destruct (fmul_le (defend.Effectiveness strat) risk risk (posfin_good _ Pe) G P)
        as (Gi & Li & Vi); [nra|].
      destruct (fsub_le risk (defend.Effectiveness strat * risk) G Gi Vi) as [Gs Ls].
      repeat split; try assumption; now apply good_le_zero.
  - assert (E0 : risk = (-0)%float) by (apply Prim2SF_inj; exact Z). subst risk.
    cbn in Hin.
    repeat (destruct Hin as [<- | Hin]; [repeat split; reflexivity|]). destruct Hin.
Qed.

Lemma Defend_bounds_witness :
  let r := defend.Defend defend.NewDefender 0.3 "Data Cleaning" in
  F64.in_unit 0.3
  /\ F64.le 0 (defend.Improvement r) /\ F64.le (defend.Improvement r) 0.3
  /\ F64.le 0 (defend.RiskReduction r) /\ F64.le (defend.RiskReduction r) 0.3.
Proof.
  intros r. split; [split; reflexivity|].
  apply (Defend_bounds 0.3 "Data Cleaning"). split; reflexivity.
Defined.

(** * The defense score of improvements in [0, 1] *)

(** Adding [-0] to a number that is [+0] or positive and finite leaves it
    as it is. *)
Lemma add_neg_zero (acc c : float64) :
  good acc -> Prim2SF c = S754_zero true -> (acc + c)%float = acc.
Proof.
  intros G E. apply Prim2SF_inj. rewrite FloatAxioms.add_spec, E.
  destruct G as [->|(m & e & ->)]; reflexivity.
Qed.

Lemma total_bound_unit (cs : list float64) (acc : float64) (k : Z) :
  Forall F64.in_unit cs ->
  0 <= k ->
  good acc -> (fval acc <= IZR (Z.min k (2 ^ 53)))%R ->
  good (fold_left PrimFloat.add cs acc)
  /\ (fval (fold_left PrimFloat.add cs acc)
      <= IZR (Z.min (k + Z.of_nat (length cs)) (2 ^ 53)))%R.
Proof.
  intros Hcs. revert acc k.
  induction Hcs as [|c cs Hc _ IH]; intros acc k Hk Gacc Lacc.
  - cbn [fold_left length]. rewrite Z.add_0_r. tauto.
  - cbn [fold_left length]. rewrite Nat2Z.inj_succ.
    replace (k + Z.succ (Z.of_nat (length cs))) with (k + 1 + Z.of_nat (length cs)) by lia.
    destruct (in_unit_cases c Hc) as [[Gc Lc]|Hz].
    + destruct (add_le_one_step acc c k Hk Gacc Lacc Gc Lc) as [G' L'].
      apply IH; [lia | exact G' | exact L'].
    + rewrite (add_neg_zero acc c Gacc Hz).
      apply IH; [lia | exact Gacc |].
      eapply Rle_trans; [exact Lacc|]. apply IZR_le. lia.
Qed.

(** A sum that is at most [min k 2^53] with [k <= n] is at most
    [float64(n)]. *)
Lemma bound_le_float64_of_int (total : float64) (k n : Z) :
  0 <= k <= n -> n < 2 ^ 63 ->
  (fval total <= IZR (Z.min k (2 ^ 53)))%R ->
  (fval total <= fval (float64_of_int n))%R.
Proof.
  intros Hk Hn Vt. eapply Rle_trans; [exact Vt|].
  destruct (Z_lt_le_dec n (2 ^ 53)) as [Hs|Hs].
  - destruct (float64_of_int_exact n ltac:(lia)) as (_ & -> & _).
    apply IZR_le. lia.
  - apply Rle_trans with (IZR (2 ^ 53)); [apply IZR_le; lia|].
    rewrite <- fval_two_53.
    change 9007199254740992%float with (float64_of_int (2 ^ 53)).
    now apply float64_of_int_mono.
Qed.

(** X12: when the Improvement of every successful result lies in [0, 1],
    [CalculateDefenseScore] returns a score in [0, 1]. *)
Theorem CalculateDefenseScore_bounds :
  forall results : list defend.DefenseResult,
    Z.of_nat (length results) < 2 ^ 63 ->
    (forall r, In r results -> defend.Success r = true ->
               F64.in_unit (defend.Improvement r)) ->
    exists score,
      defend.CalculateDefenseScore (map Some results) = Returned score
      /\ F64.in_unit score.
Proof.
  intros results Hlen Himp. unfold defend.CalculateDefenseScore.
  rewrite score_loop_spec, length_map.
  destruct (Z.eqb_spec (Z.of_nat (length results)) 0) as [E0|Hn].
  { eexists. split; [reflexivity|]. split; reflexivity. }
  eexists. split; [reflexivity|].
  set (n := Z.of_nat (length results)) in *.
  set (cs := map defend.Improvement (List.filter defend.Success results)).
  assert (Hcs : Forall F64.in_unit cs).
  { subst cs. apply Forall_map, Forall_forall. intros r Hr.
    apply list_elem_of_In, List.filter_In in Hr as [Hin Hs]. now apply Himp. }
  destruct (total_bound_unit cs 0%float 0 Hcs ltac:(lia)) as [Gt Vt].
  { now left. }
  { unfold fval. change (Prim2SF 0) with (S754_zero false).
    change (Z.min 0 (2 ^ 53)) with 0. cbn [Round64.SFval]. lra. }
  rewrite Z.add_0_l in Vt.
  assert (Hl : 0 <= Z.of_nat (length cs) <= n).
  { subst cs n. rewrite length_map.
    pose proof (filter_length_bound defend.Success results). lia. }
  pose proof (bound_le_float64_of_int _ _ n Hl Hlen Vt) as Vtn.
  pose proof (float64_of_int_pos n ltac:(lia)) as Pn.
  destruct (fdiv_le_one _ _ Gt Pn Vtn) as (Gv & Lv & _).
  split; [now apply good_le_zero | exact Lv].
Qed.

Lemma CalculateDefenseScore_bounds_witness :
  let results := [defend.Defend defend.NewDefender 0.3 "Data Cleaning";
                  defend.Defend defend.NewDefender 0.3 "No Such Strategy"] in
  exists score,
    defend.CalculateDefenseScore (map Some results) = Returned score
    /\ F64.in_unit score.
Proof.
  intros results. apply (CalculateDefenseScore_bounds results).
  - reflexivity.
  - intros r [<-|[<-|[]]] Hs; [split; reflexivity | discriminate Hs].
Defined.

(** * Bounds of a verdict *)

Lemma good_in_unit (x : float64) : good x -> (fval x <= 1)%R -> F64.in_unit x.
Proof.
  intros G L. split; [now apply good_le_zero|].
  unfold F64.le. rewrite FloatAxioms.leb_spec.
  change (Prim2SF 1) with (S754_finite false (2 ^ 52) (-52)).
  apply Round64Facts.SFleb_val; auto using Prim2SF_valid.
  - right. eauto.
  - cbn [Round64.SFval]. now rewrite Round64Facts.mval_one.
Qed.

Lemma Max_in_unit (x y : float64) :
  F64.in_unit x -> F64.in_unit y -> F64.in_unit (Max x y) /\ F64.le y (Max x y).
Proof.
  intros Hx Hy.
  assert (Nx : F64.is_num x) by (destruct Hx; eauto using F64Facts.le_num_l).
  assert (Ny : F64.is_num y) by (destruct Hy; eauto using F64Facts.le_num_l).
  destruct (F64Facts.Max_spec x y Nx Ny) as [[E|E] [_ L]]; rewrite E in *; tauto.
Qed.

(** Bounds every [Max x y] inside [t], innermost first. *)
Ltac max_units t :=
  lazymatch t with
  | Max ?x ?y =>
      max_units x;
      let H := fresh "M" in
      assert (H : F64.in_unit (Max x y) /\ F64.le y (Max x y))
        by (apply Max_in_unit; tauto);
      destruct H
  | _ => idtac
  end.

(** X13: under any thresholds, every verdict of [analyzeSample] carries the
    sample's ID, a Score and a Confidence in [0, 1], and a Confidence that is
    at most the Score. *)
Theorem analyzeSample_bounds :
  forall (d : detect.Detector) (sample : Sample),
    let v := detect.analyzeSample d sample in
    detect.PoisonedSample.ID v = ID sample
    /\ F64.in_unit (detect.PoisonedSample.Score v)
    /\ F64.in_unit (detect.PoisonedSample.Confidence v)
    /\ F64.le (detect.PoisonedSample.Confidence v) (detect.PoisonedSample.Score v).
Proof.
  intros d sample v. subst v.
  assert (U0 : F64.in_unit 0) by (split; reflexivity).
  pose proof (checkBackdoor_in_unit d sample) as Ub.
  pose proof (checkFeaturePoison_in_unit d sample) as Uf.
  assert (Ul : F64.in_unit (detect.checkLabelFlip d sample)) by (split; reflexivity).
  assert (Ug : forall t, gt (detect.checkGradientPoison d sample) t = true ->
                         F64.in_unit (detect.checkGradientPoison d sample)).
  { intros t Ht. apply gt_num_l in Ht.
    destruct (checkGradientPoison_good d sample Ht). now apply good_in_unit. }
  unfold detect.analyzeSample, detect.flag.
  generalize dependent (detect.checkBackdoor d sample). intros b Ub.
  generalize dependent (detect.checkLabelFlip d sample). intros l Ul.
  generalize dependent (detect.checkFeaturePoison d sample). intros f Uf.
  generalize dependent (detect.checkGradientPoison d sample). intros g Ug.
  assert (R : forall x, F64.in_unit x -> F64.le x x)
    by (intros x [Hx _]; eauto using F64Facts.le_refl, F64Facts.le_num_r).
  destruct (gt b _) eqn:Hb; destruct (gt l _) eqn:Hl;
    destruct (gt g _) eqn:Hg; destruct (gt f _) eqn:Hf;
    cbn [detect.PoisonedSample.ID detect.PoisonedSample.Score
         detect.PoisonedSample.Confidence];
    try (specialize (Ug _ Hg));
    (split; [reflexivity|]);
    match goal with
    | |- F64.in_unit ?s /\ _ => max_units s
    end;
    try pose proof (R _ Ub); try pose proof (R _ U0); clear R;
    unfold F64.in_unit in *; tauto.
Qed.

(** * Detect on a concatenation *)

(** X14: [Detect] works sample by sample: on a concatenation the verdicts
    are those of the two parts in order, SampleCount and PoisonedCount are
    the sums, and IsPoisoned holds when it holds for one part. *)
Theorem Detect_app :
  forall (d : detect.Detector) (xs ys : list Sample),
    let r := detect.Detect d (xs ++ ys) in
    let rx := detect.Detect d xs in
    let ry := detect.Detect d ys in
    detect.DetectionResult.Samples r
    = (detect.DetectionResult.Samples rx ++ detect.DetectionResult.Samples ry)%list
    /\ detect.DetectionResult.SampleCount r
       = detect.DetectionResult.SampleCount rx + detect.DetectionResult.SampleCount ry
    /\ detect.DetectionResult.PoisonedCount r
       = detect.DetectionResult.PoisonedCount rx + detect.DetectionResult.PoisonedCount ry
    /\ detect.DetectionResult.IsPoisoned r
       = detect.DetectionResult.IsPoisoned rx || detect.DetectionResult.IsPoisoned ry.
Proof.
  intros d xs ys r rx ry. subst r rx ry. rewrite !Detect_unfold. cbv zeta.
  cbn [detect.DetectionResult.Samples detect.DetectionResult.SampleCount
       detect.DetectionResult.PoisonedCount detect.DetectionResult.IsPoisoned].
  rewrite map_app, List.filter_app, !length_app, !Nat2Z.inj_add.
  repeat split.
  set (a := Z.of_nat _). set (b := Z.of_nat _).
  assert (0 <= a /\ 0 <= b) by (subst a b; lia).
  destruct (Z.ltb_spec 0 a), (Z.ltb_spec 0 b), (Z.ltb_spec 0 (a + b)); cbn; lia.
Qed.

(** * A result without flagged samples *)

Lemma fold_add_zeros (cs : list float64) :
  Forall (fun c => c = 0%float) cs -> fold_left PrimFloat.add cs 0%float = 0%float.
Proof.
  induction 1 as [|c cs -> _ IH]; cbn [fold_left]; [reflexivity|].
  change (0 + 0)%float with 0%float. exact IH.
Qed.

Lemma zero_div_posfin (y : float64) : posfin y -> (0 / y)%float = 0%float.
Proof.
  intros (m & e & E). apply Prim2SF_inj. rewrite FloatAxioms.div_spec, E. reflexivity.
Qed.

Lemma filter_nil_forall {A : Type} (p : A -> bool) (l : list A) :
  length (List.filter p l) = 0%nat -> Forall (fun a => p a = false) l.
Proof.
  induction l as [|a l IH]; cbn; [constructor|].
  destruct (p a) eqn:E; cbn; [discriminate|]. intros H. constructor; auto.
Qed.

Lemma Detect_count_zero :
  forall (d : detect.Detector) (samples : list Sample),
    Z.of_nat (length samples) < 2 ^ 63 ->
    let r := detect.Detect d samples in
    detect.DetectionResult.PoisonedCount r = 0 ->
    detect.DetectionResult.IsPoisoned r = false
    /\ detect.DetectionResult.RiskScore r = 0%float.
Proof.
  intros d samples Hlen r. subst r. rewrite Detect_unfold. cbv zeta.
  cbn [detect.DetectionResult.PoisonedCount detect.DetectionResult.IsPoisoned
       detect.DetectionResult.RiskScore].
  set (verdicts := map (detect.analyzeSample d) samples).
  intros Hc. rewrite Hc. split; [reflexivity|].
  unfold detect.calculateRiskScore.
  cbn [detect.DetectionResult.PoisonedCount detect.DetectionResult.SampleCount
       detect.DetectionResult.Samples].
  destruct (Z.eqb_spec (Z.of_nat (length samples)) 0) as [E0|Hn]; [reflexivity|].
  pose proof (float64_of_int_pos (Z.of_nat (length samples)) ltac:(lia)) as Pn.
  rewrite fold_left_add_map, fold_add_zeros.
  - change (float64_of_int 0) with 0%float. rewrite (zero_div_posfin _ Pn). reflexivity.
  - apply Forall_map. assert (Hl : length (List.filter detect.PoisonedSample.IsPoisoned verdicts) = 0%nat) by lia.
    apply filter_nil_forall in Hl. subst verdicts. apply Forall_map in Hl.
    apply Forall_map. eapply Forall_impl; [exact Hl|]. cbn. intros s Hs.
    now apply analyzeSample_unpoisoned.
Qed.

(** * The types a verdict can carry *)

(** X15: under the thresholds of [NewDetector] a verdict is flagged exactly
    when it carries a type, and the type is backdoor, gradient_poison or
    feature_poison: no verdict ever carries label_flip or data_poison. *)
Theorem analyzeSample_types :
  forall sample : Sample,
    let v := detect.analyzeSample detect.NewDetector sample in
    (detect.PoisonedSample.IsPoisoned v = false ->
     detect.PoisonedSample.Type_ v = "")
    /\ (detect.PoisonedSample.IsPoisoned v = true ->
        In (detect.PoisonedSample.Type_ v)
           [detect.TypeBackdoor; detect.TypeGradientPoison; detect.TypeFeaturePoison])
    /\ detect.PoisonedSample.Type_ v <> detect.TypeLabelFlip
    /\ detect.PoisonedSample.Type_ v <> detect.TypeDataPoison.
Proof.
  intros sample v. subst v. unfold detect.analyzeSample, detect.flag.
  change (gt (detect.checkLabelFlip detect.NewDetector sample)
             (detect.threshold detect.NewDetector detect.TypeLabelFlip)) with false.
  cbv iota.
  destruct (gt (detect.checkBackdoor _ sample) _);
    destruct (gt (detect.checkGradientPoison _ sample) _);
    destruct (gt (detect.checkFeaturePoison _ sample) _);
    cbn [detect.PoisonedSample.IsPoisoned detect.PoisonedSample.Type_];
    (split; [intros; first [reflexivity | discriminate]|]);
    (split; [intros; first [discriminate | cbn; tauto]|]);
    split; discriminate.
Qed.

(** * The backdoor score counts deviating features *)

(** The loop of [checkBackdoor] adds 0.1 once for every feature that is
    more than 3 away from its half. *)
Lemma checkBackdoor_loop_count (avg : list float64) (features : list float64) :
  forall (i : nat) (score : float64),
    (forall j f, features !! j = Some f -> avg !! (i + j)%nat = Some (f / 2)%float) ->
    detect.checkBackdoor_loop avg i features score
    = Nat.iter (length (List.filter (fun f => gt (Abs (f - f / 2)) 3) features))
               (fun score => (score + 0.1)%float) score.
Proof.
  induction features as [|f rest IH]; intros i score Havg;
    cbn [detect.checkBackdoor_loop List.filter]; [reflexivity|].
  pose proof (Havg 0%nat f eq_refl) as H0. replace (i + 0)%nat with i in H0 by lia.
  rewrite H0. change (default 0%float (Some (f / 2)%float)) with (f / 2)%float.
  rewrite IH.
  - destruct (gt (Abs (f - f / 2)) 3); cbn [length]; [|reflexivity].
    now rewrite Nat.iter_succ_r.
  - intros j g Hj. replace (S i + j)%nat with (i + S j)%nat by lia. now apply Havg.
Qed.

Lemma add_zero_r (x : float64) : good x -> (x + 0)%float = x.
Proof.
  intros G. apply Prim2SF_inj. rewrite FloatAxioms.add_spec.
  change (Prim2SF 0) with (S754_zero false).
  destruct G as [->|(m & e & ->)]; reflexivity.
Qed.

(** Adding 0.1 to a running score never lowers it. *)
Lemma add_tenth_step (score : float64) (k : Z) :
  0 <= k -> good score -> (fval score <= IZR (Z.min k (2 ^ 53)))%R ->
  good (score + 0.1)
  /\ (fval (score + 0.1) <= IZR (Z.min (k + 1) (2 ^ 53)))%R
  /\ (fval score <= fval (score + 0.1))%R.
Proof.
  intros Hk G L.
  assert (G1 : good 0.1) by (right; vm_compute; eauto).
  assert (L1 : (fval 0.1 <= 1)%R).
  { rewrite <- fval_one. apply le_fval; [exact G1 | right; vm_compute; eauto | reflexivity]. }
  destruct (add_le_one_step score 0.1 k Hk G L G1 L1) as [G' L'].
  split; [exact G'|]. split; [exact L'|].
  assert (G0 : good 0) by now left.
  destruct (Round64Facts.SFadd_mono (Prim2SF score) (Prim2SF 0) (Prim2SF score) (Prim2SF 0.1)
              (Prim2SF_valid _) (Prim2SF_valid _) (Prim2SF_valid _) (Prim2SF_valid _)
              G G0 G G1) as [_ M].
  { lra. }
  { change (Round64.SFval (Prim2SF 0)) with 0%R. now apply good_fval_nonneg. }
  rewrite <- !FloatAxioms.add_spec, add_zero_r in M by exact G.
  apply le_fval; [exact G | exact G' |]. unfold F64.le. now rewrite FloatAxioms.leb_spec.
Qed.

Lemma iter_tenth_mono (j : nat) :
  forall (score : float64) (k : Z),
    0 <= k -> good score -> (fval score <= IZR (Z.min k (2 ^ 53)))%R ->
    good (Nat.iter j (fun score => (score + 0.1)%float) score)
    /\ (fval score <= fval (Nat.iter j (fun score => (score + 0.1)%float) score))%R.
Proof.
  induction j as [|j IH]; intros score k Hk G L.
  - cbn. split; [exact G | lra].
  - rewrite Nat.iter_succ_r.
    destruct (add_tenth_step score k Hk G L) as (G' & L' & M).
    destruct (IH (score + 0.1)%float (k + 1) ltac:(lia) G' L') as [G'' M'].
    split; [exact G'' | lra].
Qed.

Lemma fval_le (x y : float64) : good x -> good y -> (fval x <= fval y)%R -> F64.le x y.
Proof.
  intros Gx Gy H. unfold F64.le. rewrite FloatAxioms.leb_spec.
  apply Round64Facts.SFleb_val; auto using Prim2SF_valid.
Qed.

(** X16: the backdoor score of a sample is 0.1 added once for every feature
    that is more than 3 away from its half, clamped at 1; it exceeds the
    backdoor threshold 0.7 exactly when at least eight features deviate, so a
    sample with fewer than eight features is never flagged as a backdoor. *)
Theorem checkBackdoor_eight :
  forall (d : detect.Detector) (sample : Sample),
    let k := length (List.filter (fun f => gt (Abs (f - f / 2)) 3) (Features sample)) in
    detect.checkBackdoor d sample
    = Min (Nat.iter k (fun score => (score + 0.1)%float) 0%float) 1
    /\ (gt (detect.checkBackdoor d sample)
           (detect.threshold detect.NewDetector detect.TypeBackdoor) = true
        <-> (8 <= k)%nat)
    /\ ((length (Features sample) < 8)%nat ->
        gt (detect.checkBackdoor d sample)
           (detect.threshold detect.NewDetector detect.TypeBackdoor) = false).
Proof.
  intros d sample k.
  assert (E : detect.checkBackdoor d sample
              = Min (Nat.iter k (fun score => (score + 0.1)%float) 0%float) 1).
  { unfold detect.checkBackdoor. cbv zeta. f_equal.
    apply checkBackdoor_loop_count. intros j f Hj. now apply calculateAverage_lookup. }
  assert (I : gt (detect.checkBackdoor d sample)
                 (detect.threshold detect.NewDetector detect.TypeBackdoor) = true
              <-> (8 <= k)%nat).
  { rewrite E. change (detect.threshold detect.NewDetector detect.TypeBackdoor) with 0.7%float.
    generalize k. clear. intros k. split.
    - intros H. destruct (le_lt_dec 8 k) as [Hk|Hk]; [exact Hk|]. exfalso.
      do 8 (destruct k as [|k]; [vm_compute in H; discriminate H|]). lia.
    - intros Hk. replace k with ((k - 8) + 8)%nat by lia. rewrite Nat.iter_add.
      set (s8 := Nat.iter 8 (fun score => (score + 0.1)%float) 0%float).
      assert (G8 : good s8) by (right; vm_compute; eauto).
      assert (L8 : (fval s8 <= IZR (Z.min 1 (2 ^ 53)))%R).
      { change (Z.min 1 (2 ^ 53)) with 1. rewrite <- fval_one.
        apply le_fval; [exact G8 | right; vm_compute; eauto | reflexivity]. }
      destruct (iter_tenth_mono (k - 8) s8 1 ltac:(lia) G8 L8) as [G M].
      set (s := Nat.iter (k - 8) _ s8) in *.
      pose proof (fval_le _ _ G8 G M) as Hle.
      assert (Hs : gt s 0.7 = true)
        by (apply F64Facts.lt_le_trans with s8; [reflexivity | exact Hle]).
      destruct (F64Facts.Min_spec s 1 (gt_num_l _ _ Hs) eq_refl) as [[-> | ->] _];
        [exact Hs | reflexivity]. }
  split; [exact E|]. split; [exact I|].
  intros Hlen. apply not_true_is_false. intros Hg.
  apply I in Hg. subst k.
  pose proof (filter_length_bound (fun f => gt (Abs (f - f / 2)) 3) (Features sample)).
  lia.
Qed.

(** * The standard deviation is never negative *)

Lemma SFsqrt_not_neg (x : spec_float) : SFltb (SF64sqrt x) (S754_zero false) = false.
Proof.
  unfold SF64sqrt. destruct x as [s|[|]| |[|] m e]; cbn [SFsqrt]; try reflexivity.
  destruct (SFsqrt_core_binary prec emax (Zpos m) e) as [[q e'] l] eqn:E.
  assert (Hq : 0 <= q).
  { unfold SFsqrt_core_binary in E.
    destruct (Z.sqrtrem _) as [q' r] eqn:Es. injection E as <- _ _.
    match type of Es with Z.sqrtrem ?a = _ => destruct a as [|p|p] end;
      cbn in Es; [injection Es as <- _; lia | | injection Es as <- _; lia].
    destruct (Pos.sqrtrem p) as [s' [|r'|]]; injection Es as <- _; lia. }
  destruct (Round64Facts.binary_round_aux_shape q e' l Hq) as [[->|(m' & e'' & ->)]| ->];
    reflexivity.
Qed.

Lemma Sqrt_not_neg (x : float64) : GoFloat.lt (Sqrt x) 0 = false.
Proof.
  unfold GoFloat.lt, Sqrt. rewrite FloatAxioms.ltb_spec, FloatAxioms.sqrt_spec.
  apply SFsqrt_not_neg.
Qed.

Lemma le_not_eq_lt (x y : float64) : F64.le x y -> feq x y = false -> F64.lt x y.
Proof.
  unfold F64.le, F64.lt, feq.
  rewrite FloatAxioms.leb_spec, FloatAxioms.eqb_spec, FloatAxioms.ltb_spec.
  unfold SFleb, SFeqb, SFltb. destruct (SFcompare _ _) as [[| |]|]; congruence.
Qed.

Lemma calculateStdDev_lt_zero (features : list float64) (mean : float64) :
  GoFloat.lt (detect.calculateStdDev features mean) 0 = false.
Proof.
  unfold detect.calculateStdDev.
  destruct (_ =? _); [reflexivity | apply Sqrt_not_neg].
Qed.

(** X17: [calculateStdDev], in both packages, never returns a negative
    number: the result is NaN or compares at least 0.  So the guard
    [stdDev > 0] of the scorers and of [isSuspicious] holds exactly when
    the deviation is a number other than 0; it differs from the guard
    [stdDev == 0] of [isOutlier] only on NaN. *)
Theorem calculateStdDev_not_negative :
  forall (features : list float64) (mean : float64),
    let s := detect.calculateStdDev features mean in
    defend.calculateStdDev features mean = s
    /\ GoFloat.lt s 0 = false
    /\ (gt s 0 = true <-> (IsNaN s = false /\ feq s 0 = false)).
Proof.
  intros features mean s.
  pose proof (calculateStdDev_lt_zero features mean) as Hn. fold s in Hn.
  split; [reflexivity|]. split; [exact Hn|]. split.
  - intros H. split.
    + apply F64Facts.is_num_IsNaN. now apply gt_num_l in H.
    + now apply gt_not_feq.
  - intros [Hnan Hne]. unfold IsNaN in Hnan. apply negb_false_iff in Hnan.
    apply le_not_eq_lt.
    + apply F64Facts.not_lt_le; [exact Hnan | reflexivity | exact Hn].
    + unfold feq in *. now rewrite F64Facts.eqb_sym.
Qed.

(** * Samples without deviation *)

Lemma div_nan_r (x y : float64) : IsNaN y = true -> IsNaN (x / y) = true.
Proof.
  unfold IsNaN. rewrite !negb_true_iff, !FloatAxioms.eqb_spec, FloatAxioms.div_spec.
  unfold SFeqb.
  destruct (Prim2SF y) as [[|]|[|]| |[|] my ey]; cbn;
    rewrite ?Z.compare_refl, ?Pos.compare_cont_refl; try discriminate.
  intros _. now destruct (Prim2SF x) as [[|]|[|]| |[|] mx ex].
Qed.

Lemma gt_nan_l (x t : float64) : IsNaN x = true -> gt x t = false.
Proof.
  intros H. destruct (gt x t) eqn:E; [|reflexivity].
  apply gt_num_l in E. unfold IsNaN in H. unfold F64.is_num in E.
  rewrite E in H. discriminate H.
Qed.

Lemma fold_left_id {A B : Type} (l : list B) (a : A) : fold_left (fun a _ => a) l a = a.
Proof. induction l; cbn; auto. Qed.

Lemma existsb_none {A : Type} (l : list A) : existsb (fun _ => false) l = false.
Proof. induction l; cbn; auto. Qed.

(** Without a deviation above 0 the z-score loops leave their counters
    untouched. *)
Lemma no_deviation_feature (d : detect.Detector) (sample : Sample) :
  gt (detect.calculateStdDev (Features sample) (detect.calculateMean (Features sample))) 0
  = false ->
  detect.checkFeaturePoison d sample = 0%float.
Proof.
  intros Hs. unfold detect.checkFeaturePoison. cbv zeta. rewrite Hs.
  now rewrite fold_left_id.
Qed.

Lemma no_deviation_gradient (d : detect.Detector) (sample : Sample) :
  gt (detect.calculateStdDev (Features sample) (detect.calculateMean (Features sample))) 0
  = false ->
  Features sample <> [] -> Z.of_nat (length (Features sample)) < 2 ^ 63 ->
  detect.checkGradientPoison d sample = 0%float.
Proof.
  intros Hs Hne Hlen. unfold detect.checkGradientPoison. cbv zeta.
  rewrite Hs. cbn [andb]. rewrite fold_left_id.
  change (float64_of_int 0) with 0%float.
  rewrite zero_div_posfin; [reflexivity|].
  apply float64_of_int_pos. split; [|exact Hlen].
  destruct (Features sample); [congruence | cbn [length]; lia].
Qed.

Lemma no_deviation_suspicious (d' : defend.Defender) (sample : Sample) :
  gt (detect.calculateStdDev (Features sample) (detect.calculateMean (Features sample))) 0
  = false ->
  defend.isSuspicious d' sample = false.
Proof.
  intros Hs. unfold defend.isSuspicious.
  change defend.calculateMean with detect.calculateMean.
  change defend.calculateStdDev with detect.calculateStdDev.
  rewrite Hs. cbn [andb]. apply existsb_none.
Qed.

Lemma no_deviation_outlier (d' : defend.Defender) (sample : Sample) :
  gt (detect.calculateStdDev (Features sample) (detect.calculateMean (Features sample))) 0
  = false ->
  defend.isOutlier d' sample = false.
Proof.
  intros Hs. unfold defend.isOutlier.
  change defend.calculateMean with detect.calculateMean.
  change defend.calculateStdDev with detect.calculateStdDev.
  pose proof (calculateStdDev_lt_zero (Features sample)
                (detect.calculateMean (Features sample))) as Hn.
  set (s := detect.calculateStdDev (Features sample)
              (detect.calculateMean (Features sample))) in *.
  destruct (feq s 0) eqn:E0; [reflexivity|].
  assert (Hnan : IsNaN s = true).
  { unfold IsNaN. destruct (PrimFloat.eqb s s) eqn:En; [|reflexivity]. exfalso.
    assert (L : F64.le 0 s)
      by (apply F64Facts.not_lt_le; [exact En | reflexivity | exact Hn]).
    assert (F64.lt 0 s)
      by (apply le_not_eq_lt; [exact L | unfold feq in *; now rewrite F64Facts.eqb_sym]).
    unfold gt in Hs. unfold F64.lt in *. congruence. }
  apply not_true_is_false. intros H.
  apply List.existsb_exists in H as (f & _ & Hf).
  rewrite gt_nan_l in Hf; [discriminate|]. now apply div_nan_r.
Qed.

(** X18: when the standard deviation of a sample's features is not above 0
    (it is 0 or NaN), no statistical check responds: the feature-outlier
    score is 0, the gradient-outlier score is 0 if the sample has a feature,
    and the sample is neither suspicious nor an outlier; under the fixed
    thresholds only the backdoor check can flag it. *)
Theorem no_deviation :
  forall (d : detect.Detector) (d' : defend.Defender) (sample : Sample),
    let features := Features sample in
    gt (detect.calculateStdDev features (detect.calculateMean features)) 0 = false ->
    detect.checkFeaturePoison d sample = 0%float
    /\ (features <> [] -> Z.of_nat (length features) < 2 ^ 63 ->
        detect.checkGradientPoison d sample = 0%float)
    /\ defend.isSuspicious d' sample = false
    /\ defend.isOutlier d' sample = false.
Proof.
  intros d d' sample features Hs. subst features.
  split; [now apply no_deviation_feature|].
  split; [intros Hne Hlen; now apply no_deviation_gradient|].
  split; [now apply no_deviation_suspicious | now apply no_deviation_outlier].
Qed.

Lemma no_deviation_witness :
  let sample := mkSample "s1" [5; 5]%float 0 None in
  detect.checkFeaturePoison detect.NewDetector sample = 0%float
  /\ defend.isOutlier defend.NewDefender sample = false.
Proof.
  intros sample.
  destruct (no_deviation detect.NewDetector defend.NewDefender sample eq_refl)
    as (H1 & _ & _ & H2).
  split; assumption.
Defined.

(** * Division by one is exact *)

Lemma SFdiv_one (s : bool) (m : positive) (e : Z) :
  SpecFloat.bounded prec emax m e = true ->
  SF64div (S754_finite s m e) (S754_finite false (2 ^ 52) (-52)) = S754_finite s m e.
Proof.
  intros Hb. destruct (Round64Facts.bounded_canonical m e Hb) as [Hc He].
  rewrite Round64Facts.fexp64 in Hc.
  unfold SF64div. cbn [SFdiv]. rewrite xorb_false_r.
  unfold SFdiv_core_binary.
  change (Zdigits2 (Zpos (2 ^ 52))) with 53.
  change (Zdigits2 (Zpos m)) with (Zpos (digits2_pos m)).
  set (d1 := Zpos (digits2_pos m)) in *.
  assert (D1 : 1 <= d1) by (subst d1; lia).
  rewrite Round64Facts.fexp64.
  set (e' := Z.min (Z.max (d1 + e - (53 + -52) - 53) (-1074)) (e - -52)).
  assert (He' : e' <= e /\ -1074 <= e') by (subst e'; lia).
  set (sh := e - -52 - e').
  assert (Hsh : sh = 52 + (e - e')) by (subst sh; lia).
  set (m' := match sh with Zpos _ => Z.shiftl (Zpos m) sh | Z0 => Zpos m | Zneg _ => 0 end).
  assert (Em' : m' = (Zpos m * 2 ^ (e - e')) * 2 ^ 52).
  { subst m'. destruct sh as [|p|p] eqn:Es; try lia.
    rewrite Z.shiftl_mul_pow2 by lia. rewrite Hsh, Z.pow_add_r by lia. ring. }
  assert (Ediv : Z.div_eucl m' (Zpos (2 ^ 52)) = (Zpos m * 2 ^ (e - e'), 0)).
  { pose proof (Z_div_mod m' (Zpos (2 ^ 52)) ltac:(lia)) as Hdm.
    destruct (Z.div_eucl m' (Zpos (2 ^ 52))) as [q r]. destruct Hdm as [Eq' Hr].
    change (Zpos (2 ^ 52)) with (2 ^ 52) in *.
    assert (q = Zpos m * 2 ^ (e - e')) by nia. subst q.
    f_equal. lia. }
  rewrite Ediv.
  change (new_location (Zpos (2 ^ 52)) 0) with loc_Exact.
  pose proof (Z.pow_pos_nonneg 2 (e - e') ltac:(lia) ltac:(lia)) as Pp.
  assert (Hd : Zdigits2 (Zpos m * 2 ^ (e - e')) = d1 + (e - e'))
    by (apply Round64Facts.Zdigits2_shift; lia).
  assert (Ht : fexp prec emax (Zdigits2 (Zpos m * 2 ^ (e - e')) + e') = e).
  { rewrite Hd, Round64Facts.fexp64. replace (d1 + (e - e') + e') with (d1 + e) by lia.
    exact Hc. }
  rewrite Round64Facts.binary_round_aux_form by (rewrite ?Ht; lia).
  cbv zeta. rewrite Ht.
  replace (e - e') with (0 + (e - e')) at 2 by lia.
  rewrite Round64Facts.rne_div_scale, Round64Facts.rne_div_0 by lia.
  rewrite Round64Facts.finish_small.
  - now replace (e <=? 971) with true by (symmetry; apply Z.leb_le; lia).
  - pose proof (Round64Facts.digits2_pos_bounds m) as [_ Hu]. fold d1 in Hu.
    assert (d1 <= 53) by lia.
    eapply Z.lt_le_trans; [exact Hu|]. apply Z.pow_le_mono_r; lia.
  - lia.
Qed.

Lemma div_one (x : float64) : (x / 1)%float = x.
Proof.
  apply Prim2SF_inj. rewrite FloatAxioms.div_spec.
  change (Prim2SF 1) with (S754_finite false (2 ^ 52) (-52)).
  pose proof (Prim2SF_valid x) as V.
  destruct (Prim2SF x) as [s|s| |s m e]; try (destruct s; reflexivity); [reflexivity|].
  now apply SFdiv_one.
Qed.

(** * Samples with a single feature *)

(** The deviation of a single feature from itself is 0, or NaN when the
    feature is infinite or NaN. *)
Lemma single_feature_deviation (f : float64) :
  gt (detect.calculateStdDev [f] (detect.calculateMean [f])) 0 = false.
Proof.
  unfold detect.calculateStdDev, detect.calculateMean.
  cbn [length Z.of_nat Pos.of_succ_nat Z.eqb fold_left].
  change (float64_of_int 1) with 1%float. rewrite !div_one.
  change (Z.of_nat 1 =? 0) with false. cbv iota.
  unfold gt, Sqrt.
  rewrite FloatAxioms.ltb_spec, FloatAxioms.sqrt_spec, !FloatAxioms.add_spec,
    FloatAxioms.mul_spec, FloatAxioms.sub_spec, !FloatAxioms.add_spec.
  change (Prim2SF 0) with (S754_zero false).
  destruct (Prim2SF f) as [s|s| |s m e]; try (destruct s; reflexivity); [reflexivity|].
  cbn [SF64add SFadd]. unfold SF64sub. cbn [SFsub]. rewrite Z.sub_diag. reflexivity.
Qed.

(** X19: a sample with exactly one feature is never flagged by the detector
    of [NewDetector], and is neither suspicious nor an outlier for the
    defender: its deviation is 0 (or NaN), and one feature is fewer than the
    eight a backdoor needs. *)
Theorem single_feature_clean :
  forall (d' : defend.Defender) (id : string) (f : float64) (label : Z)
         (metadata : option MapRef),
    let sample := mkSample id [f] label metadata in
    detect.analyzeSample detect.NewDetector sample
    = detect.PoisonedSample.mk id false 0%float "" "" "" 0%float
    /\ defend.isSuspicious d' sample = false
    /\ defend.isOutlier d' sample = false.
Proof.
  intros d' id f label metadata sample.
  pose proof (single_feature_deviation f) as Hd.
  pose proof (no_deviation_feature detect.NewDetector sample Hd) as Hf.
  pose proof (no_deviation_gradient detect.NewDetector sample Hd
                ltac:(discriminate) ltac:(reflexivity)) as Hg.
  pose proof (no_deviation_suspicious d' sample Hd) as Hs.
  pose proof (no_deviation_outlier d' sample Hd) as Ho.
  split; [|split; assumption].
  unfold detect.analyzeSample. rewrite Hf, Hg.
  change (detect.checkLabelFlip detect.NewDetector sample) with 0%float.
  assert (Hb : gt (detect.checkBackdoor detect.NewDetector sample)
                  (detect.threshold detect.NewDetector detect.TypeBackdoor) = false).
  { unfold detect.checkBackdoor, sample. cbn [Features detect.calculateAverage map
      detect.checkBackdoor_loop lookup list_lookup default from_option].
    change (detect.threshold detect.NewDetector detect.TypeBackdoor) with 0.7%float.
    destruct (gt (Abs _) 3); reflexivity. }
  rewrite Hb. reflexivity.
Qed.

(** * Results that do not underflow *)

Lemma binary_round_aux_normal (m e : Z) (l : location) :
  0 < m ->
  let t := Zdigits2 m + e - 53 in
  e <= t -> -1074 <= t ->
  pos_normal_from t (binary_round_aux prec emax false m e l).
Proof.
  intros Hm t Het Ht.
  assert (Ef : fexp prec emax (Zdigits2 m + e) = t)
    by (rewrite Round64Facts.fexp64; subst t; lia).
  rewrite Round64Facts.bra_unfold. cbv zeta.
  destruct (Round64Facts.shift_round m e l ltac:(lia) ltac:(rewrite Ef; lia))
    as (E1 & [Lo _] & _ & Hi).
  rewrite Ef in *. rewrite E1.
  set (m1 := round_nearest_even _ _) in *.
  assert (L52 : 2 ^ 52 <= m1).
  { eapply Z.le_trans; [|exact Lo].
    destruct (Round64Facts.Zdigits2_bounds m Hm) as [Lm _].
    apply Z.div_le_lower_bound; [apply Z.pow_pos_nonneg; lia|].
    rewrite Z.mul_comm, <- Z.pow_add_r by lia.
    replace (52 + (t - e)) with (Zdigits2 m - 1) by (subst t; lia). exact Lm. }
  change (match shr_m (fst (shr_fexp prec emax m1 t loc_Exact)) with
          | 0 => S754_zero false
          | Zpos m' =>
              if snd (shr_fexp prec emax m1 t loc_Exact) <=? emax - prec
              then S754_finite false m' (snd (shr_fexp prec emax m1 t loc_Exact))
              else S754_infinity false
          | Zneg _ => S754_nan
          end) with (Round64.finish false m1 t).
  destruct (Round64Facts.mantissa_cases m1 ltac:(lia)) as [E0|[(p & Ep & Hp)| E53]].
  - lia.
  - rewrite Ep, Round64Facts.finish_small by lia.
    destruct (t <=? 971); [|now left]. right. exists p, t. repeat split; lia.
  - rewrite E53, Round64Facts.finish_carry by lia.
    destruct (t + 1 <=? 971); [|now left]. right. exists (2 ^ 52)%positive, (t + 1).
    repeat split; lia.
Qed.

Lemma SFdiv_normal (mx my : positive) (ex ey : Z) :
  let D := Zdigits2 (Zpos mx) + ex - (Zdigits2 (Zpos my) + ey) in
  -1021 <= D -> -1074 <= ex - ey ->
  pos_normal_from (Z.min (D - 53) (ex - ey))
    (SF64div (S754_finite false mx ex) (S754_finite false my ey)).
Proof.
  intros D HD He. unfold SF64div. cbn [SFdiv xorb]. unfold SFdiv_core_binary.
  set (d1 := Zdigits2 (Zpos mx)) in *. set (d2 := Zdigits2 (Zpos my)) in *.
  fold D. rewrite Round64Facts.fexp64.
  replace (Z.max (D - 53) (-1074)) with (D - 53) by lia.
  set (e' := Z.min (D - 53) (ex - ey)).
  set (s := ex - ey - e').
  assert (D1 : 1 <= d1) by (subst d1; simpl; lia).
  assert (D2 : 1 <= d2) by (subst d2; simpl; lia).
  assert (Hs : 0 <= s /\ d2 - d1 + 53 <= s) by (subst s e' D; lia).
  set (m' := match s with Zpos _ => Z.shiftl (Zpos mx) s | Z0 => Zpos mx | Zneg _ => 0 end).
  assert (Em' : m' = Zpos mx * 2 ^ s).
  { subst m'. destruct s as [|p|p] eqn:Es; [simpl; lia | | lia].
    apply Z.shiftl_mul_pow2. lia. }
  pose proof (Z_div_mod m' (Zpos my) ltac:(lia)) as Hdm.
  destruct (Z.div_eucl m' (Zpos my)) as [q r]. destruct Hdm as [Eq' Hr].
  assert (Hq : 2 ^ 52 <= q).
  { destruct (Round64Facts.Zdigits2_bounds (Zpos mx) ltac:(lia)) as [Lx _].
    destruct (Round64Facts.Zdigits2_bounds (Zpos my) ltac:(lia)) as [_ Uy].
    fold d1 in Lx. fold d2 in Uy.
    assert (H1 : 2 ^ (d2 + 52) <= m').
    { rewrite Em'. apply Z.le_trans with (2 ^ (d1 - 1) * 2 ^ s).
      - rewrite <- Z.pow_add_r by lia. apply Z.pow_le_mono_r; lia.
      - apply Z.mul_le_mono_nonneg_r; [apply Z.pow_nonneg; lia | exact Lx]. }
    rewrite Z.pow_add_r in H1 by lia.
    destruct (Z_le_gt_dec (2 ^ 52) q) as [|Hlt]; [assumption|]. exfalso.
    assert (q + 1 <= 2 ^ 52) by lia.
    assert (Zpos my * (q + 1) <= 2 ^ d2 * 2 ^ 52) by nia. nia. }
  assert (Hdq : 53 <= Zdigits2 q).
  { assert (52 < Zdigits2 q) by (apply Round64Facts.Zdigits2_gt; lia). lia. }
  destruct (binary_round_aux_normal q e' (new_location (Zpos my) r))
    as [Hinf|(a & t' & Ea & Ha & Ht')]; try lia.
  - left. exact Hinf.
  - right. exists a, t'. repeat split; try assumption. lia.
Qed.

Lemma SFmul_normal (mx my : positive) (ex ey : Z) :
  2 ^ 52 <= Zpos mx -> 2 ^ 52 <= Zpos my -> -1074 <= ex + ey + 52 ->
  pos_normal_from (ex + ey + 52)
    (SF64mul (S754_finite false mx ex) (S754_finite false my ey)).
Proof.
  intros Hx Hy He. unfold SF64mul. cbn [SFmul xorb].
  assert (Dx : 53 <= Zdigits2 (Zpos mx))
    by (assert (52 < Zdigits2 (Zpos mx)) by (apply Round64Facts.Zdigits2_gt; lia); lia).
  assert (Dy : 53 <= Zdigits2 (Zpos my))
    by (assert (52 < Zdigits2 (Zpos my)) by (apply Round64Facts.Zdigits2_gt; lia); lia).
  pose proof (Round64Facts.Zdigits2_mul (Zpos mx) (Zpos my) ltac:(lia) ltac:(lia)) as Hd.
  change (Zpos (mx * my)) with (Zpos mx * Zpos my).
  destruct (binary_round_aux_normal (Zpos mx * Zpos my) (ex + ey) loc_Exact)
    as [Hinf|(a & t' & Ea & Ha & Ht')]; try lia.
  - left. exact Hinf.
  - right. exists a, t'. repeat split; try assumption. lia.
Qed.

(** [float64(k)] for [1 <= k < 2^63] is a normal number between 1 and
    2^63. *)
Lemma float64_of_int_normal (k : Z) :
  1 <= k < 2 ^ 63 ->
  exists m e, Prim2SF (float64_of_int k) = S754_finite false m e
              /\ 2 ^ 52 <= Zpos m /\ Zdigits2 (Zpos m) = 53 /\ -52 <= e <= 11.
Proof.
  intros Hk.
  destruct (float64_of_int_pos k ltac:(lia)) as (m & e & E).
  exists m, e. split; [exact E|].
  pose proof (posfin_bounded _ m e E) as Hb.
  destruct (Round64Facts.bounded_canonical m e Hb) as [Hc _].
  rewrite Round64Facts.fexp64 in Hc.
  destruct (float64_of_int_mono 1 k ltac:(lia) ltac:(lia)) as [_ Lo].
  destruct (float64_of_int_exact 1 ltac:(lia)) as (_ & E1 & _). rewrite E1 in Lo.
  destruct (float64_of_int_mono k (2 ^ 63 - 1) ltac:(lia) ltac:(lia)) as [_ Hi].
  unfold fval in Lo, Hi. rewrite E in Lo, Hi. cbn [Round64.SFval] in Lo, Hi.
  change (Prim2SF (float64_of_int (2 ^ 63 - 1))) with (S754_finite false (2 ^ 52) 11) in Hi.
  cbn [Round64.SFval] in Hi.
  pose proof (Round64Facts.mval_lt_pow2 m e) as U.
  pose proof (Round64Facts.mval_ge_pow2 m e) as L.
  pose proof (Round64Facts.mval_lt_pow2 (2 ^ 52) 11) as U'.
  change (Zpos (digits2_pos (2 ^ 52)) + 11) with 64 in U'.
  assert (H0 : 0 < Zpos (digits2_pos m) + e).
  { apply Round64Facts.pow2_lt_inv. change (Round64.pow2 0) with 1%R. lra. }
  assert (H1 : Zpos (digits2_pos m) - 1 + e < 64).
  { apply Round64Facts.pow2_lt_inv. lra. }
  assert (Hd : Zpos (digits2_pos m) = 53) by lia.
  pose proof (Round64Facts.digits2_pos_bounds m) as [Lm _]. rewrite Hd in Lm.
  change (Zdigits2 (Zpos m)) with (Zpos (digits2_pos m)).
  repeat split; lia.
Qed.

(** * The risk score of a flagged result is positive *)

(** The weighted ratio of flagged samples does not underflow. *)
Lemma weighted_ratio_positive (count n : Z) :
  1 <= count <= n -> n < 2 ^ 63 ->
  posfin (float64_of_int count / float64_of_int n * 0.7).
Proof.
  intros Hc Hn.
  destruct (float64_of_int_normal count ltac:(lia)) as (ma & ea & Ea & Ma & Da & Ra).
  destruct (float64_of_int_normal n ltac:(lia)) as (mb & eb & Eb & Mb & Db & Rb).
  destruct (float64_of_int_mono count n ltac:(lia) Hn) as [Gc Vc].
  assert (Pn : posfin (float64_of_int n)) by (exists mb, eb; exact Eb).
  destruct (fdiv_le_one _ _ Gc Pn Vc) as (Gr & _ & Vr).
  set (ratio := (float64_of_int count / float64_of_int n)%float) in *.
  assert (Er : exists a t, Prim2SF ratio = S754_finite false a t
                           /\ 2 ^ 52 <= Zpos a /\ -116 <= t).
  { pose proof (SFdiv_normal ma mb ea eb) as H.
    cbv zeta in H. rewrite Da, Db in H.
    specialize (H ltac:(lia) ltac:(lia)).
    unfold ratio in *. unfold good in Gr. rewrite FloatAxioms.div_spec, Ea, Eb in *.
    destruct H as [H|(a & t & H & Ha & Ht)].
    - rewrite H in Gr. destruct Gr as [?|(? & ? & ?)]; discriminate.
    - exists a, t. repeat split; try assumption. lia. }
  destruct Er as (a & t & Er & Ha & Ht).
  assert (P7 : posfin 0.7) by (vm_compute; eauto).
  pose proof (good_fval_nonneg _ (posfin_good _ P7)) as N7.
  pose proof (good_fval_nonneg _ Gr) as Nr.
  destruct (fmul_le ratio 0.7 0.7 Gr (posfin_good _ P7) P7) as (Gp & _ & _); [nra|].
  pose proof (SFmul_normal a 6305039478318694 t (-53) Ha ltac:(lia) ltac:(lia)) as H.
  unfold good, posfin in *. rewrite FloatAxioms.mul_spec, Er in *.
  change (Prim2SF 0.7) with (S754_finite false 6305039478318694 (-53)) in *.
  destruct H as [H|(p & tp & H & _)].
  - rewrite H in Gp. destruct Gp as [?|(? & ? & ?)]; discriminate.
  - eauto.
Qed.

Lemma posfin_gt_zero (x : float64) : posfin x -> gt x 0 = true.
Proof.
  intros (m & e & E). unfold gt. rewrite FloatAxioms.ltb_spec, E. reflexivity.
Qed.

(** Adding a number that is [+0] or positive and finite does not lower a
    sum. *)
Lemma fadd_ge_l (x y : float64) : good x -> good y -> F64.le x (x + y).
Proof.
  intros Gx Gy.
  assert (G0 : good 0) by now left.
  destruct (Round64Facts.SFadd_mono (Prim2SF x) (Prim2SF 0) (Prim2SF x) (Prim2SF y)
              (Prim2SF_valid _) (Prim2SF_valid _) (Prim2SF_valid _) (Prim2SF_valid _)
              Gx G0 Gx Gy) as [_ M].
  { lra. }
  { change (Round64.SFval (Prim2SF 0)) with 0%R. now apply good_fval_nonneg. }
  rewrite <- !FloatAxioms.add_spec, add_zero_r in M by exact Gx.
  unfold F64.le. now rewrite FloatAxioms.leb_spec.
Qed.

(** X20: the risk score of [Detect] is above 0 exactly when the result is
    flagged as poisoned, that is, when at least one verdict is flagged; when
    none is, the risk score is exactly 0. *)
Theorem Detect_risk_positive :
  forall (d : detect.Detector) (samples : list Sample),
    Z.of_nat (length samples) < 2 ^ 63 ->
    let r := detect.Detect d samples in
    gt (detect.DetectionResult.RiskScore r) 0 = detect.DetectionResult.IsPoisoned r
    /\ detect.DetectionResult.IsPoisoned r
       = existsb detect.PoisonedSample.IsPoisoned (detect.DetectionResult.Samples r)
    /\ (detect.DetectionResult.IsPoisoned r = false ->
        detect.DetectionResult.RiskScore r = 0%float).
Proof.
  intros d samples Hlen r. subst r.
  assert (Hex : detect.DetectionResult.IsPoisoned (detect.Detect d samples)
                = existsb detect.PoisonedSample.IsPoisoned
                    (detect.DetectionResult.Samples (detect.Detect d samples))).
  { rewrite Detect_unfold. cbv zeta.
    cbn [detect.DetectionResult.IsPoisoned detect.DetectionResult.Samples].
    generalize (map (detect.analyzeSample d) samples). intros vs.
    induction vs as [|v vs IH]; cbn [List.filter existsb]; [reflexivity|].
    destruct (detect.PoisonedSample.IsPoisoned v); cbn [orb length]; [|exact IH].
    apply Z.ltb_lt. lia. }
  assert (Hz : detect.DetectionResult.IsPoisoned (detect.Detect d samples) = false ->
               detect.DetectionResult.RiskScore (detect.Detect d samples) = 0%float).
  { intros Ep.
    assert (Hc : detect.DetectionResult.PoisonedCount (detect.Detect d samples) = 0).
    { rewrite Detect_unfold in *. cbv zeta in *.
      cbn [detect.DetectionResult.IsPoisoned detect.DetectionResult.PoisonedCount] in *.
      apply Z.ltb_ge in Ep. lia. }
    now destruct (Detect_count_zero d samples Hlen Hc). }
  split; [|split; [exact Hex | exact Hz]]. clear Hex.
  destruct (detect.DetectionResult.IsPoisoned (detect.Detect d samples)) eqn:Ep.
  2:{ now rewrite (Hz eq_refl). }
  clear Hz.
  rewrite Detect_unfold in *. cbv zeta in *.
  cbn [detect.DetectionResult.IsPoisoned detect.DetectionResult.RiskScore] in *.
  set (verdicts := map (detect.analyzeSample d) samples) in *.
  set (count := Z.of_nat (length (List.filter detect.PoisonedSample.IsPoisoned verdicts))) in *.
  set (n := Z.of_nat (length samples)) in *.
  apply Z.ltb_lt in Ep.
  assert (Hcount : 1 <= count <= n).
  { subst count n. pose proof (filter_length_bound detect.PoisonedSample.IsPoisoned verdicts) as H.
    subst verdicts. rewrite length_map in H. lia. }
  unfold detect.calculateRiskScore.
  cbn [detect.DetectionResult.PoisonedCount detect.DetectionResult.SampleCount
       detect.DetectionResult.Samples].
  replace (n =? 0) with false by (symmetry; apply Z.eqb_neq; lia).
  pose proof (weighted_ratio_positive count n Hcount Hlen) as Pp.
  pose proof (float64_of_int_pos n ltac:(lia)) as Pn.
  rewrite fold_left_add_map.
  destruct (total_confidence_bound
              (map detect.PoisonedSample.Confidence verdicts) 0%float 0)
    as (Gt & Vt).
  { subst verdicts. rewrite map_map. apply Forall_map, Forall_forall.
    intros sample _. apply analyzeSample_confidence. }
  { lia. }
  { now left. }
  { unfold fval. change (Prim2SF 0) with (S754_zero false).
    change (Z.min 0 (2 ^ 53)) with 0. cbn [Round64.SFval]. lra. }
  rewrite Z.add_0_l in Vt.
  assert (Hl : 0 <= Z.of_nat (length (map detect.PoisonedSample.Confidence verdicts)) <= n)
    by (subst verdicts n; rewrite !length_map; lia).
  pose proof (bound_le_float64_of_int _ _ n Hl Hlen Vt) as Vtn.
  destruct (fdiv_le_one _ _ Gt Pn Vtn) as (Gv & _ & Vv).
  assert (P3 : posfin 0.3) by (vm_compute; eauto).
  pose proof (good_fval_nonneg _ (posfin_good _ P3)) as N3.
  pose proof (good_fval_nonneg _ Gv) as Nv.
  destruct (fmul_le _ 0.3 0.3 Gv (posfin_good _ P3) P3) as (Gb & _ & _); [nra|].
  apply F64Facts.lt_le_trans with (float64_of_int count / float64_of_int n * 0.7)%float.
  - now apply posfin_gt_zero.
  - apply fadd_ge_l; [now apply posfin_good | exact Gb].
Qed.

Lemma Detect_risk_positive_witness :
  let r := detect.Detect detect.NewDetector
             [ mkSample "s1" [1; 2; 3]%float 0 None;
               mkSample "s2" [10; 10; 10; 10; 10; 10; 10; 10]%float 1 None ] in
  gt (detect.DetectionResult.RiskScore r) 0 = detect.DetectionResult.IsPoisoned r
  /\ detect.DetectionResult.IsPoisoned r
     = existsb detect.PoisonedSample.IsPoisoned (detect.DetectionResult.Samples r)
  /\ (detect.DetectionResult.IsPoisoned r = false ->
      detect.DetectionResult.RiskScore r = 0%float).
Proof.
  intros r.
  apply (Detect_risk_positive detect.NewDetector
           [ mkSample "s1" [1; 2; 3]%float 0 None;
             mkSample "s2" [10; 10; 10; 10; 10; 10; 10; 10]%float 1 None ]).
  reflexivity.
Defined.

(** * A quotient below a representable bound *)

Lemma Zdigits2_mul_le (a b : Z) :
  0 < a -> 0 < b -> Zdigits2 (a * b) <= Zdigits2 a + Zdigits2 b.
Proof.
  intros Ha Hb.
  destruct (Round64Facts.Zdigits2_bounds a Ha) as [_ Ua].
  destruct (Round64Facts.Zdigits2_bounds b Hb) as [_ Ub].
  pose proof (Round64Facts.Zdigits2_nonneg a). pose proof (Round64Facts.Zdigits2_nonneg b).
  apply Round64Facts.Zdigits2_le; [nia | lia |].
  rewrite Z.pow_add_r by lia. nia.
Qed.

Theorem SFdiv_le (x : spec_float) (my mB : positive) (ey eB : Z) :
  valid_binary x = true ->
  Round64.nonneg_finite x ->
  SpecFloat.bounded prec emax mB eB = true ->
  (Round64.SFval x <= Round64.mval (Zpos my) ey * Round64.mval (Zpos mB) eB)%R ->
  Round64.nonneg_finite (SF64div x (S754_finite false my ey))
  /\ SFleb (SF64div x (S754_finite false my ey)) (S754_finite false mB eB) = true.
Proof.
  intros Vx [->|(mx & ex & ->)] HB Hval; unfold SF64div; cbn [SFdiv xorb].
  { split; [now left | reflexivity]. }
  cbn [Round64.SFval] in Hval.
  rewrite <- Round64Facts.mval_mul in Hval.
  pose proof (Round64Facts.mval_digits (Zpos mx) (Zpos my * Zpos mB) ex (ey + eB)
                ltac:(lia) Hval) as Hmag.
  pose proof (Zdigits2_mul_le (Zpos my) (Zpos mB) ltac:(lia) ltac:(lia)) as Hprod.
  destruct (Round64Facts.bounded_canonical mB eB HB) as [HcB _].
  rewrite Round64Facts.fexp64 in HcB.
  change (Zpos (digits2_pos mB)) with (Zdigits2 (Zpos mB)) in HcB.
  unfold SFdiv_core_binary.
  set (d1 := Zdigits2 (Zpos mx)) in *. set (d2 := Zdigits2 (Zpos my)) in *.
  set (dB := Zdigits2 (Zpos mB)) in *.
  set (e' := Z.min (fexp prec emax (d1 + ex - (d2 + ey))) (ex - ey)).
  set (s := ex - ey - e').
  assert (Hs : 0 <= s) by (subst s e'; lia).
  assert (He' : e' <= eB) by (subst e'; rewrite Round64Facts.fexp64; lia).
  set (m' := match s with Zpos _ => Z.shiftl (Zpos mx) s | Z0 => Zpos mx | Zneg _ => 0 end).
  assert (Em' : m' = Zpos mx * 2 ^ s).
  { subst m'. destruct s as [|p|p] eqn:Es; [simpl; lia | | lia].
    apply Z.shiftl_mul_pow2. lia. }
  pose proof (Z.pow_pos_nonneg 2 s ltac:(lia) Hs) as Ps.
  pose proof (Z_div_mod m' (Zpos my) ltac:(lia)) as Hdm.
  destruct (Z.div_eucl m' (Zpos my)) as [q r]. destruct Hdm as [Eq' Hr].
  assert (Hq : 0 <= q) by nia.
  apply Round64Facts.binary_round_aux_le; [exact Hq | | exact HB |].
  - (* the quotient has enough digits *)
    assert (Hd : d1 - d2 + s <= Zdigits2 q).
    { pose proof (Round64Facts.Zdigits2_nonneg q).
      destruct (Z_le_gt_dec (d1 - d2 + s) 0) as [|Hpos]; [lia|].
      assert (d1 - d2 + s - 1 < Zdigits2 q); [|lia].
      apply Round64Facts.Zdigits2_gt; [lia|].
      destruct (Round64Facts.Zdigits2_bounds (Zpos mx) ltac:(lia)) as [Lx _].
      destruct (Round64Facts.Zdigits2_bounds (Zpos my) ltac:(lia)) as [_ Uy].
      fold d1 in Lx. fold d2 in Uy.
      assert (D1 : 1 <= d1) by (subst d1; simpl; lia).
      assert (D2 : 1 <= d2) by (subst d2; simpl; lia).
      assert (H1 : 2 ^ (d1 - d2 + s - 1) * 2 ^ d2 = 2 ^ (d1 - 1) * 2 ^ s).
      { rewrite <- !Z.pow_add_r by lia. f_equal. lia. }
      pose proof (Z.pow_pos_nonneg 2 (d1 - d2 + s - 1) ltac:(lia) ltac:(lia)).
      assert (H2 : 2 ^ (d1 - d2 + s - 1) * Zpos my < m') by nia.
      destruct (Z_le_gt_dec (2 ^ (d1 - d2 + s - 1)) q) as [|Hlt]; [assumption|].
      exfalso. nia. }
    eapply Z.le_trans; [apply Z.le_min_l | apply Round64Facts.fexp64_mono].
    lia.
  - (* the located quotient is at most the bound *)
    rewrite Round64Facts.up_new_location.
    set (K := Zpos mB * 2 ^ (eB - e')).
    assert (HK : Round64.mval K e' = Round64.mval (Zpos mB) eB).
    { subst K. replace e' with (eB - (eB - e')) at 2 by lia.
      apply Round64Facts.mval_shift. lia. }
    rewrite <- HK. apply Round64Facts.mval_same_exp.
    assert (HZ : m' <= Zpos my * K).
    { apply (Round64Facts.mval_same_exp m' (Zpos my * K) (e' + ey)).
      replace (Round64.mval m' (e' + ey)) with (Round64.mval (Zpos mx) ex).
      2:{ rewrite Em'. replace (e' + ey) with (ex - s) by (subst s; lia).
          symmetry. apply Round64Facts.mval_shift. lia. }
      rewrite (Z.add_comm e' ey), (Round64Facts.mval_mul (Zpos my) K ey e'), HK.
      rewrite <- Round64Facts.mval_mul. exact Hval. }
    assert (0 < K) by (subst K; pose proof (Z.pow_pos_nonneg 2 (eB - e')); nia).
    destruct (Z.eqb_spec r 0); nia.
Qed.

Lemma fdiv_le (x y B : float64) :
  good x -> posfin y -> posfin B -> (fval x <= fval y * fval B)%R ->
  good (x / y) /\ F64.le (x / y) B.
Proof.
  intros Gx (my & ey & Ey) (mB & eB & EB) Hval.
  pose proof (posfin_bounded B mB eB EB) as HB.
  unfold fval in Hval. rewrite Ey, EB in Hval. cbn [Round64.SFval] in Hval.
  destruct (SFdiv_le _ my mB ey eB (Prim2SF_valid x) Gx HB Hval) as [G L].
  rewrite <- Ey, <- EB, <- FloatAxioms.div_spec in *.
  split; [exact G|]. unfold F64.le. now rewrite FloatAxioms.leb_spec.
Qed.

(** * Cleaned data and the feature-outlier check *)

(** When no feature is more than 3 deviations away, the largest z-score is
    at most 3. *)
Lemma maxZScore_le_three (stdDev mean : float64) (features : list float64) :
  existsb (fun f => gt stdDev 0 && gt (Abs (f - mean) / stdDev) 3) features = false ->
  forall maxZScore : float64,
    F64.le maxZScore 3 ->
    F64.le
      (fold_left
         (fun maxZScore f =>
            if gt stdDev 0%float then
              let zScore := (Abs (f - mean) / stdDev)%float in
              if gt zScore maxZScore then zScore else maxZScore
            else maxZScore)
         features maxZScore)
      3.
Proof.
  induction features as [|f rest IH]; intros Hex maxZ H; cbn [fold_left]; [exact H|].
  cbn [existsb] in Hex. apply orb_false_iff in Hex as [Hf Hrest].
  apply IH; [exact Hrest|].
  destruct (gt stdDev 0); [|exact H]. cbv zeta. cbn [andb] in Hf.
  destruct (gt _ maxZ) eqn:E; [|exact H].
  apply F64Facts.not_lt_le; [reflexivity | now apply gt_num_l in E | exact Hf].
Qed.

Lemma three_le_five_times_threshold :
  (fval 3 <= fval 5 * fval 0.7)%R.
Proof.
  unfold fval.
  change (Prim2SF 3) with (S754_finite false 6755399441055744 (-51)).
  change (Prim2SF 5) with (S754_finite false 5629499534213120 (-50)).
  change (Prim2SF 0.7) with (S754_finite false 6305039478318694 (-53)).
  cbn [Round64.SFval]. rewrite <- Round64Facts.mval_mul.
  change (-50 + -53) with (-51 - 52).
  rewrite <- (Round64Facts.mval_shift 6755399441055744 (-51) 52) by lia.
  apply Round64Facts.mval_same_exp. vm_compute. discriminate.
Qed.

(** A sample that [isSuspicious] does not flag stays at or below the
    feature_poison threshold of the detector. *)
Lemma not_suspicious_feature_score (d : detect.Detector) (d' : defend.Defender)
      (sample : Sample) :
  defend.isSuspicious d' sample = false ->
  gt (detect.checkFeaturePoison d sample) 0.7 = false.
Proof.
  unfold defend.isSuspicious, detect.checkFeaturePoison. cbv zeta.
  change defend.calculateMean with detect.calculateMean.
  change defend.calculateStdDev with detect.calculateStdDev.
  set (mean := detect.calculateMean (Features sample)).
  set (stdDev := detect.calculateStdDev (Features sample) mean).
  intros Hs.
  pose proof (maxZScore_le_three stdDev mean (Features sample) Hs 0%float eq_refl) as L3.
  pose proof (maxZScore_shape stdDev mean (Features sample) 0%float
                ltac:(left; now left)) as Sh.
  set (maxZ := fold_left _ _ _) in *.
  assert (G : good maxZ).
  { unfold F64.le in L3. rewrite FloatAxioms.leb_spec in L3.
    change (Prim2SF 3) with (S754_finite false 6755399441055744 (-51)) in L3.
    eapply Round64Facts.nonneg_shape_le; eassumption. }
  assert (G3 : good 3) by (right; vm_compute; eauto).
  pose proof (le_fval _ _ G G3 L3) as V3.
  assert (P5 : posfin 5) by (vm_compute; eauto).
  assert (P7 : posfin 0.7) by (vm_compute; eauto).
  destruct (fdiv_le maxZ 5 0.7 G P5 P7) as [Gq Lq].
  { pose proof three_le_five_times_threshold. lra. }
  set (q := (maxZ / 5)%float) in *.
  assert (Nq : F64.is_num q) by eauto using F64Facts.le_num_l.
  destruct (F64Facts.Min_spec q 1 Nq eq_refl) as (_ & Lm & _).
  apply not_true_is_false. intros Hgt.
  apply (F64Facts.lt_irrefl 0.7).
  apply F64Facts.lt_le_trans with (Min q 1); [exact Hgt|].
  now apply F64Facts.le_trans with q.
Qed.

(** X21: data cleaning removes every sample the detector would flag as
    feature_poison: when [Detect] runs on the output of [ApplyDefense] with
    "Data Cleaning", no feature-outlier score exceeds its threshold and no
    verdict carries the type feature_poison. *)
Theorem cleaning_then_Detect :
  forall (samples cleaned : list Sample) (store store' : Store),
    defend.ApplyDefense defend.NewDefender samples "Data Cleaning" store
    = Returned (cleaned, store') ->
    (forall sample, In sample cleaned ->
       gt (detect.checkFeaturePoison detect.NewDetector sample)
          (detect.threshold detect.NewDetector detect.TypeFeaturePoison) = false)
    /\ (forall v,
          In v (detect.DetectionResult.Samples (detect.Detect detect.NewDetector cleaned)) ->
          detect.PoisonedSample.Type_ v <> detect.TypeFeaturePoison).
Proof.
  intros samples cleaned store store' H.
  change (defend.ApplyDefense defend.NewDefender samples "Data Cleaning" store)
    with (Returned (defend.cleanData defend.NewDefender samples, store)) in H.
  injection H as <- _. rewrite cleanData_filter.
  assert (F : forall sample,
             In sample (List.filter (fun s => negb (defend.isSuspicious defend.NewDefender s))
                                    samples) ->
             gt (detect.checkFeaturePoison detect.NewDetector sample) 0.7 = false).
  { intros sample Hin. apply List.filter_In in Hin as [_ Hs].
    apply negb_true_iff in Hs. now apply not_suspicious_feature_score with defend.NewDefender. }
  split; [exact F|].
  intros v Hv. rewrite Detect_unfold in Hv. cbv zeta in Hv.
  cbn [detect.DetectionResult.Samples] in Hv.
  apply List.in_map_iff in Hv as (sample & <- & Hin).
  specialize (F sample Hin).
  unfold detect.analyzeSample, detect.flag.
  change (detect.threshold detect.NewDetector detect.TypeFeaturePoison) with 0.7%float.
  rewrite F.
  destruct (gt (detect.checkGradientPoison _ sample) _);
    destruct (gt (detect.checkLabelFlip _ sample) _);
    destruct (gt (detect.checkBackdoor _ sample) _);
    cbn [detect.PoisonedSample.Type_]; discriminate.
Qed.

Lemma cleaning_then_Detect_witness :
  let samples :=
    [ mkSample "s1" [1; 2; 3]%float 0 None;
      mkSample "s2" [0; 0; 0; 0; 0; 0; 0; 0; 0; 0; 0; 0; 0; 0; 0; 0; 0; 0; 0; 0; 1]%float
               1 None ] in
  detect.PoisonedSample.Type_ (detect.analyzeSample detect.NewDetector
     (mkSample "s2" [0; 0; 0; 0; 0; 0; 0; 0; 0; 0; 0; 0; 0; 0; 0; 0; 0; 0; 0; 0; 1]%float
               1 None)) = detect.TypeFeaturePoison
  /\ forall v,
       In v (detect.DetectionResult.Samples
               (detect.Detect detect.NewDetector [mkSample "s1" [1; 2; 3]%float 0 None])) ->
       detect.PoisonedSample.Type_ v <> detect.TypeFeaturePoison.
Proof.
  intros samples. split; [vm_compute; reflexivity|].
  apply (cleaning_then_Detect samples [mkSample "s1" [1; 2; 3]%float 0 None] ∅ ∅).
  reflexivity.
Defined.

(** * Numbers in the reports *)








(** * The detection report *)

Lemma append_nil_l (s : string) : "" ++ s = s.
Proof. reflexivity. Qed.

Lemma append_cons (a : Ascii.ascii) (s t : string) : String a s ++ t = String a (s ++ t).
Proof. reflexivity. Qed.

Lemma append_nil_r (s : string) : s ++ "" = s.
Proof. induction s as [|a s IH]; [reflexivity|]. now rewrite append_cons, IH. Qed.

Lemma append_assoc (s t u : string) : (s ++ t) ++ u = s ++ t ++ u.
Proof.
  induction s as [|a s IH]; [reflexivity|]. now rewrite !append_cons, IH.
Qed.


Lemma GenerateReport_loop_unflagged (indefinite : float64 -> Z)
      (samples : list detect.PoisonedSample.t) :
  Forall (fun sample => detect.PoisonedSample.IsPoisoned sample = false) samples ->
  forall (i : Z) (report : string),
    detect.GenerateReport_loop indefinite i samples report = report.
Proof.
  induction 1 as [|sample rest Hs _ IH]; intros i report;
    cbn [detect.GenerateReport_loop]; [reflexivity|].
  rewrite Hs. apply IH.
Qed.


(** X23: [GenerateReport] of package detect lists flagged verdicts only.
    When no verdict of the result is flagged, the report is the summary
    (the report of the same result without verdicts), followed by the
    heading "Detected Poisoned Samples:" with nothing under it when the
    result has verdicts. *)
Theorem GenerateReport_detection_clean :
  forall (indefinite : float64 -> Z) (isPoisoned : bool) (sampleCount poisonedCount : Z)
         (samples : list detect.PoisonedSample.t) (riskScore : float64) (method : string),
    Forall (fun sample => detect.PoisonedSample.IsPoisoned sample = false) samples ->
    exists summary,
      detect.GenerateReport indefinite
        (Some (detect.DetectionResult.mk isPoisoned sampleCount poisonedCount []
                                         riskScore method))
      = Returned summary
      /\ detect.GenerateReport indefinite
           (Some (detect.DetectionResult.mk isPoisoned sampleCount poisonedCount samples
                                            riskScore method))
         = Returned (summary ++ match samples with
                                | [] => ""
                                | _ => "Detected Poisoned Samples:" ++ LF
                                end).
Proof.
  intros indefinite isPoisoned sampleCount poisonedCount samples riskScore method Hs.
  eexists. split; [reflexivity|].
  unfold detect.GenerateReport. cbv zeta.
  cbn [detect.DetectionResult.Samples detect.DetectionResult.SampleCount
       detect.DetectionResult.PoisonedCount detect.DetectionResult.RiskScore
       detect.DetectionResult.Method length Z.of_nat Z.ltb Z.compare].
  destruct samples as [|sample rest].
  - cbn [length Z.of_nat Z.ltb Z.compare]. now rewrite append_nil_r.
  - replace (0 <? Z.of_nat (length (sample :: rest))) with true
      by (symmetry; apply Z.ltb_lt; cbn [length]; lia).
    now rewrite (GenerateReport_loop_unflagged indefinite _ Hs).
Qed.

Lemma GenerateReport_detection_clean_witness :
  exists summary,
    detect.GenerateReport (fun _ => 0)
      (Some (detect.DetectionResult.mk false 1 0 [] 0%float "ensemble_detection"))
    = Returned summary
    /\ detect.GenerateReport (fun _ => 0)
         (Some (detect.Detect detect.NewDetector [mkSample "s1" [1; 2; 3]%float 0 None]))
       = Returned (summary ++ "Detected Poisoned Samples:" ++ LF).
Proof.
  apply (GenerateReport_detection_clean (fun _ => 0) false 1 0
           [detect.analyzeSample detect.NewDetector (mkSample "s1" [1; 2; 3]%float 0 None)]
           0%float "ensemble_detection").
  repeat constructor.
Defined.

(** * The defense report *)

(** X24: [GenerateReport] of package defend panics on a nil result.  On the
    result of [Defend] it starts with the banner, "Success: yes" or
    "Success: no" and the strategy used; for a strategy name that is not in
    the catalog it is the same report whatever the risk, with an empty
    strategy and 0% three times. *)
Theorem GenerateReport_defense :
  forall (indefinite : float64 -> Z) (risk : float64) (name : string),
    let result := defend.Defend defend.NewDefender risk name in
    defend.GenerateReport indefinite None = Panicked "nil pointer dereference"
    /\ (exists rest,
          defend.GenerateReport indefinite (Some result)
          = Returned ("=== Model Poisoning Defense Report ===" ++ LF ++ LF
                      ++ "Success: " ++ (if defend.Success result then "yes" else "no") ++ LF
                      ++ "Strategy Used: " ++ defend.StrategyUsed result ++ LF ++ rest))
    /\ (defend.Success result = false ->
        defend.GenerateReport indefinite (Some result)
        = Returned ("=== Model Poisoning Defense Report ===" ++ LF ++ LF
                    ++ "Success: no" ++ LF
                    ++ "Strategy Used: " ++ LF
                    ++ "Improvement: 0%" ++ LF
                    ++ "Risk Reduction: 0%" ++ LF
                    ++ "Cost: 0%" ++ LF)).
Proof.
  intros indefinite risk name result. split; [reflexivity|]. split.
  - unfold defend.GenerateReport, defend.boolToString. cbv zeta.
    rewrite !append_nil_l, !append_assoc. eexists. reflexivity.
  - subst result. unfold defend.Defend.
    destruct (defend.lookup_strategy _ name); [discriminate|]. intros _. reflexivity.
Qed.

(** * Filtered data and the scorers *)

(** X25: input filtering establishes what the gradient-outlier scorer
    needs: every sample that [ApplyDefense] with "Input Filtering" returns
    has at least one feature, so on it all four scorers return a value in
    [0, 1]. *)
Theorem filtering_then_scorers :
  forall (d : detect.Detector) (samples filtered : list Sample) (sample : Sample)
         (store store' : Store),
    defend.ApplyDefense defend.NewDefender samples "Input Filtering" store
    = Returned (filtered, store') ->
    In sample filtered ->
    Z.of_nat (length (Features sample)) < 2 ^ 63 ->
    Features sample <> []
    /\ F64.in_unit (detect.checkBackdoor d sample)
    /\ F64.in_unit (detect.checkLabelFlip d sample)
    /\ F64.in_unit (detect.checkGradientPoison d sample)
    /\ F64.in_unit (detect.checkFeaturePoison d sample).
Proof.
  intros d samples filtered sample store store' H Hin Hlen.
  change (defend.ApplyDefense defend.NewDefender samples "Input Filtering" store)
    with (Returned (defend.filterInputs defend.NewDefender samples, store)) in H.
  injection H as <- _. rewrite filterInputs_filter in Hin.
  apply List.filter_In in Hin as [_ Hv].
  assert (Hne : Features sample <> []).
  { unfold defend.isValidInput in Hv. intros E. rewrite E in Hv. discriminate Hv. }
  split; [exact Hne|].
  split; [apply checkBackdoor_in_unit|].
  split; [split; reflexivity|].
  split; [now apply checkGradientPoison_in_unit | apply checkFeaturePoison_in_unit].
Qed.

Lemma filtering_then_scorers_witness :
  let sample := mkSample "s2" [1; 2; 300]%float 0 None in
  F64.in_unit (detect.checkGradientPoison detect.NewDetector
                 (mkSample "s1" [1; 2; 3]%float 0 None)).
Proof.
  intros sample.
  apply (filtering_then_scorers detect.NewDetector
           [mkSample "s0" [] 0 None; mkSample "s1" [1; 2; 3]%float 0 None; sample]
           [mkSample "s1" [1; 2; 3]%float 0 None]
           (mkSample "s1" [1; 2; 3]%float 0 None) ∅ ∅).
  - reflexivity.
  - left. reflexivity.
  - reflexivity.
Defined.

(** * What the detector looks at *)

(** X26: the verdict on a sample depends on its ID and its Features only:
    neither the Label nor the Metadata of a sample has any influence on the
    result of [Detect]. *)
Theorem Detect_ignores_labels :
  forall (d : detect.Detector) (samples samples' : list Sample),
    map ID samples = map ID samples' ->
    map Features samples = map Features samples' ->
    detect.Detect d samples = detect.Detect d samples'.
Proof.
  intros d samples samples' Hid Hf.
  assert (E : map (detect.analyzeSample d) samples = map (detect.analyzeSample d) samples').
  { revert samples' Hid Hf.
    induction samples as [|s rest IH]; intros [|s' rest'] Hid Hf;
      try discriminate; [reflexivity|].
    cbn [map] in *. injection Hid as Hi Hid. injection Hf as Hf0 Hf.
    rewrite (IH rest' Hid Hf). f_equal.
    destruct s as [i f l m], s' as [i' f' l' m']. cbn in Hi, Hf0. subst. reflexivity. }
  assert (L : length samples = length samples').
  { rewrite <- (length_map ID samples), Hid. apply length_map. }
  rewrite !Detect_unfold. cbv zeta. now rewrite E, L.
Qed.

Lemma Detect_ignores_labels_witness :
  detect.Detect detect.NewDetector
    [mkSample "s1" [1; 2; 3]%float 0 None]
  = detect.Detect detect.NewDetector
      [mkSample "s1" [1; 2; 3]%float 7 (Some 1%positive)].
Proof.
  apply (Detect_ignores_labels detect.NewDetector); reflexivity.
Defined.

